(** * SimpleSQL: the in-memory SQL engine of [src/app.js]

    A shallow embedding of the class [SimpleSQL] (the fallback engine of the
    worksheet) and the properties of its statement handlers.

    Modelling conventions.
    - A JavaScript string is a [string]; a character is one UTF-16 code unit
      in the range 0..255 (Latin-1).  White space, line terminators, case
      mapping and the regular-expression classes are those of ECMAScript
      restricted to that range.
    - Regular expressions are abstract syntax trees run by a backtracking
      matcher with the priorities of ECMAScript (leftmost start, greedy or
      lazy repetition, ordered alternatives, numbered captures).
    - A JavaScript number is a binary64 value: not-a-number, an infinity or
      the finite [m * 2^e], kept in one canonical shape.  Reading a numeral
      rounds the number it spells to the nearest such value, ties to the even
      significand, with overflow to an infinity and gradual underflow to
      zero; every digit of the numeral counts (ECMAScript lets an engine
      ignore the digits after the twentieth).  Negative zero is not kept
      apart from zero: no operation of the engine tells them apart.
    - [this.tables] is a finite map from names to tables; a handler takes the
      catalog and returns the catalog it leaves behind together with either
      the value it returns or the error it throws. *)

From Stdlib Require Import ZArith NArith Ascii String List Bool Lia.
From Stdlib Require Import DecimalString.
From stdpp Require Import gmap strings list fin_maps.

Local Open Scope string_scope.

(** ** Characters and strings of the host language *)

Module Js.

Definition code (c : ascii) : N := N_of_ascii c.

Definition between (lo hi : N) (c : ascii) : bool :=
  (lo <=? code c)%N && (code c <=? hi)%N.

(** WhiteSpace and LineTerminator code units below 256: TAB, LF, VT, FF, CR,
    SP and NBSP.  This is the class of [\s] and what [trim] removes. *)
Definition isWhiteSpace (c : ascii) : bool :=
  between 9 13 c || (code c =? 32)%N || (code c =? 160)%N.

Definition isLineTerminator (c : ascii) : bool :=
  (code c =? 10)%N || (code c =? 13)%N.

Definition isDigit (c : ascii) : bool := between 48 57 c.

(** [\w] is [A-Za-z0-9_]. *)
Definition isWordChar (c : ascii) : bool :=
  between 65 90 c || between 97 122 c || isDigit c || (code c =? 95)%N.

(** [.] matches everything but a line terminator. *)
Definition isDot (c : ascii) : bool := negb (isLineTerminator c).

Definition toLowerChar (c : ascii) : ascii :=
  if between 65 90 c || (between 192 222 c && negb (code c =? 215)%N)
  then ascii_of_N (code c + 32) else c.

(** Canonicalize of a case-insensitive, non-unicode pattern: the upper-case
    mapping when it stays a single code unit of the same range. *)
Definition canonicalize (c : ascii) : ascii :=
  if between 97 122 c || (between 224 254 c && negb (code c =? 247)%N)
  then ascii_of_N (code c - 32) else c.

Fixpoint toLowerCase (s : string) : string :=
  match s with
  | EmptyString => EmptyString
  | String c r => String (toLowerChar c) (toLowerCase r)
  end.

Definition isEmpty (s : string) : bool :=
  match s with EmptyString => true | String _ _ => false end.

Fixpoint trimStart (s : string) : string :=
  match s with
  | EmptyString => EmptyString
  | String c r => if isWhiteSpace c then trimStart r else s
  end.

Fixpoint trimEnd (s : string) : string :=
  match s with
  | EmptyString => EmptyString
  | String c r =>
      let r' := trimEnd r in
      if isWhiteSpace c && isEmpty r' then EmptyString else String c r'
  end.

Definition trim (s : string) : string := trimEnd (trimStart s).

(** [s] is empty or starts with a character that is not white space. *)
Definition noLeadingSpace (s : string) : bool :=
  match s with
  | EmptyString => true
  | String c _ => negb (isWhiteSpace c)
  end.

Fixpoint startsWith (p s : string) : bool :=
  match p, s with
  | EmptyString, _ => true
  | String a p', String b s' => Ascii.eqb a b && startsWith p' s'
  | String _ _, EmptyString => false
  end.

(** [s + c]: the loops of the scanner append one character at a time. *)
Fixpoint snoc (s : string) (c : ascii) : string :=
  match s with
  | EmptyString => String c EmptyString
  | String a r => String a (snoc r c)
  end.

(** [s.split(sep)] for a one-character separator. *)
Fixpoint splitAux (sep : ascii) (cur : string) (s : string) : list string :=
  match s with
  | EmptyString => [cur]
  | String c r =>
      if Ascii.eqb c sep then cur :: splitAux sep EmptyString r
      else splitAux sep (snoc cur c) r
  end.

Definition split (sep : ascii) (s : string) : list string :=
  splitAux sep EmptyString s.

(** [s.split(/\s+/)]: the pieces between maximal runs of white space.
    [skipping] is set while a run of separators is being consumed. *)
Fixpoint splitWsAux (skipping : bool) (cur : string) (s : string)
  : list string :=
  match s with
  | EmptyString => [cur]
  | String c r =>
      if isWhiteSpace c then
        if skipping then splitWsAux true cur r
        else cur :: splitWsAux true EmptyString r
      else splitWsAux false (snoc cur c) r
  end.

Definition splitWs (s : string) : list string :=
  splitWsAux false EmptyString s.

(** [s.replace(/^\(|\)$/g, '')]: one opening parenthesis at the start and
    one closing parenthesis at the end are deleted. *)
Fixpoint dropLastParen (s : string) : string :=
  match s with
  | EmptyString => EmptyString
  | String c r =>
      if Ascii.eqb c ")" && isEmpty r then EmptyString
      else String c (dropLastParen r)
  end.

Definition stripParens (s : string) : string :=
  match s with
  | String c r => if Ascii.eqb c "(" then dropLastParen r else dropLastParen s
  | EmptyString => EmptyString
  end.

End Js.

(** ** Regular expressions *)

Module Regex.

Inductive regex : Type :=
| Eps                                   (* the empty pattern *)
| Lit (c : ascii)                       (* a pattern character *)
| Cls (p : ascii -> bool)               (* a class: \s \w \d . [...] *)
| Star (greedy : bool) (p : ascii -> bool)  (* p* and p*? *)
| Opt (r : regex)                       (* r? *)
| Seq (r1 r2 : regex)
| Alt (r1 r2 : regex)
| Grp (n : nat) (r : regex)             (* the n-th capturing group *)
| Bol                                   (* ^ *)
| Eol.                                  (* $ *)

(** [p+] and [p+?]. *)
Definition Plus (greedy : bool) (p : ascii -> bool) : regex :=
  Seq (Cls p) (Star greedy p).

(** A word of pattern characters. *)
Fixpoint Word (w : string) : regex :=
  match w with
  | EmptyString => Eps
  | String c w' => Seq (Lit c) (Word w')
  end.

(** Concatenation of the items of a pattern, left to right. *)
Fixpoint Cat (rs : list regex) : regex :=
  match rs with
  | [] => Eps
  | r :: rs' => Seq r (Cat rs')
  end.

Definition captures : Type := list (nat * string).

(** The continuation receives the rest of the input, its index in the
    subject and the captures made so far. *)
Definition cont : Type := string -> nat -> captures -> option captures.

Fixpoint starGreedy (p : ascii -> bool) (inp : string) (i : nat)
  (cs : captures) (k : cont) : option captures :=
  match inp with
  | String c rest =>
      if p c then
        match starGreedy p rest (S i) cs k with
        | Some m => Some m
        | None => k inp i cs
        end
      else k inp i cs
  | EmptyString => k inp i cs
  end.

Fixpoint starLazy (p : ascii -> bool) (inp : string) (i : nat)
  (cs : captures) (k : cont) : option captures :=
  match k inp i cs with
  | Some m => Some m
  | None =>
      match inp with
      | String c rest => if p c then starLazy p rest (S i) cs k else None
      | EmptyString => None
      end
  end.

Definition litMatches (ignoreCase : bool) (c d : ascii) : bool :=
  if ignoreCase then Ascii.eqb (Js.canonicalize c) (Js.canonicalize d)
  else Ascii.eqb c d.

Fixpoint run (ic : bool) (r : regex) (inp : string) (i : nat)
  (cs : captures) (k : cont) : option captures :=
  match r with
  | Eps => k inp i cs
  | Lit c =>
      match inp with
      | String d rest => if litMatches ic c d then k rest (S i) cs else None
      | EmptyString => None
      end
  | Cls p =>
      match inp with
      | String d rest => if p d then k rest (S i) cs else None
      | EmptyString => None
      end
  | Star true p => starGreedy p inp i cs k
  | Star false p => starLazy p inp i cs k
  | Opt r1 =>
      match run ic r1 inp i cs k with
      | Some m => Some m
      | None => k inp i cs
      end
  | Seq r1 r2 =>
      run ic r1 inp i cs (fun inp' i' cs' => run ic r2 inp' i' cs' k)
  | Alt r1 r2 =>
      match run ic r1 inp i cs k with
      | Some m => Some m
      | None => run ic r2 inp i cs k
      end
  | Grp n r1 =>
      run ic r1 inp i cs
        (fun inp' i' cs' => k inp' i' ((n, substring 0 (i' - i) inp) :: cs'))
  | Bol => if Nat.eqb i 0 then k inp i cs else None
  | Eol => if Js.isEmpty inp then k inp i cs else None
  end.

Definition accept : cont := fun _ _ cs => Some cs.

(** The first start position, from the left, at which the pattern matches. *)
Fixpoint searchFrom (ic : bool) (r : regex) (inp : string) (i : nat)
  : option captures :=
  match run ic r inp i [] accept with
  | Some m => Some m
  | None =>
      match inp with
      | String _ rest => searchFrom ic r rest (S i)
      | EmptyString => None
      end
  end.

(** [s.match(re)] for a pattern without the [g] flag. *)
Definition search (ic : bool) (r : regex) (s : string) : option captures :=
  searchFrom ic r s 0.

(** [re.test(s)]. *)
Definition test (ic : bool) (r : regex) (s : string) : bool :=
  match search ic r s with Some _ => true | None => false end.

(** [m[n]]: the text of group [n], [None] for a group that took no part. *)
Fixpoint group (n : nat) (m : captures) : option string :=
  match m with
  | [] => None
  | (j, s) :: m' => if Nat.eqb j n then Some s else group n m'
  end.

Definition groupStr (n : nat) (m : captures) : string :=
  match group n m with Some s => s | None => EmptyString end.

End Regex.

(** ** Numbers and values of the host language *)

Module JsValue.

(** A number: not-a-number, an infinity, or the finite binary64 value
    [m * 2^e].  A finite value is kept canonical: [e] is 0 when the value is
    an integer, and otherwise [e] is negative and [m] is odd. *)
Inductive number : Type :=
| NaN
| PosInf
| NegInf
| Fin (m : Z) (e : Z).

Definition numCompare (m1 e1 m2 e2 : Z) : comparison :=
  let e := Z.min e1 e2 in
  (m1 * 2 ^ (e1 - e) ?= m2 * 2 ^ (e2 - e))%Z.

(** The integer nearest to [num / den], for [den] positive; a tie goes to the
    even one. *)
Definition halfEven (num den : Z) : Z :=
  let q := (num / den)%Z in
  match (2 * (num mod den) ?= den)%Z with
  | Lt => q
  | Gt => (q + 1)%Z
  | Eq => if Z.even q then q else (q + 1)%Z
  end.

(** The exponent [b] with [2^b <= n / d < 2^(b+1)], for [n] and [d]
    positive. *)
Definition binade (n d : Z) : Z :=
  let l := (Z.log2 n - Z.log2 d)%Z in
  if (0 <=? l)%Z
  then (if (d * 2 ^ l <=? n)%Z then l else (l - 1)%Z)
  else (if (d <=? n * 2 ^ (- l))%Z then l else (l - 1)%Z).

(** The canonical shape of [m * 2^e]. *)
Definition canonical (m e : Z) : number :=
  if (0 <=? e)%Z then Fin (m * 2 ^ e) 0
  else let g := Z.gcd m (2 ^ (- e)) in Fin (m / g) (e + Z.log2 g).

(** The binary64 value nearest to the rational [n / d], for [d] positive:
    53 significant bits, no exponent below -1074, and an infinity from
    [2^1024] on. *)
Definition nearest (n d : Z) : number :=
  if (n =? 0)%Z then Fin 0 0
  else
    let a := Z.abs n in
    let e := Z.max (binade a d - 52) (-1074) in
    let m := if (0 <=? e)%Z then halfEven a (d * 2 ^ e)
             else halfEven (a * 2 ^ (- e)) d in
    if (0 <=? e)%Z && (2 ^ 1024 <=? m * 2 ^ e)%Z
    then (if (n <? 0)%Z then NegInf else PosInf)
    else canonical (Z.sgn n * m) e.

(** The binary64 value nearest to the decimal [m * 10^x]. *)
Definition decimalValue (m x : Z) : number :=
  if (0 <=? x)%Z then nearest (m * 10 ^ x) 1 else nearest m (10 ^ (- x)).

Definition numEq (a b : number) : bool :=
  match a, b with
  | PosInf, PosInf => true
  | NegInf, NegInf => true
  | Fin m1 e1, Fin m2 e2 =>
      match numCompare m1 e1 m2 e2 with Eq => true | _ => false end
  | _, _ => false
  end.

(** [a < b]; [None] is the undefined answer given when an operand is NaN. *)
Definition numLt (a b : number) : option bool :=
  match a, b with
  | NaN, _ | _, NaN => None
  | PosInf, _ => Some false
  | _, PosInf => Some true
  | _, NegInf => Some false
  | NegInf, _ => Some true
  | Fin m1 e1, Fin m2 e2 =>
      Some match numCompare m1 e1 m2 e2 with Lt => true | _ => false end
  end.

Definition digitVal (c : ascii) : Z := Z.of_N (Js.code c) - 48.

(** The value of a run of decimal digits, continuing from [acc]. *)
Fixpoint digitsVal (acc : Z) (s : string) : Z :=
  match s with
  | EmptyString => acc
  | String c r => digitsVal (acc * 10 + digitVal c) r
  end.

(** The longest prefix of characters in a class, and what follows it. *)
Fixpoint span (p : ascii -> bool) (s : string) : string * string :=
  match s with
  | EmptyString => (EmptyString, EmptyString)
  | String c r =>
      if p c then let '(a, b) := span p r in (String c a, b)
      else (EmptyString, s)
  end.

Definition signOf (s : string) : Z * string :=
  match s with
  | String c r =>
      if Ascii.eqb c "-" then ((-1)%Z, r)
      else if Ascii.eqb c "+" then (1%Z, r)
      else (1%Z, s)
  | EmptyString => (1%Z, s)
  end.

(** [parseInt(s, 10)]: leading white space, a sign, then the longest run of
    digits, read as the number nearest to the integer they spell; NaN when
    there is no digit. *)
Definition parseInt10 (s : string) : number :=
  let '(sg, r) := signOf (Js.trimStart s) in
  let '(ds, _) := span Js.isDigit r in
  if Js.isEmpty ds then NaN else nearest (sg * digitsVal 0 ds) 1.

(** An exponent part [e[+-]digits] at the head of [s], when there is one. *)
Definition exponentPart (s : string) : option (Z * string) :=
  match s with
  | String c r =>
      if Ascii.eqb c "e" || Ascii.eqb c "E" then
        let '(sg, r1) := signOf r in
        let '(ds, r2) := span Js.isDigit r1 in
        if Js.isEmpty ds then None else Some ((sg * digitsVal 0 ds)%Z, r2)
      else None
  | EmptyString => None
  end.

(** The longest prefix of [r] that is a StrUnsignedDecimalLiteral, with its
    value under the sign [sg] and the text after it. *)
Definition unsignedDecimal (sg : Z) (r : string) : option (number * string) :=
  if Js.startsWith "Infinity" r then
    Some (if (sg <? 0)%Z then NegInf else PosInf,
          substring 8 (String.length r - 8) r)
  else
    let '(ip, r1) := span Js.isDigit r in
    let '(fp, r2) :=
      match r1 with
      | String c t =>
          if Ascii.eqb c "." then
            let '(fp, t') := span Js.isDigit t in
            if Js.isEmpty ip && Js.isEmpty fp then (EmptyString, r1)
            else (fp, t')
          else (EmptyString, r1)
      | EmptyString => (EmptyString, r1)
      end in
    if Js.isEmpty ip && Js.isEmpty fp then None
    else
      let m := (sg * digitsVal (digitsVal 0 ip) fp)%Z in
      let e := (- Z.of_nat (String.length fp))%Z in
      match exponentPart r2 with
      | Some (x, r3) => Some (decimalValue m (e + x), r3)
      | None => Some (decimalValue m e, r2)
      end.

(** The longest prefix of [s] that is a StrDecimalLiteral. *)
Definition decimalPrefix (s : string) : option (number * string) :=
  let '(sg, r) := signOf s in unsignedDecimal sg r.

(** [parseFloat(s)]. *)
Definition parseFloat (s : string) : number :=
  match decimalPrefix (Js.trimStart s) with
  | Some (n, _) => n
  | None => NaN
  end.

Definition radixDigit (radix : Z) (c : ascii) : option Z :=
  let d :=
    if Js.isDigit c then digitVal c
    else if Js.between 97 102 c then (Z.of_N (Js.code c) - 87)%Z
    else if Js.between 65 70 c then (Z.of_N (Js.code c) - 55)%Z
    else 99%Z in
  if (d <? radix)%Z then Some d else None.

Fixpoint radixVal (radix : Z) (acc : Z) (s : string) : option Z :=
  match s with
  | EmptyString => Some acc
  | String c r =>
      match radixDigit radix c with
      | Some d => radixVal radix (acc * radix + d) r
      | None => None
      end
  end.

(** A NonDecimalIntegerLiteral: [0x], [0o] or [0b] and at least one digit. *)
Definition nonDecimal (s : string) : option number :=
  match s with
  | String "0" (String c r) =>
      let radix :=
        if Ascii.eqb c "x" || Ascii.eqb c "X" then 16%Z
        else if Ascii.eqb c "o" || Ascii.eqb c "O" then 8%Z
        else if Ascii.eqb c "b" || Ascii.eqb c "B" then 2%Z
        else 0%Z in
      if (radix =? 0)%Z || Js.isEmpty r then None
      else match radixVal radix 0 r with
           | Some v => Some (nearest v 1)
           | None => None
           end
  | _ => None
  end.

(** ToNumber applied to a string. *)
Definition stringToNumber (s : string) : number :=
  let t := Js.trim s in
  if Js.isEmpty t then Fin 0 0
  else match nonDecimal t with
       | Some n => n
       | None =>
           match decimalPrefix t with
           | Some (n, EmptyString) => n
           | _ => NaN
           end
       end.

(** What a cell of a row can hold.  [Undefined] is what reading past the end
    of an array gives. *)
Inductive value : Type :=
| Undefined
| Null
| Bool (b : bool)
| Num (n : number)
| Str (s : string).

Definition toNumber (v : value) : number :=
  match v with
  | Undefined => NaN
  | Null => Fin 0 0
  | Bool true => Fin 1 0
  | Bool false => Fin 0 0
  | Num n => n
  | Str s => stringToNumber s
  end.

(** [x == y]. *)
Definition looseEq (x y : value) : bool :=
  match x, y with
  | (Undefined | Null), (Undefined | Null) => true
  | (Undefined | Null), _ | _, (Undefined | Null) => false
  | Str a, Str b => String.eqb a b
  | _, _ => numEq (toNumber x) (toNumber y)
  end.

(** The abstract relational comparison [x < y]. *)
Definition lessThan (x y : value) : option bool :=
  match x, y with
  | Str a, Str b => Some (String.ltb a b)
  | _, _ => numLt (toNumber x) (toNumber y)
  end.

Definition isTrue (r : option bool) : bool :=
  match r with Some true => true | _ => false end.

Definition isFalse (r : option bool) : bool :=
  match r with Some false => true | _ => false end.

Definition jsLt (x y : value) : bool := isTrue (lessThan x y).
Definition jsGt (x y : value) : bool := isTrue (lessThan y x).
Definition jsLe (x y : value) : bool := isFalse (lessThan y x).
Definition jsGe (x y : value) : bool := isFalse (lessThan x y).
Definition looseNe (x y : value) : bool := negb (looseEq x y).

End JsValue.

(** ** The engine *)

Module SimpleSQL.
Import Regex JsValue.

Record column : Type := { name : string; type : string }.

Record table : Type := { columns : list column; rows : list (list value) }.

(** [this.tables]. *)
Abbreviation catalog := (gmap string table).

(** The object [{ columns, values }] a SELECT returns. *)
Record result : Type := { resultColumns : list string; values : list (list value) }.

(** The errors the engine throws, one constructor per [throw] of the class. *)
Inductive error : Type :=
| FileReadingNotSupported
| UnsupportedQueryType
| InvalidCreateTableSyntax
| InvalidInsertSyntax
| TableDoesNotExist (tableName : string)
| ColumnCountMismatch (expected got : nat)
| AdvancedSelectNotSupported
| ColumnNotFound (colName : string)
| InvalidDropTableSyntax.

Definition showNat (n : nat) : string :=
  NilEmpty.string_of_uint (Nat.to_uint n).

(** The first line of the message of each error. *)
Definition message (e : error) : string :=
  match e with
  | FileReadingNotSupported =>
      "File reading functions like read_csv_auto() and read_parquet() are not supported in the local SQL engine."
  | UnsupportedQueryType =>
      "Unsupported query type. This simple SQL engine supports: CREATE TABLE, INSERT INTO, SELECT, DROP TABLE"
  | InvalidCreateTableSyntax => "Invalid CREATE TABLE syntax"
  | InvalidInsertSyntax => "Invalid INSERT syntax"
  | TableDoesNotExist t => "Table '" ++ t ++ "' does not exist"
  | ColumnCountMismatch x g =>
      "Column count mismatch. Expected " ++ showNat x ++ ", got " ++ showNat g
  | AdvancedSelectNotSupported =>
      "Advanced SELECT queries (like reading from URLs or using functions) are not supported in the local SQL engine. "
  | ColumnNotFound c => "Column '" ++ c ++ "' not found"
  | InvalidDropTableSyntax => "Invalid DROP TABLE syntax"
  end.

Inductive outcome : Type :=
| Returns (r : list result)
| Throws (e : error).

(** *** The patterns of the handlers

    Each pattern is quoted before its syntax tree; in the quotation a blank
    is put between a star and a closing parenthesis. *)

Definition ws : ascii -> bool := Js.isWhiteSpace.
Definition wd : ascii -> bool := Js.isWordChar.
Definition dot : ascii -> bool := Js.isDot.

(** The pattern [/create\s+table\s+(\w+)\s*\((.* )\)/i]. *)
Definition createTableRe : regex :=
  Cat [Word "create"; Plus true ws; Word "table"; Plus true ws;
       Grp 1 (Plus true wd); Star true ws;
       Lit "("; Grp 2 (Star true dot); Lit ")"].

(** The pattern [/insert\s+into\s+(\w+)\s+values\s*\((.* )\)/i]. *)
Definition insertIntoRe : regex :=
  Cat [Word "insert"; Plus true ws; Word "into"; Plus true ws;
       Grp 1 (Plus true wd); Plus true ws; Word "values"; Star true ws;
       Lit "("; Grp 2 (Star true dot); Lit ")"].

(** The pattern [/select\s+(.*?)\s+from\s+(\w+)(?:\s+where\s+(.* ))?/i]. *)
Definition selectRe : regex :=
  Cat [Word "select"; Plus true ws; Grp 1 (Star false dot); Plus true ws;
       Word "from"; Plus true ws; Grp 2 (Plus true wd);
       Opt (Cat [Plus true ws; Word "where"; Plus true ws;
                 Grp 3 (Star true dot)])].

Definition isOperatorChar (c : ascii) : bool :=
  Ascii.eqb c ">" || Ascii.eqb c "<" || Ascii.eqb c "=".

(** The pattern [/(\w+)\s*([><=]+)\s*(.+)/i]. *)
Definition whereRe : regex :=
  Cat [Grp 1 (Plus true wd); Star true ws; Grp 2 (Plus true isOperatorChar);
       Star true ws; Grp 3 (Plus true dot)].

(** The pattern [/drop\s+table\s+(\w+)/i]. *)
Definition dropTableRe : regex :=
  Cat [Word "drop"; Plus true ws; Word "table"; Plus true ws;
       Grp 1 (Plus true wd)].

(** The pattern [/^-?\d+$/]. *)
Definition integerRe : regex :=
  Cat [Bol; Opt (Lit "-"); Plus true Js.isDigit; Eol].

(** The pattern [/^-?\d*\.\d+$/]. *)
Definition decimalRe : regex :=
  Cat [Bol; Opt (Lit "-"); Star true Js.isDigit; Lit ".";
       Plus true Js.isDigit; Eol].

(** *** Literals *)

Definition parseValue (text : string) : value :=
  let text := Js.trim text in
  if String.eqb (Js.toLowerCase text) "null" then Null
  else if String.eqb text "true" then Bool true
  else if String.eqb text "false" then Bool false
  else if test false integerRe text then Num (parseInt10 text)
  else if test false decimalRe text then Num (parseFloat text)
  else Str text.

(** [char === "'" && (i === 0 || valuesStr[i-1] !== '\\')], where [prev] is
    the character before [char], if any. *)
Definition isQuote (prev : option ascii) (char : ascii) : bool :=
  Ascii.eqb char "'" &&
  match prev with
  | None => true
  | Some p => negb (Ascii.eqb p "\")
  end.

(** The loop of [parseValues] from character [i] on; [prev] is the character
    at [i-1]. *)
Fixpoint parseValuesLoop (s : string) (prev : option ascii)
  (values : list value) (current : string) (inQuotes : bool) : list value :=
  match s with
  | EmptyString =>
      if Js.isEmpty (Js.trim current) then values
      else values ++ [parseValue (Js.trim current)]
  | String char rest =>
      if isQuote prev char then
        parseValuesLoop rest (Some char) values current (negb inQuotes)
      else if negb inQuotes && Ascii.eqb char "," then
        parseValuesLoop rest (Some char)
          (values ++ [parseValue (Js.trim current)]) EmptyString inQuotes
      else
        parseValuesLoop rest (Some char) values (Js.snoc current char) inQuotes
  end.

Definition parseValues (valuesStr : string) : list value :=
  let valuesStr := Js.stripParens valuesStr in
  parseValuesLoop valuesStr None [] EmptyString false.

(** [if (current.trim()) sets.push(this.parseValues(current.trim()))] *)
Definition pushSet (sets : list (list value)) (current : string)
  : list (list value) :=
  if Js.isEmpty (Js.trim current) then sets
  else sets ++ [parseValues (Js.trim current)].

(** The loop of [parseValuesSets] from character [i] on. *)
Fixpoint parseValuesSetsLoop (s : string) (prev : option ascii)
  (sets : list (list value)) (current : string) (inQuotes : bool)
  (parenCount : Z) : list (list value) :=
  match s with
  | EmptyString => pushSet sets current
  | String char rest =>
      let inQuotes := if isQuote prev char then negb inQuotes else inQuotes in
      let parenCount :=
        if inQuotes then parenCount
        else if Ascii.eqb char "(" then (parenCount + 1)%Z
        else if Ascii.eqb char ")" then (parenCount - 1)%Z
        else parenCount in
      if negb inQuotes && (parenCount =? 0)%Z && Ascii.eqb char "," then
        parseValuesSetsLoop rest (Some char) (pushSet sets current)
          EmptyString inQuotes parenCount
      else
        parseValuesSetsLoop rest (Some char) sets (Js.snoc current char)
          inQuotes parenCount
  end.

Definition parseValuesSets (valuesStr : string) : list (list value) :=
  parseValuesSetsLoop valuesStr None [] EmptyString false 0.

(** *** CREATE TABLE *)

Definition parseColumn (col : string) : column :=
  let parts := Js.splitWs (Js.trim col) in
  {| name := nth 0 parts EmptyString;
     type := match nth_error parts 1 with
             | Some t => if Js.isEmpty t then "TEXT" else t
             | None => "TEXT"
             end |}.

Definition createTable (query : string) (tables : catalog)
  : catalog * outcome :=
  match search true createTableRe query with
  | None => (tables, Throws InvalidCreateTableSyntax)
  | Some m =>
      let tableName := Js.toLowerCase (groupStr 1 m) in
      let columnsStr := groupStr 2 m in
      let columns := map parseColumn (Js.split "," columnsStr) in
      (<[tableName := {| columns := columns; rows := [] |}]> tables,
       Returns [])
  end.

(** *** INSERT INTO *)

(** The [forEach] over the value sets: each set is checked, then pushed; the
    first set of the wrong length throws and leaves what was pushed. *)
Fixpoint pushRows (ncols : nat) (valuesSets : list (list value))
  (rows : list (list value)) : list (list value) * option error :=
  match valuesSets with
  | [] => (rows, None)
  | values :: rest =>
      if negb (Nat.eqb (length values) ncols) then
        (rows, Some (ColumnCountMismatch ncols (length values)))
      else pushRows ncols rest (rows ++ [values])
  end.

Definition insertInto (query : string) (tables : catalog)
  : catalog * outcome :=
  match search true insertIntoRe query with
  | None => (tables, Throws InvalidInsertSyntax)
  | Some m =>
      let tableName := Js.toLowerCase (groupStr 1 m) in
      let valuesStr := groupStr 2 m in
      match tables !! tableName with
      | None => (tables, Throws (TableDoesNotExist tableName))
      | Some table =>
          let valuesSets := parseValuesSets valuesStr in
          let '(rows', thrown) :=
            pushRows (length (columns table)) valuesSets (rows table) in
          (<[tableName := {| columns := columns table; rows := rows' |}]>
             tables,
           match thrown with
           | Some e => Throws e
           | None => Returns []
           end)
      end
  end.

(** *** SELECT *)

(** [arr.findIndex(p)]; [None] stands for the index -1. *)
Fixpoint findIndex {A : Type} (p : A -> bool) (l : list A) : option nat :=
  match l with
  | [] => None
  | x :: l' =>
      if p x then Some 0
      else match findIndex p l' with
           | Some i => Some (S i)
           | None => None
           end
  end.

(** [columns.findIndex(col => col.name.toLowerCase() === n.toLowerCase())] *)
Definition columnIndex (columns : list column) (n : string) : option nat :=
  findIndex
    (fun col => String.eqb (Js.toLowerCase (name col)) (Js.toLowerCase n))
    columns.

(** [row[index]] *)
Definition cell (row : list value) (index : nat) : value :=
  nth index row Undefined.

Definition evaluateWhere (row : list value) (columns : list column)
  (whereClause : string) : bool :=
  match search true whereRe whereClause with
  | None => true
  | Some m =>
      let columnName := groupStr 1 m in
      let operator := groupStr 2 m in
      let valueStr := groupStr 3 m in
      match columnIndex columns columnName with
      | None => true
      | Some index =>
          let rowValue := cell row index in
          let compareValue := parseValue valueStr in
          if String.eqb operator "=" then looseEq rowValue compareValue
          else if String.eqb operator ">" then jsGt rowValue compareValue
          else if String.eqb operator "<" then jsLt rowValue compareValue
          else if String.eqb operator ">=" then jsGe rowValue compareValue
          else if String.eqb operator "<=" then jsLe rowValue compareValue
          else if String.eqb operator "!=" then looseNe rowValue compareValue
          else if String.eqb operator "<>" then looseNe rowValue compareValue
          else true
      end
  end.

(** The [map] that resolves the selected names; the first name that is not
    a column throws. *)
Fixpoint colIndices (columns : list column) (selectedCols : list string)
  : error + list nat :=
  match selectedCols with
  | [] => inr []
  | colName :: rest =>
      match columnIndex columns colName with
      | None => inl (ColumnNotFound colName)
      | Some index =>
          match colIndices columns rest with
          | inl e => inl e
          | inr indices => inr (index :: indices)
          end
      end
  end.

(** The rows left by the WHERE clause; an absent or empty clause filters
    nothing. *)
Definition applyWhere (t : table) (whereClause : option string)
  : list (list value) :=
  match whereClause with
  | Some w =>
      if Js.isEmpty w then rows t
      else List.filter (fun row => evaluateWhere row (columns t) w) (rows t)
  | None => rows t
  end.

(** The projection of the filtered rows on the selected columns. *)
Definition selectColumns (t : table) (columnsStr : string)
  (rows : list (list value)) : outcome :=
  if String.eqb columnsStr "*" then
    Returns [{| resultColumns := map name (columns t); values := rows |}]
  else
    let selectedCols := map Js.trim (Js.split "," columnsStr) in
    match colIndices (columns t) selectedCols with
    | inl e => Throws e
    | inr indices =>
        Returns [{| resultColumns := selectedCols;
                    values := map (fun row => map (cell row) indices) rows |}]
    end.

Definition select (query : string) (tables : catalog) : catalog * outcome :=
  match search true selectRe query with
  | Some basicMatch =>
      let columnsStr := Js.trim (groupStr 1 basicMatch) in
      let tableName := Js.toLowerCase (groupStr 2 basicMatch) in
      let whereClause := group 3 basicMatch in
      match tables !! tableName with
      | None => (tables, Throws (TableDoesNotExist tableName))
      | Some table =>
          (tables, selectColumns table columnsStr (applyWhere table whereClause))
      end
  | None => (tables, Throws AdvancedSelectNotSupported)
  end.

(** *** DROP TABLE *)

Definition dropTable (query : string) (tables : catalog) : catalog * outcome :=
  match search true dropTableRe query with
  | None => (tables, Throws InvalidDropTableSyntax)
  | Some m =>
      let tableName := Js.toLowerCase (groupStr 1 m) in
      match tables !! tableName with
      | None => (tables, Throws (TableDoesNotExist tableName))
      | Some _ => (delete tableName tables, Returns [])
      end
  end.

(** *** The dispatcher *)

Definition exec (query : string) (tables : catalog) : catalog * outcome :=
  let trimmed := Js.toLowerCase (Js.trim query) in
  if Js.startsWith "create table" trimmed then createTable query tables
  else if Js.startsWith "insert into" trimmed then insertInto query tables
  else if Js.startsWith "select" trimmed then select query tables
  else if Js.startsWith "drop table" trimmed then dropTable query tables
  else if Js.startsWith "read_csv_auto(" trimmed
          || Js.startsWith "read_parquet(" trimmed
  then (tables, Throws FileReadingNotSupported)
  else (tables, Throws UnsupportedQueryType).

(** A batch: the statements run in order on the catalog the previous one
    left, whatever its outcome; the outcomes are collected. *)
Fixpoint execAll (queries : list string) (tables : catalog)
  : catalog * list outcome :=
  match queries with
  | [] => (tables, [])
  | q :: qs =>
      let '(tables', o) := exec q tables in
      let '(tables'', os) := execAll qs tables' in
      (tables'', o :: os)
  end.

(** The catalogs an engine can be in: the empty one of the constructor and
    whatever a call of [exec] leaves, whether it returns or throws. *)
Inductive reachable : catalog -> Prop :=
| reachable_new : reachable ∅
| reachable_exec query tables :
    reachable tables -> reachable (fst (exec query tables)).

(** Every stored row is as long as the column list of its table. *)
Definition rowsAligned (t : table) : Prop :=
  Forall (fun row => length row = length (columns t)) (rows t).

Definition wellFormed (tables : catalog) : Prop :=
  map_Forall (fun _ t => rowsAligned t) tables.

End SimpleSQL.

(** ** The reading of literals in the words of the specification *)

Module Spec.
Import JsValue.

(** Every character of [s] is in the class [p]. *)
Fixpoint allIn (p : ascii -> bool) (s : string) : bool :=
  match s with
  | EmptyString => true
  | String c r => p c && allIn p r
  end.

(** One digit or more. *)
Definition digits1 (s : string) : bool :=
  negb (Js.isEmpty s) && allIn Js.isDigit s.

Definition hasMinus (s : string) : bool :=
  match s with
  | String c _ => Ascii.eqb c "-"
  | EmptyString => false
  end.

Definition unsigned (s : string) : string :=
  match s with
  | String c r => if Ascii.eqb c "-" then r else s
  | EmptyString => s
  end.

Definition signum (s : string) : Z :=
  if hasMinus s then (-1)%Z else 1%Z.

(** The text after a leading point, when [s] starts with one. *)
Definition afterPoint (s : string) : option string :=
  match s with
  | String c f => if Ascii.eqb c "." then Some f else None
  | EmptyString => None
  end.

(** The integer pattern: an optional minus sign and one digit or more. *)
Definition isIntegerToken (s : string) : bool := digits1 (unsigned s).

(** The decimal pattern: an optional minus sign, digits, a point and one
    digit or more. *)
Definition isDecimalToken (s : string) : bool :=
  match afterPoint (snd (span Js.isDigit (unsigned s))) with
  | Some f => digits1 f
  | None => false
  end.

(** [c] is the letter written [lower] or [upper]. *)
Definition isLetter (lower upper c : ascii) : bool :=
  Ascii.eqb c lower || Ascii.eqb c upper.

(** The word null in any letter case. *)
Definition isNullWord (s : string) : bool :=
  match s with
  | String a (String b (String c (String d EmptyString))) =>
      isLetter "n" "N" a && isLetter "u" "U" b &&
      isLetter "l" "L" c && isLetter "l" "L" d
  | _ => false
  end.

(** The digit a character writes. *)
Definition digitOf (c : ascii) : Z :=
  (if Ascii.eqb c "1" then 1 else if Ascii.eqb c "2" then 2
   else if Ascii.eqb c "3" then 3 else if Ascii.eqb c "4" then 4
   else if Ascii.eqb c "5" then 5 else if Ascii.eqb c "6" then 6
   else if Ascii.eqb c "7" then 7 else if Ascii.eqb c "8" then 8
   else if Ascii.eqb c "9" then 9 else 0)%Z.

(** The number a run of digits spells: each digit counts for its place. *)
Fixpoint numeral (s : string) : Z :=
  match s with
  | EmptyString => 0
  | String c r =>
      (digitOf c * 10 ^ Z.of_nat (String.length r) + numeral r)%Z
  end.

(** Integer [z]. *)
Definition Integer (z : Z) : value := Num (Fin z 0).

(** The binary64 number nearest to [n / d]. *)
Definition Rounded (n d : Z) : value := Num (nearest n d).

(** Float, a binary64 number: the one nearest to [m / 10^k], for [m] written
    with [k] digits after the point. *)
Definition Float (m : Z) (k : nat) : value := Rounded m (10 ^ Z.of_nat k).

Definition Text (s : string) : value := Str s.

(** The integer a token of the integer pattern spells. *)
Definition integerOf (s : string) : Z :=
  (signum s * numeral (unsigned s))%Z.

Definition fractionOf (s : string) : string :=
  match afterPoint (snd (span Js.isDigit (unsigned s))) with
  | Some f => f
  | None => EmptyString
  end.

(** The digits of a token of the decimal pattern, read without the point. *)
Definition mantissaOf (s : string) : Z :=
  (signum s *
   (numeral (fst (span Js.isDigit (unsigned s))) *
      10 ^ Z.of_nat (String.length (fractionOf s)) +
    numeral (fractionOf s)))%Z.

(** The inference order of the data model, on a trimmed token: an integer
    token is the Integer it spells. *)
Definition inferScalar (t : string) : value :=
  if isNullWord t then Null
  else if String.eqb t "true" then Bool true
  else if String.eqb t "false" then Bool false
  else if isIntegerToken t then Integer (integerOf t)
  else if isDecimalToken t then
    Float (mantissaOf t) (String.length (fractionOf t))
  else Text t.

(** The same order with every numeric token read as a binary64 number: an
    integer token is the number nearest to the integer it spells. *)
Definition inferNumber (t : string) : value :=
  if isNullWord t then Null
  else if String.eqb t "true" then Bool true
  else if String.eqb t "false" then Bool false
  else if isIntegerToken t then Rounded (integerOf t) 1
  else if isDecimalToken t then
    Float (mantissaOf t) (String.length (fractionOf t))
  else Text t.

(** [c] occurs in [s]. *)
Fixpoint hasChar (c : ascii) (s : string) : bool :=
  match s with
  | EmptyString => false
  | String d r => Ascii.eqb c d || hasChar c r
  end.

(** [p] occurs in [s] as a substring. *)
Fixpoint occurs (p s : string) : bool :=
  Js.startsWith p s ||
  match s with
  | EmptyString => false
  | String _ r => occurs p r
  end.

(** No apostrophe of [s] is a quote for the scanner: each one comes right
    after a backslash.  [prev] is the character before [s]. *)
Fixpoint quotesEscaped (prev : option ascii) (s : string) : bool :=
  match s with
  | EmptyString => true
  | String c r => negb (SimpleSQL.isQuote prev c) && quotesEscaped (Some c) r
  end.

(** The last character of [s], or [d] when [s] is empty. *)
Fixpoint lastChar (d : option ascii) (s : string) : option ascii :=
  match s with
  | EmptyString => d
  | String c r => lastChar (Some c) r
  end.

(** The body of a quoted literal with escaped apostrophes: it holds the
    sequence backslash-apostrophe, every apostrophe in it is escaped, and the
    character before the closing quote is not a backslash.  The character
    before the body is the opening quote. *)
Definition escapedBody (body : string) : Prop :=
  occurs "\'" body = true /\
  quotesEscaped (Some "'"%char) body = true /\
  lastChar (Some "'"%char) body <> Some "\"%char.

(** The literal as written: the body between two apostrophes. *)
Definition quoted (body : string) : string :=
  String "'" (body ++ "'").

End Spec.

(** ** Sample statements and catalogs *)

Module Sample.
Import JsValue SimpleSQL.

Definition columnsAB : list column :=
  [{| name := "a"; type := "INT" |}; {| name := "b"; type := "TEXT" |}].

(** A catalog with the table [t (a INT, b TEXT)] holding one row. *)
Definition oneTable : catalog :=
  <["t" := {| columns := columnsAB;
              rows := [[Num (Fin 0 0); Str "w"]] |}]> ∅.

(** The catalog reached from a new engine by a CREATE and an INSERT. *)
Definition reached : catalog :=
  fst (exec "INSERT INTO t VALUES ((1,'x'))"
         (fst (exec "CREATE TABLE t (a INT, b TEXT)" ∅))).

(** The statements of the first testable property of INSERT. *)
Definition insertTwoTuples : list string :=
  ["CREATE TABLE t (a INT, b TEXT)";
   "INSERT INTO t VALUES (1,'x'),(2,'y')";
   "SELECT * FROM t"].

(** The statements of the testable property of the partial commit. *)
Definition insertShortTuple : list string :=
  ["CREATE TABLE t (a INT, b TEXT)";
   "INSERT INTO t VALUES (1,'x'),(2)";
   "SELECT * FROM t"].

(** The same rows, written as one parenthesised list of tuples. *)
Definition insertTwoTuplesWrapped : list string :=
  ["CREATE TABLE t (a INT, b TEXT)";
   "INSERT INTO t VALUES ((1,'x'),(2,'y'))";
   "SELECT * FROM t"].

(** A one-column table with the rows [1] and [2]. *)
Definition oneColumn : catalog :=
  fst (execAll ["CREATE TABLE t (a INT)";
                "INSERT INTO t VALUES (1)";
                "INSERT INTO t VALUES (2)"] ∅).

End Sample.

(** ** The worksheet around the engine

    The pure parts of the class [DuckDBWorksheet]: how the text of the editor
    is cut into statements, which statements are run for their result, the
    loop that feeds them to the fallback engine, and the quoting of a field
    of the CSV download.  What the class does to the page (status line,
    result table, timing) is left out; the loop returns the value the page
    would be given. *)

Module Worksheet.
Import JsValue SimpleSQL.

(** [s.includes(c)] for a one-character string [c]. *)
Definition includes (s : string) (c : ascii) : bool := Spec.hasChar c s.

(** [stmt => stmt.trim()] as a truth value: the trimmed text is not empty. *)
Definition notBlank (stmt : string) : bool := negb (Js.isEmpty (Js.trim stmt)).

(** [query.split(';').filter(stmt => stmt.trim())] *)
Definition parseStatements (query : string) : list string :=
  List.filter notBlank (Js.split ";" query).

Definition isSelectStatement (statement : string) : bool :=
  let trimmed := Js.toLowerCase (Js.trim statement) in
  Js.startsWith "select" trimmed
  || Js.startsWith "show" trimmed
  || Js.startsWith "describe" trimmed
  || Js.startsWith "explain" trimmed
  || Js.startsWith "with" trimmed.

(** The object [{ columns, values, numRows }] kept as [lastResult]. *)
Record lastResult : Type :=
  { columns : list string;
    values : list (list value);
    numRows : nat }.

(** The body of [for (const statement of statements)] in the fallback branch
    of [executeQuery], from [statement] on.  A statement that throws ends the
    loop with its error; the engine keeps what it held at that point. *)
Fixpoint runStatements (statements : list string) (tables : catalog)
  (last : option lastResult) : catalog * (error + option lastResult) :=
  match statements with
  | [] => (tables, inr last)
  | statement :: rest =>
      let trimmedStatement := Js.trim statement in
      if Js.isEmpty trimmedStatement then runStatements rest tables last
      else if isSelectStatement trimmedStatement then
        match exec trimmedStatement tables with
        | (tables', Throws e) => (tables', inl e)
        | (tables', Returns result) =>
            match result with
            | r :: _ =>
                runStatements rest tables'
                  (Some {| columns := resultColumns r;
                           values := SimpleSQL.values r;
                           numRows := length (SimpleSQL.values r) |})
            | [] => runStatements rest tables' last
            end
        end
      else
        match exec trimmedStatement tables with
        | (tables', Throws e) => (tables', inl e)
        | (tables', Returns _) => runStatements rest tables' last
        end
  end.

(** What the page is given at the end of [executeQuery]. *)
Inductive shown : Type :=
| PleaseEnterQuery                 (* showError('Please enter a SQL query') *)
| QueryError (e : error)           (* showError('Query Error: ' + message) *)
| Results (r : lastResult)         (* displayFallbackResults(lastResult, _) *)
| Success.                         (* showSuccess('Query executed ...') *)

(** [executeQuery] on an initialised worksheet in fallback mode; [text] is
    the content of the editor. *)
Definition executeQuery (text : string) (tables : catalog) : catalog * shown :=
  let query := Js.trim text in
  if Js.isEmpty query then (tables, PleaseEnterQuery)
  else
    match runStatements (parseStatements query) tables None with
    | (tables', inl e) => (tables', QueryError e)
    | (tables', inr (Some r)) => (tables', Results r)
    | (tables', inr None) => (tables', Success)
    end.

(** The double quote. *)
Definition dquote : ascii := "034"%char.

(** The global [replace] of [escapeCsv]: every double quote is written
    twice. *)
Fixpoint doubleQuotes (s : string) : string :=
  match s with
  | EmptyString => EmptyString
  | String c r =>
      if Ascii.eqb c dquote then String dquote (String dquote (doubleQuotes r))
      else String c (doubleQuotes r)
  end.

(** [escapeCsv] on a string. *)
Definition escapeCsv (value : string) : string :=
  if includes value "," || includes value dquote
     || includes value "010" || includes value "013"
  then String dquote (doubleQuotes value ++ String dquote EmptyString)
  else value.

End Worksheet.

(** ** Predicates used to state the properties *)

Module Facts.
Import JsValue SimpleSQL.

(** No cell of the catalog is [Undefined]. *)
Definition definedRow (row : list value) : Prop :=
  Forall (fun v => v <> Undefined) row.

Definition allDefined (tables : catalog) : Prop :=
  map_Forall (fun _ t => Forall definedRow (rows t)) tables.

(** The number of occurrences of [c] in [s]. *)
Fixpoint countChar (c : ascii) (s : string) : nat :=
  match s with
  | EmptyString => 0
  | String d r => (if Ascii.eqb d c then 1 else 0) + countChar c r
  end.

(** The pieces of a comma-separated list without the last one when it is
    blank. *)
Fixpoint dropBlankLast (pieces : list string) : list string :=
  match pieces with
  | [] => []
  | [x] => if Js.isEmpty (Js.trim x) then [] else [x]
  | x :: rest => x :: dropBlankLast rest
  end.

(** [pieces.join(sep)] *)
Fixpoint join (sep : string) (pieces : list string) : string :=
  match pieces with
  | [] => EmptyString
  | [x] => x
  | x :: rest => x ++ sep ++ join sep rest
  end.

(** The text of a tuple: no apostrophe and no parenthesis. *)
Definition isPlainChar (c : ascii) : bool :=
  negb (Ascii.eqb c "'") && negb (Ascii.eqb c "(") && negb (Ascii.eqb c ")").

Definition plain (body : string) : bool := Spec.allIn isPlainChar body.

(** A tuple as written: the body between parentheses. *)
Definition wrap (body : string) : string := String "(" (body ++ ")").

(** No character of [s] is white space. *)
Definition noSpace (s : string) : Prop :=
  Spec.allIn (fun c => negb (Js.isWhiteSpace c)) s = true.

(** A reader of one CSV field, as a consumer of the download would read it
    (RFC 4180); it is not part of the worksheet.  After the opening double
    quote: two double quotes stand for one, a single one closes the field and
    must be its last character. *)
Fixpoint readQuoted (s : string) : option string :=
  match s with
  | EmptyString => None
  | String c r =>
      if Ascii.eqb c Worksheet.dquote then
        match r with
        | EmptyString => Some EmptyString
        | String d r' =>
            if Ascii.eqb d Worksheet.dquote
            then option_map (String Worksheet.dquote) (readQuoted r')
            else None
        end
      else option_map (String c) (readQuoted r)
  end.

(** A field that does not start with a double quote is read as it is, and
    must hold no separator and no double quote. *)
Definition readCsvField (field : string) : option string :=
  match field with
  | EmptyString => Some EmptyString
  | String c r =>
      if Ascii.eqb c Worksheet.dquote then readQuoted r
      else if Worksheet.includes field "," || Worksheet.includes field Worksheet.dquote
              || Worksheet.includes field "010" || Worksheet.includes field "013"
      then None
      else Some field
  end.

(** The first character of [s] is in the class [p]. *)
Definition headIn (p : ascii -> bool) (s : string) : bool :=
  match s with
  | String c _ => p c
  | EmptyString => false
  end.

(** The continuation [k] of a pattern cannot go on from a character of the
    class [p]. *)
Definition failsOn (k : Regex.cont) (p : ascii -> bool) : Prop :=
  forall c r j cs, p c = true -> k (String c r) j cs = None.

(** The text [u] is the word [w] of a pattern, character by character. *)
Fixpoint wordMatches (ic : bool) (w u : string) : bool :=
  match w, u with
  | EmptyString, EmptyString => true
  | String x w', String d u' =>
      Regex.litMatches ic x d && wordMatches ic w' u'
  | _, _ => false
  end.

(** A name as the patterns read it: one character of [\w] or more. *)
Definition isIdentifier (n : string) : bool :=
  negb (Js.isEmpty n) && Spec.allIn Js.isWordChar n.

(** A text the class [.] runs through: it holds no line terminator. *)
Definition oneLine (s : string) : bool := Spec.allIn Js.isDot s.

(** A column list as the pattern of SELECT reads it whole: not empty, on
    one line and without white space. *)
Definition isColumnText (cs : string) : bool :=
  negb (Js.isEmpty cs) &&
  Spec.allIn (fun c => Js.isDot c && negb (Js.isWhiteSpace c)) cs.

(** The [switch] of [evaluateWhere] on the operator. *)
Definition switchOperator (operator : string) (rowValue compareValue : value)
  : bool :=
  if String.eqb operator "=" then looseEq rowValue compareValue
  else if String.eqb operator ">" then jsGt rowValue compareValue
  else if String.eqb operator "<" then jsLt rowValue compareValue
  else if String.eqb operator ">=" then jsGe rowValue compareValue
  else if String.eqb operator "<=" then jsLe rowValue compareValue
  else if String.eqb operator "!=" then looseNe rowValue compareValue
  else if String.eqb operator "<>" then looseNe rowValue compareValue
  else true.

(** An operator as the pattern of conditions reads it: one character or
    more among [>], [<] and [=]. *)
Definition isOperatorText (op : string) : bool :=
  negb (Js.isEmpty op) && Spec.allIn isOperatorChar op.

(** A literal of a condition: one line, not empty, and starting with a
    character that is neither white space nor an operator character. *)
Definition isLiteralText (lit : string) : bool :=
  oneLine lit &&
  match lit with
  | String c _ => negb (Js.isWhiteSpace c) && negb (isOperatorChar c)
  | EmptyString => false
  end.

(** The condition [col op lit] as written, with one blank on each side of
    the operator. *)
Definition condition (col op lit : string) : string :=
  col ++ String " " (op ++ String " " lit).

End Facts.

Import Js Regex JsValue SimpleSQL Spec.

(** * Properties *)

(** ** Characters *)

(** Decide a property of one character by running through the 256 of them. *)
Ltac by_char c :=
  destruct c as [[] [] [] [] [] [] [] []]; vm_compute;
  try reflexivity; try discriminate; try tauto;
  intros; try discriminate; try tauto.

Lemma isEmpty_true s : isEmpty s = true -> s = EmptyString.
Proof. destruct s; [reflexivity | discriminate]. Qed.

(** ** The two numeric patterns *)

Section EndAnchored.

(** A continuation that accepts exactly at the end of the input. *)
Variable k : cont.
Hypothesis k_end :
  forall inp i cs, k inp i cs = if isEmpty inp then Some cs else None.

Lemma starGreedy_to_end p inp i cs :
  starGreedy p inp i cs k = if allIn p inp then Some cs else None.
Proof.
  revert i; induction inp as [|c r IH]; intros i; simpl.
  - now rewrite k_end.
  - destruct (p c); simpl.
    + rewrite IH. destruct (allIn p r); [reflexivity|].
      now rewrite k_end.
    + now rewrite k_end.
Qed.

Lemma plus_to_end p inp i cs :
  run false (Plus true p) inp i cs k =
  if negb (isEmpty inp) && allIn p inp then Some cs else None.
Proof.
  unfold Plus; simpl. destruct inp as [|c r]; [reflexivity|]. simpl.
  destruct (p c); [apply starGreedy_to_end | reflexivity].
Qed.

End EndAnchored.

(** A greedy star followed by something that cannot start where the star
    could go on takes the longest run and never gives a character back. *)
Lemma starGreedy_span p k inp i cs :
  (forall c r j cs', p c = true -> k (String c r) j cs' = None) ->
  starGreedy p inp i cs k =
  k (snd (span p inp)) (i + String.length (fst (span p inp))) cs.
Proof.
  intros Hk. revert i; induction inp as [|c r IH]; intros i; simpl.
  - now rewrite Nat.add_0_r.
  - destruct (p c) eqn:Hc.
    + rewrite IH. destruct (span p r) as [a b]; simpl.
      rewrite Nat.add_succ_r.
      destruct (k b (S (i + String.length a)) cs); [reflexivity|].
      now apply Hk.
    + simpl. now rewrite Nat.add_0_r.
Qed.

Lemma anchored_searchFrom ic r inp i :
  searchFrom ic (Seq Bol r) inp (S i) = None.
Proof.
  revert i; induction inp as [|c rest IH]; intros i; simpl; [reflexivity|].
  apply IH.
Qed.

Lemma anchored_test ic r s :
  test ic (Seq Bol r) s =
  match run ic r s 0 [] accept with Some _ => true | None => false end.
Proof.
  unfold test, search. destruct s as [|c rest]; simpl.
  - now destruct (run ic r EmptyString 0 [] accept).
  - destruct (run ic r (String c rest) 0 [] accept); [reflexivity|].
    now rewrite anchored_searchFrom.
Qed.

Lemma minus_not_digit : isDigit "-" = false.
Proof. reflexivity. Qed.

Lemma integerRe_spec s : test false integerRe s = isIntegerToken s.
Proof.
  unfold integerRe. simpl Cat. rewrite anchored_test.
  set (k := fun inp i cs => run false (Seq Eol Eps) inp i cs accept).
  assert (Hk : forall inp i cs,
             k inp i cs = if isEmpty inp then Some cs else None).
  { intros inp i cs. unfold k; simpl. now destruct (isEmpty inp). }
  change (run false (Seq (Opt (Lit "-")) (Seq (Plus true isDigit) (Seq Eol Eps)))
            s 0 [] accept)
    with (match run false (Lit "-") s 0 []
                  (fun inp i cs => run false (Plus true isDigit) inp i cs k)
          with
          | Some m => Some m
          | None => run false (Plus true isDigit) s 0 [] k
          end).
  unfold isIntegerToken, digits1.
  destruct s as [|c r]; [reflexivity|].
  cbn [run litMatches].
  destruct (Ascii.eqb "-" c) eqn:Hc.
  - apply Ascii.eqb_eq in Hc; subst c. cbn [unsigned Ascii.eqb Bool.eqb].
    rewrite !(plus_to_end k Hk). cbn [isEmpty allIn negb andb].
    rewrite minus_not_digit.
    now destruct (negb (isEmpty r) && allIn isDigit r).
  - rewrite (plus_to_end k Hk). unfold unsigned.
    rewrite Ascii.eqb_sym, Hc.
    now destruct (negb (isEmpty (String c r)) && allIn isDigit (String c r)).
Qed.

Lemma digit_not_point c : isDigit c = true -> Ascii.eqb "." c = false.
Proof. by_char c. Qed.

Lemma decimalRe_spec s : test false decimalRe s = isDecimalToken s.
Proof.
  unfold decimalRe. simpl Cat. rewrite anchored_test.
  set (k := fun inp i cs => run false (Seq Eol Eps) inp i cs accept).
  assert (Hk : forall inp i cs,
             k inp i cs = if isEmpty inp then Some cs else None).
  { intros inp i cs. unfold k; simpl. now destruct (isEmpty inp). }
  set (k2 := fun inp i cs =>
               run false (Lit ".") inp i cs
                 (fun inp' i' cs' => run false (Plus true isDigit) inp' i' cs' k)).
  assert (Hk2 : forall inp i cs,
             k2 inp i cs =
             match afterPoint inp with
             | Some f => if digits1 f then Some cs else None
             | None => None
             end).
  { intros inp i cs. unfold k2. destruct inp as [|c f]; [reflexivity|].
    cbn [run litMatches afterPoint]. rewrite (Ascii.eqb_sym c).
    destruct (Ascii.eqb "." c); [|reflexivity].
    now rewrite (plus_to_end k Hk). }
  assert (Hk1 : forall inp i cs,
             starGreedy isDigit inp i cs k2 =
             match afterPoint (snd (span isDigit inp)) with
             | Some f => if digits1 f then Some cs else None
             | None => None
             end).
  { intros inp i cs. rewrite starGreedy_span; [apply Hk2|].
    intros c r j cs' Hc. rewrite Hk2. cbn [afterPoint].
    rewrite Ascii.eqb_sym. now rewrite (digit_not_point c Hc). }
  change (run false
            (Seq (Opt (Lit "-"))
               (Seq (Star true isDigit)
                  (Seq (Lit ".") (Seq (Plus true isDigit) (Seq Eol Eps)))))
            s 0 [] accept)
    with (match run false (Lit "-") s 0 []
                  (fun inp i cs => starGreedy isDigit inp i cs k2)
          with
          | Some m => Some m
          | None => starGreedy isDigit s 0 [] k2
          end).
  unfold isDecimalToken.
  destruct s as [|c r]; [reflexivity|].
  cbn [run litMatches]. rewrite !Hk1. unfold unsigned.
  rewrite (Ascii.eqb_sym c).
  destruct (Ascii.eqb "-" c) eqn:Hc.
  - apply Ascii.eqb_eq in Hc; subst c.
    destruct (afterPoint (snd (span isDigit r))) as [f|]; [|reflexivity].
    now destruct (digits1 f).
  - destruct (afterPoint (snd (span isDigit (String c r)))) as [f|];
      [|reflexivity].
    now destruct (digits1 f).
Qed.

(** ** The values of numeric tokens *)

Lemma span_allIn p s : allIn p s = true -> span p s = (s, EmptyString).
Proof.
  induction s as [|c r IH]; simpl; [reflexivity|].
  destruct (p c); simpl; [|discriminate].
  intros H. now rewrite (IH H).
Qed.

Lemma digit_not_space c : isDigit c = true -> isWhiteSpace c = false.
Proof. by_char c. Qed.

Lemma digit_not_sign c :
  isDigit c = true -> Ascii.eqb c "-" = false /\ Ascii.eqb c "+" = false.
Proof. by_char c. Qed.

Lemma digit_not_I c : isDigit c = true -> Ascii.eqb "I" c = false.
Proof. by_char c. Qed.

Lemma digits1_head s :
  digits1 s = true ->
  exists c r, s = String c r /\ isDigit c = true /\ allIn isDigit s = true.
Proof.
  unfold digits1. destruct s as [|c r]; [discriminate|]. simpl.
  destruct (isDigit c) eqn:Hc; [|discriminate]. simpl. intros H.
  exists c, r. now rewrite Hc.
Qed.

Lemma trimStart_cons c r :
  isWhiteSpace c = false -> trimStart (String c r) = String c r.
Proof. intros H. simpl. now rewrite H. Qed.

Lemma signOf_minus r : signOf (String "-" r) = ((-1)%Z, r).
Proof. reflexivity. Qed.

Lemma signOf_plain c r :
  Ascii.eqb c "-" = false -> Ascii.eqb c "+" = false ->
  signOf (String c r) = (1%Z, String c r).
Proof. intros H1 H2. unfold signOf. now rewrite H1, H2. Qed.

(** *** Rounding to binary64 *)

Lemma halfEven_exact x d : (0 < d)%Z -> halfEven (x * d) d = x.
Proof.
  intros Hd. unfold halfEven.
  rewrite Z.mod_mul by lia. rewrite Z.div_mul by lia.
  replace (2 * 0)%Z with 0%Z by lia.
  destruct (Z.compare_spec 0 d); lia.
Qed.

Lemma halfEven_one x : halfEven x 1 = x.
Proof. rewrite <- (Z.mul_1_r x) at 1. apply halfEven_exact. lia. Qed.

(** Rounding moves a quotient by half a unit at most. *)
Lemma halfEven_near num den :
  (0 < den)%Z -> (2 * Z.abs (num - halfEven num den * den) <= den)%Z.
Proof.
  intros Hd. unfold halfEven.
  pose proof (Z.div_mod num den ltac:(lia)) as E.
  pose proof (Z.mod_pos_bound num den Hd) as B.
  destruct (Z.compare_spec (2 * (num mod den)) den) as [H|H|H].
  - destruct (Z.even (num / den)); nia.
  - nia.
  - nia.
Qed.

(** [binade n d] is the exponent of the power of two at or just below
    [n / d]. *)
Lemma binade_spec n d :
  (0 < n)%Z -> (0 < d)%Z ->
  ((0 <= binade n d)%Z ->
   (d * 2 ^ binade n d <= n < d * 2 ^ (binade n d + 1))%Z) /\
  ((binade n d < 0)%Z -> (d <= n * 2 ^ (- binade n d) < 2 * d)%Z).
Proof.
  intros Hn Hd. unfold binade.
  pose proof (Z.log2_spec n Hn) as [N1 N2].
  pose proof (Z.log2_spec d Hd) as [D1 D2].
  pose proof (Z.log2_nonneg n) as Ln. pose proof (Z.log2_nonneg d) as Ld.
  set (ln := Z.log2 n) in *. set (ld := Z.log2 d) in *.
  rewrite Z.pow_succ_r in N2, D2 by lia.
  destruct (Z.leb_spec 0 (ln - ld)) as [Hl|Hl].
  - assert (E : (2 ^ ln = 2 ^ ld * 2 ^ (ln - ld))%Z).
    { rewrite <- Z.pow_add_r by lia. f_equal. lia. }
    assert (P : (0 < 2 ^ (ln - ld))%Z) by (apply Z.pow_pos_nonneg; lia).
    destruct (Z.leb_spec (d * 2 ^ (ln - ld)) n) as [H|H].
    + split; [|lia]. intros _. split; [exact H|].
      rewrite Z.pow_add_r by lia. change (2 ^ 1)%Z with 2%Z. nia.
    + split.
      * intros Hb.
        assert (E2 : (2 ^ (ln - ld) = 2 * 2 ^ (ln - ld - 1))%Z).
        { rewrite <- Z.pow_succ_r by lia. f_equal. lia. }
        assert (P2 : (0 < 2 ^ (ln - ld - 1))%Z)
          by (apply Z.pow_pos_nonneg; lia).
        replace (ln - ld - 1 + 1)%Z with (ln - ld)%Z by lia.
        split; [nia|lia].
      * intros Hb. assert (ln - ld = 0)%Z as E0 by lia.
        rewrite E0 in *. change (- (0 - 1))%Z with 1%Z.
        change (2 ^ 1)%Z with 2%Z. change (2 ^ 0)%Z with 1%Z in *. nia.
  - assert (E : (2 ^ ld = 2 ^ ln * 2 ^ (- (ln - ld)))%Z).
    { rewrite <- Z.pow_add_r by lia. f_equal. lia. }
    assert (P : (0 < 2 ^ (- (ln - ld)))%Z) by (apply Z.pow_pos_nonneg; lia).
    destruct (Z.leb_spec d (n * 2 ^ (- (ln - ld)))) as [H|H].
    + split; [lia|]. intros _. split; [exact H|]. nia.
    + split; [lia|]. intros _.
      replace (- (ln - ld - 1))%Z with (Z.succ (- (ln - ld))) by lia.
      rewrite Z.pow_succ_r by lia. split; [nia|lia].
Qed.

Lemma binade_integer a : (0 < a)%Z -> binade a 1 = Z.log2 a.
Proof.
  intros Ha. unfold binade. change (Z.log2 1) with 0%Z. rewrite Z.sub_0_r.
  pose proof (Z.log2_nonneg a) as Hl.
  destruct (Z.leb_spec 0 (Z.log2 a)); [|lia].
  pose proof (Z.log2_spec a Ha) as [H1 _].
  destruct (Z.leb_spec (1 * 2 ^ Z.log2 a) a); [reflexivity|lia].
Qed.

Lemma canonical_scaled n k :
  (0 <= k)%Z -> canonical (n * 2 ^ k) (- k) = Fin n 0.
Proof.
  intros Hk. unfold canonical.
  destruct (Z.leb_spec 0 (- k)).
  - assert (k = 0%Z) as -> by lia. simpl. f_equal. lia.
  - rewrite Z.opp_involutive.
    assert (Hp : (0 < 2 ^ k)%Z) by (apply Z.pow_pos_nonneg; lia).
    assert (Hg : Z.gcd (n * 2 ^ k) (2 ^ k) = (2 ^ k)%Z).
    { rewrite Z.gcd_comm, Z.mul_comm. apply Z.gcd_mul_diag_l. lia. }
    rewrite Hg. rewrite Z.div_mul by lia. rewrite Z.log2_pow2 by lia.
    f_equal. lia.
Qed.

Lemma sgn_mul_abs z : (Z.sgn z * Z.abs z)%Z = z.
Proof. now destruct z. Qed.

Lemma nearest_small z : (Z.abs z < 2 ^ 53)%Z -> nearest z 1 = Fin z 0.
Proof.
  intros Hz. unfold nearest.
  destruct (Z.eqb_spec z 0) as [->|Hn]; [reflexivity|].
  assert (Ha : (0 < Z.abs z)%Z) by lia.
  rewrite (binade_integer _ Ha).
  assert (Hl : (0 <= Z.log2 (Z.abs z) < 53)%Z).
  { split; [apply Z.log2_nonneg|]. apply Z.log2_lt_pow2; lia. }
  rewrite Z.max_l by lia.
  set (e := (Z.log2 (Z.abs z) - 52)%Z).
  destruct (Z.leb_spec 0 e) as [He|He].
  - assert (e = 0%Z) as -> by lia. cbn [andb].
    change (1 * 2 ^ 0)%Z with 1%Z. rewrite halfEven_one.
    destruct (Z.leb_spec (2 ^ 1024) (Z.abs z * 2 ^ 0)) as [H|H].
    + exfalso. change (2 ^ 0)%Z with 1%Z in H.
      assert (2 ^ 53 < 2 ^ 1024)%Z by (apply Z.pow_lt_mono_r; lia). lia.
    + unfold canonical. change (0 <=? 0)%Z with true. cbv iota.
      rewrite sgn_mul_abs. change (2 ^ 0)%Z with 1%Z. f_equal. lia.
  - cbn [andb]. rewrite halfEven_one.
    replace (Z.sgn z * (Z.abs z * 2 ^ (- e)))%Z with (z * 2 ^ (- e))%Z.
    2:{ rewrite Z.mul_assoc. now rewrite sgn_mul_abs. }
    replace e with (- (- e))%Z at 2 by lia.
    apply canonical_scaled. lia.
Qed.

(** An integer of magnitude [2^53] at most is a binary64 value: rounding
    leaves it as it is. *)
Lemma nearest_exact z : (Z.abs z <= 2 ^ 53)%Z -> nearest z 1 = Fin z 0.
Proof.
  intros Hz. destruct (Z.eq_dec (Z.abs z) (2 ^ 53)%Z) as [E|E].
  - destruct (Z.abs_spec z) as [[_ H]|[_ H]]; rewrite H in E.
    + subst z. vm_compute. reflexivity.
    + assert (z = (- 2 ^ 53)%Z) as -> by lia. vm_compute. reflexivity.
  - apply nearest_small. lia.
Qed.

(** *** Digits *)

Lemma digitVal_digitOf c : isDigit c = true -> digitVal c = digitOf c.
Proof. by_char c. Qed.

(** Reading digits from the left, as the program does, gives the number they
    spell by their places. *)
Lemma digitsVal_numeral s acc :
  allIn isDigit s = true ->
  digitsVal acc s = (acc * 10 ^ Z.of_nat (String.length s) + numeral s)%Z.
Proof.
  revert acc; induction s as [|c r IH]; intros acc; simpl allIn.
  - intros _. cbn [digitsVal numeral String.length]. simpl. lia.
  - destruct (isDigit c) eqn:Hc; [|discriminate]. cbn [andb]. intros H.
    cbn [digitsVal numeral String.length]. rewrite (IH _ H).
    rewrite (digitVal_digitOf _ Hc).
    rewrite Nat2Z.inj_succ, Z.pow_succ_r by lia. lia.
Qed.

Lemma digitsVal_0 s : allIn isDigit s = true -> digitsVal 0 s = numeral s.
Proof. intros H. rewrite (digitsVal_numeral _ _ H). lia. Qed.

Lemma parseInt10_integer t :
  isIntegerToken t = true -> parseInt10 t = nearest (integerOf t) 1.
Proof.
  unfold isIntegerToken, parseInt10, integerOf, signum.
  destruct t as [|c r]; [discriminate|]. cbn [unsigned hasMinus].
  destruct (Ascii.eqb c "-") eqn:Hc.
  - apply Ascii.eqb_eq in Hc; subst c. intros H.
    destruct (digits1_head _ H) as (d & r' & -> & Hd & Hall).
    rewrite trimStart_cons by reflexivity. rewrite signOf_minus.
    rewrite (span_allIn _ _ Hall). cbn [isEmpty].
    now rewrite (digitsVal_0 _ Hall).
  - intros H. destruct (digits1_head _ H) as (d & r' & E & Hd & Hall).
    injection E as <- <-.
    rewrite trimStart_cons by now apply digit_not_space.
    rewrite signOf_plain by (assumption || now apply digit_not_sign).
    rewrite (span_allIn _ _ Hall). cbn [isEmpty].
    now rewrite (digitsVal_0 _ Hall).
Qed.

Lemma afterPoint_Some s f : afterPoint s = Some f -> s = String "." f.
Proof.
  destruct s as [|c r]; [discriminate|]. simpl.
  destruct (Ascii.eqb c ".") eqn:Hc; [|discriminate].
  apply Ascii.eqb_eq in Hc. now intros [= ->]; subst.
Qed.

(** What [span] leaves starts with a character outside the class. *)
Lemma span_rest p s c r : snd (span p s) = String c r -> p c = false.
Proof.
  induction s as [|d s' IH]; simpl; [discriminate|].
  destruct (p d) eqn:Hd.
  - destruct (span p s') as [a b]; simpl in *. exact IH.
  - simpl. now intros [= <- _].
Qed.

Lemma span_fst_allIn p s : allIn p (fst (span p s)) = true.
Proof.
  induction s as [|d s' IH]; simpl; [reflexivity|].
  destruct (p d) eqn:Hd; [|reflexivity].
  destruct (span p s') as [a b]; simpl in *. now rewrite Hd.
Qed.

(** A text is its longest run in the class followed by the rest. *)
Lemma span_app p s : s = (fst (span p s) ++ snd (span p s))%string.
Proof.
  induction s as [|d s' IH]; simpl; [reflexivity|].
  destruct (p d); [|reflexivity].
  destruct (span p s') as [a b]; simpl in *. rewrite IH at 1. reflexivity.
Qed.

Lemma parseFloat_body sg u :
  isDecimalToken u = true -> hasMinus u = false ->
  unsignedDecimal sg u =
  Some (nearest (sg * (numeral (fst (span isDigit u)) *
                         10 ^ Z.of_nat (String.length (fractionOf u)) +
                       numeral (fractionOf u)))
                (10 ^ Z.of_nat (String.length (fractionOf u))),
        EmptyString).
Proof.
  unfold unsignedDecimal, isDecimalToken, fractionOf. intros H Hm.
  assert (Hu : unsigned u = u).
  { destruct u as [|c r]; [reflexivity|]. simpl in *. now rewrite Hm. }
  rewrite Hu in *.
  destruct (afterPoint (snd (span isDigit u))) as [f|] eqn:Hf; [|discriminate].
  apply afterPoint_Some in Hf.
  destruct (digits1_head _ H) as (d & f' & Ef & Hd & Hall).
  assert (HI : startsWith "Infinity" u = false).
  { pose proof (span_app isDigit u) as E. rewrite Hf in E.
    pose proof (span_fst_allIn isDigit u) as Ha.
    destruct (fst (span isDigit u)) as [|c0 r0]; rewrite E; [reflexivity|].
    simpl in Ha. destruct (isDigit c0) eqn:H0; [|discriminate].
    change (String c0 r0 ++ String "." f)%string
      with (String c0 (r0 ++ String "." f)%string).
    cbn [startsWith]. now rewrite (digit_not_I _ H0). }
  rewrite HI. pose proof (span_fst_allIn isDigit u) as Hip.
  destruct (span isDigit u) as [ip r1]. simpl in Hf, Hip |- *.
  subst r1. cbn [Ascii.eqb Bool.eqb]. cbv iota.
  rewrite (span_allIn _ _ Hall). subst f.
  cbn [isEmpty exponentPart]. rewrite !andb_false_r.
  rewrite (digitsVal_numeral _ _ Hall), (digitsVal_0 _ Hip).
  unfold decimalValue.
  set (k := String.length (String d f')).
  assert (Hk : (0 < Z.of_nat k)%Z) by (unfold k; cbn [String.length]; lia).
  destruct (Z.leb_spec 0 (- Z.of_nat k)) as [Hle|_]; [lia|].
  now rewrite Z.opp_involutive.
Qed.

Lemma parseFloat_decimal t :
  isDecimalToken t = true ->
  parseFloat t =
  nearest (mantissaOf t) (10 ^ Z.of_nat (String.length (fractionOf t))).
Proof.
  intros H. unfold parseFloat, decimalPrefix, mantissaOf, signum.
  assert (Hhead : exists c r, t = String c r /\ isWhiteSpace c = false /\
                              Ascii.eqb c "+" = false).
  { unfold isDecimalToken in H.
    destruct (afterPoint (snd (span isDigit (unsigned t)))) as [f|] eqn:Hf;
      [|discriminate].
    apply afterPoint_Some in Hf.
    destruct t as [|c r]; [discriminate|]. exists c, r. split; [reflexivity|].
    cbn [unsigned] in Hf. destruct (Ascii.eqb c "-") eqn:Hc.
    - apply Ascii.eqb_eq in Hc. subst c. now split.
    - cbn [span] in Hf. destruct (isDigit c) eqn:Hd.
      + split; [now apply digit_not_space | now apply digit_not_sign].
      + simpl in Hf. injection Hf as -> _. now split. }
  destruct Hhead as (c & r & -> & Hws & Hplus).
  rewrite trimStart_cons by assumption. cbn [hasMinus].
  destruct (Ascii.eqb c "-") eqn:Hc.
  - assert (c = "-"%char) as -> by now apply Ascii.eqb_eq.
    rewrite signOf_minus.
    assert (Hr : isDecimalToken r = true /\ hasMinus r = false).
    { unfold isDecimalToken in *. cbn [unsigned] in H. rewrite Hc in H.
      destruct (afterPoint (snd (span isDigit r))) as [f|] eqn:Hf;
        [|discriminate].
      apply afterPoint_Some in Hf.
      assert (hasMinus r = false) as Hm.
      { destruct r as [|d r']; [reflexivity|]. cbn [hasMinus span] in *.
        destruct (isDigit d) eqn:Hd; [now apply digit_not_sign|].
        simpl in Hf. now injection Hf as -> _. }
      split; [|exact Hm].
      assert (unsigned r = r) as ->.
      { destruct r as [|d r']; [reflexivity|]. simpl in *. now rewrite Hm. }
      rewrite Hf. cbn [afterPoint Ascii.eqb Bool.eqb]. exact H. }
    destruct Hr as [Hr Hm]. rewrite (parseFloat_body (-1) r Hr Hm).
    unfold fractionOf. cbn [unsigned]. rewrite Hc.
    assert (unsigned r = r) as ->; [|reflexivity].
    destruct r as [|d r']; [reflexivity|]. simpl in *. now rewrite Hm.
  - assert (Hm : hasMinus (String c r) = false) by exact Hc.
    rewrite signOf_plain by assumption.
    rewrite (parseFloat_body 1 (String c r) H Hm).
    unfold unsigned. now rewrite Hc.
Qed.

(** *** The word null *)

Lemma lower_is_n c : Ascii.eqb (toLowerChar c) "n" = isLetter "n" "N" c.
Proof. by_char c. Qed.

Lemma lower_is_u c : Ascii.eqb (toLowerChar c) "u" = isLetter "u" "U" c.
Proof. by_char c. Qed.

Lemma lower_is_l c : Ascii.eqb (toLowerChar c) "l" = isLetter "l" "L" c.
Proof. by_char c. Qed.

(** The test of the program, lower-casing the token and comparing it with
    the word, accepts the sixteen spellings of null and nothing else. *)
Lemma null_test t : String.eqb (toLowerCase t) "null" = isNullWord t.
Proof.
  destruct t as [|a [|b [|c [|d [|e r]]]]]; try reflexivity;
    cbn [toLowerCase isNullWord String.eqb];
    rewrite ?lower_is_n, ?lower_is_u, ?lower_is_l;
    repeat match goal with
           | |- context [isLetter ?x ?y ?z] => destruct (isLetter x y z)
           end; reflexivity.
Qed.

(** The reading with binary64 numbers is the reading with exact Integers on
    every token but an integer token beyond [2^53]. *)
Lemma inferNumber_exact t :
  (isIntegerToken t = true -> (Z.abs (integerOf t) <= 2 ^ 53)%Z) ->
  inferNumber t = inferScalar t.
Proof.
  intros H. unfold inferNumber, inferScalar.
  destruct (isNullWord t); [reflexivity|].
  destruct (String.eqb t "true"); [reflexivity|].
  destruct (String.eqb t "false"); [reflexivity|].
  destruct (isIntegerToken t); [|reflexivity].
  unfold Rounded, Integer. now rewrite nearest_exact by now apply H.
Qed.

Lemma parseValue_inferNumber text : parseValue text = inferNumber (trim text).
Proof.
  unfold parseValue, inferNumber. rewrite null_test.
  destruct (isNullWord (trim text)); [reflexivity|].
  destruct (String.eqb (trim text) "true"); [reflexivity|].
  destruct (String.eqb (trim text) "false"); [reflexivity|].
  rewrite integerRe_spec, decimalRe_spec.
  destruct (isIntegerToken (trim text)) eqn:Hi.
  - unfold Rounded. now rewrite parseInt10_integer.
  - destruct (isDecimalToken (trim text)) eqn:Hd; [|reflexivity].
    unfold Float, Rounded. now rewrite parseFloat_decimal.
Qed.

(** C5. On every literal token the Scalar Parser follows the inference order
    of the data model, with numbers read as binary64 values: a token that is
    null in any letter case reads as Null, the exact tokens true and false as
    Bool, a token of the integer pattern as the number nearest to the integer
    it spells, a token of the decimal pattern as the number nearest to the
    decimal it spells, and any other token as itself, a Text; the checks are
    tried in that order, on the trimmed token.  Unless the token is an
    integer token of magnitude beyond [2^53], this is the reading with the
    Integer it spells. *)
Theorem parseValue_inference_order (text : string) :
  parseValue text = inferNumber (trim text) /\
  ((isIntegerToken (trim text) = true ->
    (Z.abs (integerOf (trim text)) <= 2 ^ 53)%Z) ->
   parseValue text = inferScalar (trim text)).
Proof.
  split; [apply parseValue_inferNumber|].
  intros H. rewrite parseValue_inferNumber. now apply inferNumber_exact.
Qed.

(** Counterexample to C5 read with the Integer the token spells: the token
    9007199254740993 is of the integer pattern and spells an integer that is
    no binary64 value; the parser returns its neighbour 9007199254740992.  A
    token of 310 digits is read as Infinity. *)
Lemma parseValue_integer_token_rounded :
  isIntegerToken "9007199254740993" = true /\
  inferScalar (trim "9007199254740993") = Integer 9007199254740993 /\
  parseValue "9007199254740993" = Integer 9007199254740992 /\
  parseValue "9007199254740993" <> inferScalar (trim "9007199254740993") /\
  parseValue "1000000000000000000000000000000000000000000000000000000000000000000000000000000000000000000000000000000000000000000000000000000000000000000000000000000000000000000000000000000000000000000000000000000000000000000000000000000000000000000000000000000000000000000000000000000000000000000000000000000000000000000000" = Num PosInf.
Proof.
  repeat split; try (vm_compute; reflexivity).
  vm_compute. discriminate.
Qed.

(** ** The catalog under the handlers *)

Local Open Scope list_scope.

Lemma pushRows_aligned n sets rows :
  Forall (fun row => length row = n) rows ->
  Forall (fun row => length row = n) (fst (pushRows n sets rows)).
Proof.
  revert rows; induction sets as [|v rest IH]; intros rows Hrows; simpl.
  - exact Hrows.
  - destruct (Nat.eqb (length v) n) eqn:Hv; simpl; [|exact Hrows].
    apply IH. apply Forall_app. split; [exact Hrows|].
    constructor; [|constructor]. now apply Nat.eqb_eq.
Qed.

(** The only error of the loop over the value sets is the arity error. *)
Lemma pushRows_throws n sets rows rows' e :
  pushRows n sets rows = (rows', Some e) ->
  exists got, e = ColumnCountMismatch n got.
Proof.
  revert rows; induction sets as [|v rest IH]; intros rows; simpl.
  - discriminate.
  - destruct (Nat.eqb (length v) n); simpl; [apply IH|].
    intros [= _ <-]. now eexists.
Qed.

(** The loop stops at the first set of the wrong length and keeps the sets
    before it. *)
Lemma pushRows_first_mismatch n pre tk post rows :
  Forall (fun t => length t = n) pre ->
  length tk <> n ->
  pushRows n (pre ++ tk :: post) rows =
  (rows ++ pre, Some (ColumnCountMismatch n (length tk))).
Proof.
  intros Hpre Htk. revert rows.
  induction Hpre as [|t pre Ht Hpre IH]; intros rows; simpl.
  - apply Nat.eqb_neq in Htk. rewrite Htk. simpl. now rewrite app_nil_r.
  - apply Nat.eqb_eq in Ht. rewrite Ht. simpl. rewrite IH.
    now rewrite <- app_assoc.
Qed.

Lemma pushRows_all n sets rows :
  Forall (fun t => length t = n) sets ->
  pushRows n sets rows = (rows ++ sets, None).
Proof.
  intros Hsets. revert rows.
  induction Hsets as [|t sets Ht Hsets IH]; intros rows; simpl.
  - now rewrite app_nil_r.
  - apply Nat.eqb_eq in Ht. rewrite Ht. simpl. rewrite IH.
    now rewrite <- app_assoc.
Qed.

Lemma createTable_wellFormed q (tables : catalog) :
  wellFormed tables -> wellFormed (fst (createTable q tables)).
Proof.
  intros Hwf. unfold createTable.
  destruct (search true createTableRe q) as [m|]; simpl; [|exact Hwf].
  apply map_Forall_insert_2; [|exact Hwf]. constructor.
Qed.

Lemma insertInto_wellFormed q (tables : catalog) :
  wellFormed tables -> wellFormed (fst (insertInto q tables)).
Proof.
  intros Hwf. unfold insertInto.
  destruct (search true insertIntoRe q) as [m|]; simpl; [|exact Hwf].
  destruct (tables !! toLowerCase (groupStr 1 m)) as [t|] eqn:Ht; simpl;
    [|exact Hwf].
  pose proof (pushRows_aligned (length (columns t))
                (parseValuesSets (groupStr 2 m)) (rows t) (Hwf _ _ Ht)) as Hp.
  destruct (pushRows (length (columns t)) (parseValuesSets (groupStr 2 m))
              (rows t)) as [rows' thrown]; simpl in *.
  apply map_Forall_insert_2; [exact Hp | exact Hwf].
Qed.

Lemma select_catalog q (tables : catalog) : fst (select q tables) = tables.
Proof.
  unfold select. destruct (search true selectRe q) as [m|]; [|reflexivity].
  now destruct (tables !! toLowerCase (groupStr 2 m)).
Qed.

Lemma dropTable_wellFormed q (tables : catalog) :
  wellFormed tables -> wellFormed (fst (dropTable q tables)).
Proof.
  intros Hwf. unfold dropTable.
  destruct (search true dropTableRe q) as [m|]; simpl; [|exact Hwf].
  destruct (tables !! toLowerCase (groupStr 1 m)); simpl; [|exact Hwf].
  now apply map_Forall_delete.
Qed.

(** The four branches of the dispatcher, and the two that only throw. *)
Ltac dispatch q :=
  unfold exec;
  destruct (startsWith "create table" (toLowerCase (trim q)));
  [|destruct (startsWith "insert into" (toLowerCase (trim q)));
    [|destruct (startsWith "select" (toLowerCase (trim q)));
      [|destruct (startsWith "drop table" (toLowerCase (trim q)));
        [|destruct (startsWith "read_csv_auto(" (toLowerCase (trim q))
                    || startsWith "read_parquet(" (toLowerCase (trim q)))]]]].

Lemma exec_wellFormed q (tables : catalog) :
  wellFormed tables -> wellFormed (fst (exec q tables)).
Proof.
  intros Hwf. dispatch q.
  - now apply createTable_wellFormed.
  - now apply insertInto_wellFormed.
  - now rewrite select_catalog.
  - now apply dropTable_wellFormed.
  - exact Hwf.
  - exact Hwf.
Qed.

Lemma reachable_wellFormed (tables : catalog) :
  reachable tables -> wellFormed tables.
Proof.
  induction 1 as [|q tables _ IH].
  - apply map_Forall_empty.
  - now apply exec_wellFormed.
Qed.

(** The keywords of the dispatcher start with different letters. *)
Lemma startsWith_head a p s :
  startsWith (String a p) s = true -> exists r, s = String a r.
Proof.
  destruct s as [|b r]; simpl; [discriminate|].
  destruct (Ascii.eqb a b) eqn:E; [|discriminate].
  apply Ascii.eqb_eq in E. subst b. now exists r.
Qed.

Lemma insert_not_create s :
  startsWith "insert into" s = true -> startsWith "create table" s = false.
Proof. intros H. now destruct (startsWith_head _ _ _ H) as [r ->]. Qed.

Lemma select_not_create s :
  startsWith "select" s = true -> startsWith "create table" s = false.
Proof. intros H. now destruct (startsWith_head _ _ _ H) as [r ->]. Qed.

Lemma select_not_insert s :
  startsWith "select" s = true -> startsWith "insert into" s = false.
Proof. intros H. now destruct (startsWith_head _ _ _ H) as [r ->]. Qed.

Lemma exec_select q (tables : catalog) :
  startsWith "select" (toLowerCase (trim q)) = true ->
  exec q tables = select q tables.
Proof.
  intros H. unfold exec.
  now rewrite (select_not_create _ H), (select_not_insert _ H), H.
Qed.

(** C8. In every catalog the engine can reach, each stored row is as long as
    the column list of its table, and a further call of [exec], whether it
    returns or throws, leaves a catalog with the same property. *)
Theorem rows_aligned_invariant (tables : catalog) :
  reachable tables ->
  (forall tableName t row,
      tables !! tableName = Some t -> In row (rows t) ->
      length row = length (columns t)) /\
  (forall q, wellFormed (fst (exec q tables))).
Proof.
  intros Hr. pose proof (reachable_wellFormed tables Hr) as Hwf. split.
  - intros n t row Ht Hrow. specialize (Hwf n t Ht).
    unfold rowsAligned in Hwf. rewrite Forall_forall in Hwf.
    now apply Hwf, list_elem_of_In.
  - intros q. now apply exec_wellFormed.
Qed.

(** C9. When [exec] throws anything but the arity error of INSERT (a syntax
    error, an unknown table, an unknown column, an unsupported feature), the
    catalog it leaves is the catalog it was given. *)
Theorem error_leaves_catalog q (tables tables' : catalog) e :
  exec q tables = (tables', Throws e) ->
  (forall expected got, e <> ColumnCountMismatch expected got) ->
  tables' = tables.
Proof.
  intros Hexec Hne. revert Hexec. dispatch q.
  - unfold createTable.
    destruct (search true createTableRe q); [discriminate|].
    now intros [= <- _].
  - unfold insertInto.
    destruct (search true insertIntoRe q) as [m|]; [|now intros [= <- _]].
    destruct (tables !! toLowerCase (groupStr 1 m)) as [t|];
      [|now intros [= <- _]].
    destruct (pushRows (length (columns t)) (parseValuesSets (groupStr 2 m))
                (rows t)) as [rows' [e'|]] eqn:Hp; [|discriminate].
    intros [= _ <-]. destruct (pushRows_throws _ _ _ _ _ Hp) as [got ->].
    now destruct (Hne (length (columns t)) got).
  - intros H. pose proof (select_catalog q tables) as Hs.
    rewrite H in Hs. exact Hs.
  - unfold dropTable.
    destruct (search true dropTableRe q) as [m|]; [|now intros [= <- _]].
    destruct (tables !! toLowerCase (groupStr 1 m)); [discriminate|].
    now intros [= <- _].
  - now intros [= <- _].
  - now intros [= <- _].
Qed.

(** C6. A CREATE TABLE statement of the right shape always succeeds: whatever
    the catalog held, and whether or not it held a table of that name in any
    letter case, it now maps the lower-cased name to a table with the parsed
    columns and no rows, and every other table is as before. *)
Theorem createTable_overwrites q m (tables : catalog) :
  startsWith "create table" (toLowerCase (trim q)) = true ->
  search true createTableRe q = Some m ->
  let tableName := toLowerCase (groupStr 1 m) in
  let fresh := {| columns := map parseColumn (split "," (groupStr 2 m));
                  rows := [] |} in
  exec q tables = (<[tableName := fresh]> tables, Returns []) /\
  fst (exec q tables) !! tableName = Some fresh /\
  (forall other, other <> tableName ->
                 fst (exec q tables) !! other = tables !! other).
Proof.
  intros Hpre Hm tableName fresh.
  assert (He : exec q tables = (<[tableName := fresh]> tables, Returns [])).
  { unfold exec. rewrite Hpre. unfold createTable. now rewrite Hm. }
  rewrite He. simpl. split; [reflexivity|]. split.
  - apply lookup_insert_eq.
  - intros other Hne. now apply lookup_insert_ne.
Qed.

(** X28. The loop of INSERT over the value sets scanned from the text its
    pattern captures: when [tk] is the first of these sets whose length
    differs from the number of columns, [exec] throws the arity error for it
    and leaves the table with its former rows followed by the sets before
    [tk], in order; [tk] and the sets after it are not stored. *)
Theorem insert_partial_commit q m (tables : catalog) t pre tk post :
  startsWith "insert into" (toLowerCase (trim q)) = true ->
  search true insertIntoRe q = Some m ->
  tables !! toLowerCase (groupStr 1 m) = Some t ->
  parseValuesSets (groupStr 2 m) = pre ++ tk :: post ->
  Forall (fun v => length v = length (columns t)) pre ->
  length tk <> length (columns t) ->
  exec q tables =
  (<[toLowerCase (groupStr 1 m) :=
       {| columns := columns t; rows := rows t ++ pre |}]> tables,
   Throws (ColumnCountMismatch (length (columns t)) (length tk))).
Proof.
  intros Hi Hm Ht Hsets Hpre Htk.
  unfold exec. rewrite (insert_not_create _ Hi), Hi. unfold insertInto. rewrite Hm, Ht, Hsets.
  now rewrite (pushRows_first_mismatch _ pre tk post (rows t) Hpre Htk).
Qed.

(** ** The WHERE clause *)

Lemma filter_all {A : Type} (f : A -> bool) (l : list A) :
  (forall x, f x = true) -> List.filter f l = l.
Proof.
  intros Hf. induction l as [|x l IH]; simpl; [reflexivity|].
  now rewrite Hf, IH.
Qed.

(** When the pattern of the condition finds nothing, or the name it finds is
    not a column, the evaluator answers true whatever the row. *)
Lemma evaluateWhere_fallback row cols w :
  search true whereRe w = None \/
  (exists m', search true whereRe w = Some m' /\
              columnIndex cols (groupStr 1 m') = None) ->
  evaluateWhere row cols w = true.
Proof.
  unfold evaluateWhere. intros [-> | (m' & -> & ->)]; reflexivity.
Qed.

(** C7. For a SELECT whose WHERE condition is not of the shape identifier,
    operator, value, or names a column the table does not declare, the
    Predicate Evaluator answers true on every row and throws nothing: the
    filter keeps all the rows of the table, so the statement gives what it
    would give without the clause, and all the rows when it selects [*]. *)
Theorem where_fallback_keeps_all_rows q m w (tables : catalog) t :
  startsWith "select" (toLowerCase (trim q)) = true ->
  search true selectRe q = Some m ->
  group 3 m = Some w ->
  tables !! toLowerCase (groupStr 2 m) = Some t ->
  search true whereRe w = None \/
  (exists m', search true whereRe w = Some m' /\
              columnIndex (columns t) (groupStr 1 m') = None) ->
  (forall row, evaluateWhere row (columns t) w = true) /\
  applyWhere t (Some w) = rows t /\
  exec q tables = (tables, selectColumns t (trim (groupStr 1 m)) (rows t)) /\
  (trim (groupStr 1 m) = "*"%string ->
   exec q tables =
   (tables, Returns [{| resultColumns := map name (columns t);
                        values := rows t |}])).
Proof.
  intros Hsel Hm Hw Ht Hbad.
  assert (Hall : forall row, evaluateWhere row (columns t) w = true).
  { intros row. now apply evaluateWhere_fallback. }
  assert (Hrows : applyWhere t (Some w) = rows t).
  { unfold applyWhere. destruct (isEmpty w); [reflexivity|].
    now apply filter_all. }
  assert (He : exec q tables =
               (tables, selectColumns t (trim (groupStr 1 m)) (rows t))).
  { rewrite (exec_select _ _ Hsel). unfold select.
    now rewrite Hm, Ht, Hw, Hrows. }
  repeat split; try assumption.
  intros Hstar. rewrite He. unfold selectColumns. now rewrite Hstar.
Qed.

(** ** Trimming *)

Local Open Scope string_scope.

Lemma trimStart_noLeadingSpace s : noLeadingSpace (trimStart s) = true.
Proof.
  induction s as [|c r IH]; simpl; [reflexivity|].
  destruct (isWhiteSpace c) eqn:Hc; [exact IH|]. simpl. now rewrite Hc.
Qed.

Lemma trimEnd_idempotent s : trimEnd (trimEnd s) = trimEnd s.
Proof.
  induction s as [|c r IH]; simpl; [reflexivity|].
  destruct (isWhiteSpace c && isEmpty (trimEnd r)) eqn:E; [reflexivity|].
  simpl. now rewrite IH, E.
Qed.

Lemma trimStart_trimEnd s :
  noLeadingSpace s = true -> trimStart (trimEnd s) = trimEnd s.
Proof.
  destruct s as [|c r]; simpl; [reflexivity|].
  destruct (isWhiteSpace c) eqn:Hc; [discriminate|]. intros _. simpl.
  now rewrite Hc.
Qed.

Lemma trim_idempotent s : trim (trim s) = trim s.
Proof.
  unfold trim.
  rewrite (trimStart_trimEnd _ (trimStart_noLeadingSpace s)).
  apply trimEnd_idempotent.
Qed.

Lemma isEmpty_app_cons s c r : isEmpty (s ++ String c r) = false.
Proof. now destruct s. Qed.

Lemma trimEnd_app_last s c :
  isWhiteSpace c = false ->
  trimEnd (s ++ String c EmptyString) = s ++ String c EmptyString.
Proof.
  intros Hc. induction s as [|d r IH].
  - simpl. now rewrite Hc.
  - change (String d r ++ String c EmptyString)
      with (String d (r ++ String c EmptyString)).
    cbn [trimEnd]. rewrite IH, isEmpty_app_cons. now rewrite andb_false_r.
Qed.

Lemma trim_quoted body : trim (quoted body) = quoted body.
Proof.
  unfold trim, quoted. rewrite trimStart_cons by reflexivity.
  change (String "'" (body ++ "'")) with (String "'" body ++ "'").
  now apply trimEnd_app_last.
Qed.

(** A character that is not white space occurs in the trimmed text as it
    does in the text. *)
Lemma hasChar_trimStart c s :
  isWhiteSpace c = false -> hasChar c (trimStart s) = hasChar c s.
Proof.
  intros Hc. induction s as [|d r IH]; simpl; [reflexivity|].
  destruct (isWhiteSpace d) eqn:Hd; [|reflexivity].
  rewrite IH. destruct (Ascii.eqb c d) eqn:E; [|reflexivity].
  apply Ascii.eqb_eq in E. congruence.
Qed.

Lemma hasChar_trimEnd c s :
  isWhiteSpace c = false -> hasChar c (trimEnd s) = hasChar c s.
Proof.
  intros Hc. induction s as [|d r IH]; simpl; [reflexivity|].
  destruct (isWhiteSpace d && isEmpty (trimEnd r)) eqn:E; simpl.
  - apply andb_true_iff in E as [Hd He]. apply isEmpty_true in He.
    rewrite He in IH. simpl in IH. rewrite <- IH.
    destruct (Ascii.eqb c d) eqn:Ecd; [|reflexivity].
    apply Ascii.eqb_eq in Ecd. congruence.
  - now rewrite IH.
Qed.

Lemma hasChar_trim c s :
  isWhiteSpace c = false -> hasChar c (trim s) = hasChar c s.
Proof.
  intros Hc. unfold trim. now rewrite hasChar_trimEnd, hasChar_trimStart.
Qed.

Lemma startsWith_trimEnd p s :
  allIn (fun c => negb (isWhiteSpace c)) p = true ->
  startsWith p (trimEnd s) = startsWith p s.
Proof.
  revert s; induction p as [|a p IH]; intros s Hp; [now destruct (trimEnd s), s|].
  simpl in Hp. apply andb_true_iff in Hp as [Ha Hp].
  destruct s as [|b r]; [reflexivity|]. cbn [trimEnd].
  destruct (isWhiteSpace b && isEmpty (trimEnd r)) eqn:E.
  - apply andb_true_iff in E as [Hb _]. cbn [startsWith].
    destruct (Ascii.eqb a b) eqn:Eab; [|reflexivity].
    apply Ascii.eqb_eq in Eab. subst b. now rewrite Hb in Ha.
  - cbn [startsWith]. now rewrite IH.
Qed.

Lemma occurs_nil_r p : occurs p EmptyString = isEmpty p.
Proof. destruct p; reflexivity. Qed.

Lemma occurs_trimStart p s :
  noLeadingSpace p = true -> isEmpty p = false ->
  occurs p (trimStart s) = occurs p s.
Proof.
  intros Hp Hne. destruct p as [|a p]; [discriminate|]. simpl in Hp.
  induction s as [|d r IH]; [reflexivity|]. cbn [trimStart].
  destruct (isWhiteSpace d) eqn:Hd; [|reflexivity].
  rewrite IH. cbn [occurs startsWith].
  destruct (Ascii.eqb a d) eqn:E; [|reflexivity].
  apply Ascii.eqb_eq in E. subst d. now rewrite Hd in Hp.
Qed.

Lemma occurs_trimEnd p s :
  allIn (fun c => negb (isWhiteSpace c)) p = true -> isEmpty p = false ->
  occurs p (trimEnd s) = occurs p s.
Proof.
  intros Hp Hne. induction s as [|d r IH]; [reflexivity|].
  pose proof (startsWith_trimEnd p (String d r) Hp) as Hs.
  cbn [trimEnd] in *.
  destruct (isWhiteSpace d && isEmpty (trimEnd r)) eqn:E.
  - apply andb_true_iff in E as [_ He]. apply isEmpty_true in He.
    rewrite He in IH. cbn [occurs]. rewrite <- Hs, <- IH.
    rewrite occurs_nil_r, Hne. now destruct p.
  - cbn [occurs]. now rewrite Hs, IH.
Qed.

Lemma occurs_trim p s :
  allIn (fun c => negb (isWhiteSpace c)) p = true -> isEmpty p = false ->
  occurs p (trim s) = occurs p s.
Proof.
  intros Hp Hne. unfold trim. rewrite occurs_trimEnd by assumption.
  apply occurs_trimStart; [|assumption].
  destruct p as [|a p]; [reflexivity|]. simpl in *.
  now apply andb_true_iff in Hp as [-> _].
Qed.

(** ** Tokens that hold an apostrophe *)

Lemma hasChar_app c a b : hasChar c (a ++ b) = hasChar c a || hasChar c b.
Proof.
  induction a as [|d a IH]; [reflexivity|].
  change (String d a ++ b) with (String d (a ++ b)). cbn [hasChar].
  now rewrite IH, orb_assoc.
Qed.

Lemma allIn_hasChar p c s :
  allIn p s = true -> p c = false -> hasChar c s = false.
Proof.
  intros Hs Hc. induction s as [|d r IH]; [reflexivity|]. simpl in *.
  apply andb_true_iff in Hs as [Hd Hr]. rewrite (IH Hr).
  destruct (Ascii.eqb c d) eqn:E; [|reflexivity].
  apply Ascii.eqb_eq in E. congruence.
Qed.

Lemma occurs_hasChar a b s :
  occurs (String a (String b EmptyString)) s = true -> hasChar b s = true.
Proof.
  induction s as [|d r IH]; [discriminate|]. cbn [occurs startsWith hasChar].
  intros H. apply orb_true_iff in H as [H|H].
  - apply andb_true_iff in H as [_ H]. destruct r as [|e r']; [discriminate|].
    simpl in H. apply andb_true_iff in H as [H _]. cbn [hasChar].
    rewrite H. now rewrite orb_true_r.
  - rewrite (IH H). now rewrite orb_true_r.
Qed.

Lemma hasChar_toLowerCase s :
  hasChar "'" s = true -> hasChar "'" (toLowerCase s) = true.
Proof.
  induction s as [|d r IH]; [discriminate|]. cbn [toLowerCase hasChar].
  intros H. apply orb_true_iff in H as [H|H].
  - apply Ascii.eqb_eq in H. now subst d.
  - rewrite (IH H). now rewrite orb_true_r.
Qed.

Lemma unsigned_hasChar s :
  hasChar "'" (unsigned s) = hasChar "'" s.
Proof.
  destruct s as [|c r]; [reflexivity|]. cbn [unsigned].
  destruct (Ascii.eqb c "-") eqn:E; [|reflexivity].
  apply Ascii.eqb_eq in E. now subst c.
Qed.

Lemma integerToken_no_quote s :
  isIntegerToken s = true -> hasChar "'" s = false.
Proof.
  unfold isIntegerToken, digits1. intros H.
  apply andb_true_iff in H as [_ H]. rewrite <- unsigned_hasChar.
  now apply (allIn_hasChar isDigit).
Qed.

Lemma decimalToken_no_quote s :
  isDecimalToken s = true -> hasChar "'" s = false.
Proof.
  unfold isDecimalToken. intros H. rewrite <- unsigned_hasChar.
  destruct (afterPoint (snd (span isDigit (unsigned s)))) as [f|] eqn:Hf;
    [|discriminate].
  apply afterPoint_Some in Hf.
  rewrite (span_app isDigit (unsigned s)), Hf, hasChar_app.
  rewrite (allIn_hasChar isDigit) by (apply span_fst_allIn || reflexivity).
  cbn [hasChar orb Ascii.eqb Bool.eqb].
  unfold digits1 in H. apply andb_true_iff in H as [_ H].
  now apply (allIn_hasChar isDigit).
Qed.

(** A token that holds an apostrophe is read as itself, a Text: it is none
    of the three keywords and fits neither numeric pattern. *)
Lemma parseValue_text s :
  hasChar "'" (trim s) = true -> parseValue s = Str (trim s).
Proof.
  intros H. unfold parseValue.
  destruct (String.eqb (toLowerCase (trim s)) "null") eqn:E1.
  { apply String.eqb_eq in E1. apply hasChar_toLowerCase in H.
    rewrite E1 in H. discriminate. }
  destruct (String.eqb (trim s) "true") eqn:E2.
  { apply String.eqb_eq in E2. rewrite E2 in H. discriminate. }
  destruct (String.eqb (trim s) "false") eqn:E3.
  { apply String.eqb_eq in E3. rewrite E3 in H. discriminate. }
  rewrite integerRe_spec, decimalRe_spec.
  destruct (isIntegerToken (trim s)) eqn:E4.
  { apply integerToken_no_quote in E4. congruence. }
  destruct (isDecimalToken (trim s)) eqn:E5.
  { apply decimalToken_no_quote in E5. congruence. }
  reflexivity.
Qed.

(** ** The scanner inside a quoted literal *)

Lemma snoc_app cur c r : snoc cur c ++ r = cur ++ String c r.
Proof.
  induction cur as [|d cur IH]; [reflexivity|].
  change (snoc (String d cur) c ++ r) with (String d (snoc cur c ++ r)).
  now rewrite IH.
Qed.

Lemma app_empty_r (s : string) : s ++ EmptyString = s.
Proof.
  induction s as [|c s IH]; [reflexivity|].
  change (String c s ++ EmptyString) with (String c (s ++ EmptyString)).
  now rewrite IH.
Qed.

Lemma snoc_last cur c : snoc cur c = cur ++ String c EmptyString.
Proof. now rewrite <- (app_empty_r (snoc cur c)), snoc_app. Qed.

Lemma app_assoc_str (a b c : string) : (a ++ b) ++ c = a ++ (b ++ c).
Proof.
  induction a as [|d a IH]; [reflexivity|].
  change (String d (a ++ b) ++ c = String d (a ++ (b ++ c))).
  change (String d ((a ++ b) ++ c) = String d (a ++ (b ++ c))).
  now rewrite IH.
Qed.

(** Inside quotes, a run of characters none of which is a quote for the
    scanner is appended to the current token as it is. *)
Lemma parseValuesLoop_inside body rest prev vals cur :
  quotesEscaped prev body = true ->
  parseValuesLoop (body ++ rest) prev vals cur true =
  parseValuesLoop rest (lastChar prev body) vals (cur ++ body) true.
Proof.
  revert prev cur; induction body as [|c r IH]; intros prev cur H.
  - simpl. now rewrite app_empty_r.
  - cbn [quotesEscaped] in H. apply andb_true_iff in H as [Hq Hr].
    apply negb_true_iff in Hq.
    change (String c r ++ rest) with (String c (r ++ rest)).
    cbn [parseValuesLoop lastChar]. rewrite Hq. cbn [negb andb].
    rewrite (IH _ _ Hr). now rewrite snoc_app.
Qed.

Lemma parseValuesSetsLoop_inside body rest prev sets cur n :
  quotesEscaped prev body = true ->
  parseValuesSetsLoop (body ++ rest) prev sets cur true n =
  parseValuesSetsLoop rest (lastChar prev body) sets (cur ++ body) true n.
Proof.
  revert prev cur; induction body as [|c r IH]; intros prev cur H.
  - simpl. now rewrite app_empty_r.
  - cbn [quotesEscaped] in H. apply andb_true_iff in H as [Hq Hr].
    apply negb_true_iff in Hq.
    change (String c r ++ rest) with (String c (r ++ rest)).
    cbn [parseValuesSetsLoop lastChar]. rewrite Hq. cbn [negb andb].
    rewrite (IH _ _ Hr). now rewrite snoc_app.
Qed.

(** An apostrophe is a quote for the scanner unless a backslash comes
    right before it. *)
Lemma isQuote_unescaped prev :
  prev <> Some "\"%char -> isQuote prev "'" = true.
Proof.
  intros Hne. unfold isQuote. destruct prev as [c|]; [|reflexivity]. simpl.
  destruct (Ascii.eqb c "\") eqn:E; [|reflexivity].
  apply Ascii.eqb_eq in E. now subst c.
Qed.

(** The scanner of a tuple, outside quotes, meeting a quoted literal whose
    apostrophes are escaped: it drops the two delimiters and appends the
    body, as written, to the current token. *)
Lemma parseValuesLoop_quoted body rest prev vals cur :
  prev <> Some "\"%char ->
  quotesEscaped (Some "'"%char) body = true ->
  lastChar (Some "'"%char) body <> Some "\"%char ->
  parseValuesLoop (quoted body ++ rest) prev vals cur false =
  parseValuesLoop rest (Some "'"%char) vals (cur ++ body) false.
Proof.
  intros Hprev Hesc Hlast. unfold quoted.
  change (String "'" (body ++ "'") ++ rest)
    with (String "'" ((body ++ "'") ++ rest)).
  rewrite app_assoc_str. cbn [parseValuesLoop].
  rewrite (isQuote_unescaped _ Hprev). cbn [negb].
  rewrite (parseValuesLoop_inside body _ _ _ _ Hesc).
  change ("'" ++ rest) with (String "'" rest). cbn [parseValuesLoop].
  now rewrite (isQuote_unescaped _ Hlast).
Qed.

Lemma dropLastParen_quote s :
  dropLastParen (s ++ "'") = s ++ "'".
Proof.
  induction s as [|c r IH]; [reflexivity|].
  change (String c r ++ "'") with (String c (r ++ "'")).
  cbn [dropLastParen]. rewrite IH, isEmpty_app_cons.
  now rewrite andb_false_r.
Qed.

Lemma stripParens_quoted body : stripParens (quoted body) = quoted body.
Proof.
  unfold quoted, stripParens. cbn [Ascii.eqb Bool.eqb].
  change (String "'" (body ++ "'")) with (String "'" body ++ "'").
  apply dropLastParen_quote.
Qed.

(** C10. In a quoted literal whose body holds an escaped apostrophe, the
    tuple scanner does not take the escaped apostrophe for the closing quote.
    Wherever the literal stands in a tuple, the scanner drops its two
    delimiting apostrophes and appends the body, as written, to the current
    token; both passes read the literal alone as one token, and the Text
    stored is the body, trimmed, with the backslash and the apostrophe still
    in it: nothing is unescaped. *)
Theorem escaped_quote_kept (body : string) :
  escapedBody body ->
  (forall rest prev vals cur,
      prev <> Some "\"%char ->
      parseValuesLoop (quoted body ++ rest) prev vals cur false =
      parseValuesLoop rest (Some "'"%char) vals (cur ++ body) false) /\
  parseValues (quoted body) = [Text (trim body)] /\
  parseValuesSets (quoted body) = [[Text (trim body)]] /\
  occurs "\'" (trim body) = true.
Proof.
  intros (Hocc & Hesc & Hlast).
  assert (Hq : hasChar "'" (trim body) = true).
  { rewrite hasChar_trim by reflexivity. exact (occurs_hasChar _ _ _ Hocc). }
  assert (Hne : isEmpty (trim body) = false).
  { destruct (trim body); [discriminate | reflexivity]. }
  assert (Hloop : forall rest prev vals cur,
             prev <> Some "\"%char ->
             parseValuesLoop (quoted body ++ rest) prev vals cur false =
             parseValuesLoop rest (Some "'"%char) vals (cur ++ body) false).
  { intros rest prev vals cur Hprev. now apply parseValuesLoop_quoted. }
  assert (Hvalues : parseValues (quoted body) = [Text (trim body)]).
  { unfold parseValues. rewrite stripParens_quoted.
    rewrite <- (app_empty_r (quoted body)).
    rewrite Hloop by discriminate. cbn [parseValuesLoop].
    change (EmptyString ++ body) with body. rewrite Hne.
    rewrite parseValue_text by now rewrite trim_idempotent.
    now rewrite trim_idempotent. }
  split; [exact Hloop|]. split; [exact Hvalues|]. split.
  - unfold parseValuesSets, quoted. cbn [parseValuesSetsLoop].
    change (isQuote None "'") with true. cbn [negb andb snoc].
    rewrite (parseValuesSetsLoop_inside body "'" _ _ _ _ Hesc).
    cbn [parseValuesSetsLoop]. rewrite (isQuote_unescaped _ Hlast).
    cbn [negb andb Z.eqb Ascii.eqb Bool.eqb].
    rewrite snoc_last. unfold pushSet.
    change (("'" ++ body) ++ "'") with (quoted body).
    rewrite trim_quoted. cbn [quoted isEmpty]. fold (quoted body).
    now rewrite Hvalues.
  - rewrite occurs_trim by reflexivity. exact Hocc.
Qed.

(** ** The statements the engine mishandles *)

Local Open Scope list_scope.

(** C1. The statements CREATE TABLE t (a INT, b TEXT), INSERT INTO t VALUES
    (1,'x'),(2,'y'), SELECT * FROM t should store and return the two rows.
    The pattern of INSERT takes the text between the first opening and the
    last closing parenthesis, so the scanner is handed 1,'x'),(2,'y' and
    cuts it at the first comma: the first tuple has one value, INSERT throws
    the arity error and the SELECT returns no row. *)
Theorem insert_two_tuples_rejected :
  search true insertIntoRe "INSERT INTO t VALUES (1,'x'),(2,'y')" =
    Some [(2, "1,'x'),(2,'y'"); (1, "t")] /\
  parseValuesSets "1,'x'),(2,'y'" =
    [[Num (Fin 1 0)]; [Str "x)"; Str "(2"]; [Str "y"]] /\
  snd (execAll Sample.insertTwoTuples ∅) =
    [Returns [];
     Throws (ColumnCountMismatch 2 1);
     Returns [{| resultColumns := ["a"; "b"]; values := [] |}]].
Proof. repeat split; vm_compute; reflexivity. Qed.

(** The rows are stored when the tuples are wrapped in one more pair of
    parentheses. *)
Lemma insert_two_tuples_wrapped :
  snd (execAll Sample.insertTwoTuplesWrapped ∅) =
    [Returns [];
     Returns [];
     Returns [{| resultColumns := ["a"; "b"];
                 values := [[Num (Fin 1 0); Str "x"];
                            [Num (Fin 2 0); Str "y"]] |}]].
Proof. vm_compute; reflexivity. Qed.

(** C2. The statements CREATE TABLE t (a INT, b TEXT), INSERT INTO t VALUES
    (1,'x'),(2), SELECT * FROM t should end with the arity error for the
    second tuple and with the first tuple stored.  The pattern of INSERT
    hands the scanner 1,'x'),(2, which it cuts at the first comma: the first
    value set is [1] and not the tuple [1, x], so the arity error is thrown
    for it (expected 2, got 1) before any row is stored, the catalog is left
    as the CREATE made it and the SELECT returns no row. *)
Theorem insert_short_tuple_stores_nothing :
  search true insertIntoRe "INSERT INTO t VALUES (1,'x'),(2)" =
    Some [(2, "1,'x'),(2"); (1, "t")] /\
  parseValuesSets "1,'x'),(2" = [[Num (Fin 1 0)]; [Str "x)"; Str "(2"]] /\
  exec "INSERT INTO t VALUES (1,'x'),(2)"
       (fst (exec "CREATE TABLE t (a INT, b TEXT)" ∅)) =
    (fst (exec "CREATE TABLE t (a INT, b TEXT)" ∅),
     Throws (ColumnCountMismatch 2 1)) /\
  snd (execAll Sample.insertShortTuple ∅) =
    [Returns [];
     Throws (ColumnCountMismatch 2 1);
     Returns [{| resultColumns := ["a"; "b"]; values := [] |}]].
Proof. repeat split; vm_compute; reflexivity. Qed.

(** C3. A condition [a != 1] should drop the rows whose [a] is 1.  The
    operator class of the pattern of conditions has no exclamation mark, so
    the pattern finds nothing in [a != 1], the evaluator answers true and
    the row [1] is returned, although it is equal to the literal; the same
    condition written with [<>] drops it. *)
Theorem bang_equal_keeps_equal_row :
  search true whereRe "a != 1" = None /\
  looseNe (Num (Fin 1 0)) (parseValue "1") = false /\
  evaluateWhere [Num (Fin 1 0)] [{| name := "a"; type := "INT" |}] "a != 1"
    = true /\
  snd (exec "SELECT * FROM t WHERE a != 1" Sample.oneColumn) =
    Returns [{| resultColumns := ["a"];
                values := [[Num (Fin 1 0)]; [Num (Fin 2 0)]] |}] /\
  snd (exec "SELECT * FROM t WHERE a <> 1" Sample.oneColumn) =
    Returns [{| resultColumns := ["a"]; values := [[Num (Fin 2 0)]] |}].
Proof. repeat split; vm_compute; reflexivity. Qed.

(** C4. A SELECT whose FROM clause calls a function should be answered with
    the unsupported-feature guidance.  The pattern of SELECT is not anchored
    at the end, so it matches the statement up to the name of the function
    and takes that name for a table: the handler throws the unknown-table
    error, while a quoted address after FROM does get the guidance. *)
Theorem function_call_reported_as_unknown_table :
  search true selectRe "SELECT * FROM read_csv_auto('data.csv')" =
    Some [(2, "read_csv_auto"); (1, "*")] /\
  exec "SELECT * FROM read_csv_auto('data.csv')" ∅ =
    (∅, Throws (TableDoesNotExist "read_csv_auto")) /\
  exec "SELECT * FROM 'https://example.com/file.parquet'" ∅ =
    (∅, Throws AdvancedSelectNotSupported).
Proof. repeat split; vm_compute; reflexivity. Qed.

(** A SELECT in which the pattern finds nothing gets the guidance, and the
    message of the guidance differs from those of the syntax errors and of
    the unknown-table error. *)
Lemma select_unmatched_guidance q (tables : catalog) :
  search true selectRe q = None ->
  select q tables = (tables, Throws AdvancedSelectNotSupported).
Proof. intros H. unfold select. now rewrite H. Qed.

Lemma guidance_message_distinct tableName :
  message AdvancedSelectNotSupported <> message (TableDoesNotExist tableName) /\
  message AdvancedSelectNotSupported <> message InvalidCreateTableSyntax /\
  message AdvancedSelectNotSupported <> message InvalidInsertSyntax /\
  message AdvancedSelectNotSupported <> message InvalidDropTableSyntax /\
  message AdvancedSelectNotSupported <> message UnsupportedQueryType.
Proof. repeat split; discriminate. Qed.

(** ** Instances *)

Lemma parseValue_inference_order_witness :
  parseValue " 42 " = inferScalar (trim " 42 ").
Proof.
  apply (proj2 (parseValue_inference_order " 42 ")).
  intros _. vm_compute. discriminate.
Defined.

Lemma insert_partial_commit_witness :
  exec "INSERT INTO t VALUES ((1,'x'),(2),(3,'z'))" Sample.oneTable =
  (<["t" := {| columns := Sample.columnsAB;
               rows := [[Num (Fin 0 0); Str "w"]] ++
                       [[Num (Fin 1 0); Str "x"]] |}]> Sample.oneTable,
   Throws (ColumnCountMismatch 2 1)).
Proof.
  apply (insert_partial_commit
           "INSERT INTO t VALUES ((1,'x'),(2),(3,'z'))"
           [(2, "(1,'x'),(2),(3,'z')"); (1, "t")]
           Sample.oneTable
           {| columns := Sample.columnsAB;
              rows := [[Num (Fin 0 0); Str "w"]] |}
           [[Num (Fin 1 0); Str "x"]]
           [Num (Fin 2 0)]
           [[Num (Fin 3 0); Str "z"]]).
  - vm_compute; reflexivity.
  - vm_compute; reflexivity.
  - vm_compute; reflexivity.
  - vm_compute; reflexivity.
  - repeat constructor.
  - simpl; lia.
Defined.

Lemma createTable_overwrites_witness :
  fst (exec "CREATE TABLE T (x INT)" Sample.oneTable) !! "t" =
  Some {| columns := [{| name := "x"; type := "INT" |}]; rows := [] |}.
Proof.
  apply (createTable_overwrites "CREATE TABLE T (x INT)"
           [(2, "x INT"); (1, "T")] Sample.oneTable).
  - vm_compute; reflexivity.
  - vm_compute; reflexivity.
Defined.

Lemma where_fallback_keeps_all_rows_witness :
  exec "SELECT * FROM t WHERE true" Sample.oneTable =
  (Sample.oneTable,
   Returns [{| resultColumns := ["a"; "b"];
               values := [[Num (Fin 0 0); Str "w"]] |}]).
Proof.
  apply (where_fallback_keeps_all_rows "SELECT * FROM t WHERE true"
           [(3, "true"); (2, "t"); (1, "*")] "true" Sample.oneTable
           {| columns := Sample.columnsAB;
              rows := [[Num (Fin 0 0); Str "w"]] |}).
  - vm_compute; reflexivity.
  - vm_compute; reflexivity.
  - vm_compute; reflexivity.
  - vm_compute; reflexivity.
  - left. vm_compute; reflexivity.
  - vm_compute; reflexivity.
Defined.

Lemma rows_aligned_invariant_witness :
  wellFormed (fst (exec "INSERT INTO t VALUES ((2,'y'),(3))" Sample.reached)).
Proof.
  apply (rows_aligned_invariant Sample.reached).
  unfold Sample.reached. apply reachable_exec, reachable_exec, reachable_new.
Defined.

Lemma error_leaves_catalog_witness :
  fst (exec "DROP TABLE missing" Sample.oneTable) = Sample.oneTable.
Proof.
  apply (error_leaves_catalog "DROP TABLE missing" Sample.oneTable
           (fst (exec "DROP TABLE missing" Sample.oneTable))
           (TableDoesNotExist "missing")).
  - vm_compute; reflexivity.
  - intros expected got; discriminate.
Defined.

Lemma escaped_quote_kept_witness :
  parseValues "'it\'s'" = [Str "it\'s"].
Proof.
  apply (escaped_quote_kept "it\'s").
  repeat split; [vm_compute; reflexivity .. | discriminate].
Defined.

(** The same literal as the first value of a tuple. *)
Lemma escaped_quote_in_tuple :
  parseValues "('it\'s', 2)" = [Str "it\'s"; Num (Fin 2 0)].
Proof. vm_compute; reflexivity. Qed.

(** ** Readings of sample literals and messages *)

Example parseValue_samples :
  map parseValue ["123"; "1.5"; "NULL"; "null"; " -.5 "; "true"; "TRUE"; "1."] =
  [Integer 123; Float 15 1; Null; Null; Float (-5) 1; Bool true;
   Text "TRUE"; Text "1."].
Proof. vm_compute; reflexivity. Qed.

(** Known binary64 values: the neighbour of [2^53 + 1], one tenth, two
    spellings of three tenths, the overflow to the infinities, the largest
    finite value, the smallest positive one and the underflow to zero. *)
Example nearest_samples :
  nearest 9007199254740993 1 = Fin 9007199254740992 0 /\
  nearest 9007199254740995 1 = Fin 9007199254740996 0 /\
  nearest 1 10 = Fin 3602879701896397 (-55) /\
  nearest 3 10 = Fin 5404319552844595 (-54) /\
  nearest 30000000000000001 (10 ^ 17) = nearest 3 10 /\
  nearest (10 ^ 309) 1 = PosInf /\
  nearest (- 10 ^ 309) 1 = NegInf /\
  nearest (17976931348623157 * 10 ^ 292) 1 =
    Fin ((2 ^ 53 - 1) * 2 ^ 971) 0 /\
  nearest 5 (10 ^ 324) = Fin 1 (-1074) /\
  nearest 1 (10 ^ 400) = Fin 0 0.
Proof. repeat split; vm_compute; reflexivity. Qed.

Example number_readings :
  parseInt10 " -12abc" = Fin (-12) 0 /\
  parseInt10 "abc" = NaN /\
  parseFloat "2.50" = Fin 5 (-1) /\
  parseFloat "1e3x" = Fin 1000 0 /\
  stringToNumber " 0x1F " = Fin 31 0 /\
  stringToNumber "1e-400" = Fin 0 0 /\
  stringToNumber "1e400" = PosInf /\
  stringToNumber "12px" = NaN /\
  looseEq (Str "1e-400") (Num (Fin 0 0)) = true.
Proof. repeat split; vm_compute; reflexivity. Qed.

Example parseValues_quoted_comma :
  parseValues "('a,b', 7)" = [Text "a,b"; Integer 7].
Proof. vm_compute; reflexivity. Qed.

Example message_arity :
  message (ColumnCountMismatch 2 1) =
  "Column count mismatch. Expected 2, got 1"%string.
Proof. vm_compute; reflexivity. Qed.

Example table_names_fold_case :
  snd (execAll ["CREATE TABLE T (a INT, b)"; "SELECT * FROM t";
                "DROP TABLE t"; "SELECT * FROM t"] ∅) =
  [Returns [];
   Returns [{| resultColumns := ["a"; "b"]; values := [] |}];
   Returns [];
   Throws (TableDoesNotExist "t")].
Proof. vm_compute; reflexivity. Qed.

(** * Further properties of the engine and of the worksheet *)

Import Facts.

(** ** The dispatcher *)

(** The first two characters of a text that starts with a keyword. *)
Lemma startsWith_head2 a b p s :
  startsWith (String a (String b p)) s = true ->
  exists r, s = String a (String b r).
Proof.
  intros H. destruct (startsWith_head _ _ _ H) as [r ->].
  simpl in H. rewrite Ascii.eqb_refl in H. simpl in H.
  destruct (startsWith_head _ _ _ H) as [r' ->]. now exists r'.
Qed.

Lemma exec_drop q (tables : catalog) :
  startsWith "drop table" (toLowerCase (trim q)) = true ->
  exec q tables = dropTable q tables.
Proof.
  intros H. unfold exec. rewrite H.
  now destruct (startsWith_head _ _ _ H) as [r ->].
Qed.

Lemma exec_insert q (tables : catalog) :
  startsWith "insert into" (toLowerCase (trim q)) = true ->
  exec q tables = insertInto q tables.
Proof.
  intros H. unfold exec. now rewrite (insert_not_create _ H), H.
Qed.

(** A text that starts with one of the other four keywords of
    [isSelectStatement] starts with none of the keywords of [exec]. *)
Lemma other_keywords_not_dispatched s :
  startsWith "select" s = false ->
  (startsWith "show" s || startsWith "describe" s
   || startsWith "explain" s || startsWith "with" s) = true ->
  startsWith "create table" s = false /\
  startsWith "insert into" s = false /\
  startsWith "drop table" s = false /\
  (startsWith "read_csv_auto(" s || startsWith "read_parquet(" s) = false.
Proof.
  intros _ H.
  repeat (apply orb_true_iff in H as [H|H]);
    destruct (startsWith_head2 _ _ _ _ H) as [r ->]; repeat split.
Qed.

Lemma exec_other_keywords s (tables : catalog) :
  Worksheet.isSelectStatement s = true ->
  startsWith "select" (toLowerCase (trim s)) = false ->
  exec s tables = (tables, Throws UnsupportedQueryType).
Proof.
  unfold Worksheet.isSelectStatement. intros H Hsel.
  rewrite Hsel in H. rewrite !orb_false_l in H. rewrite <- !orb_assoc in H.
  assert (H' : (startsWith "show" (toLowerCase (trim s))
                || startsWith "describe" (toLowerCase (trim s))
                || startsWith "explain" (toLowerCase (trim s))
                || startsWith "with" (toLowerCase (trim s))) = true).
  { now rewrite <- !orb_assoc. }
  destruct (other_keywords_not_dispatched _ Hsel H') as (Hc & Hi & Hd & Hr).
  unfold exec. now rewrite Hc, Hi, Hsel, Hd, Hr.
Qed.

Lemma exec_result_statement_catalog s (tables : catalog) :
  Worksheet.isSelectStatement s = true ->
  fst (exec s tables) = tables.
Proof.
  intros H. destruct (startsWith "select" (toLowerCase (trim s))) eqn:Hsel.
  - rewrite (exec_select _ _ Hsel). apply select_catalog.
  - now rewrite (exec_other_keywords _ _ H Hsel).
Qed.

(** X1. A statement the worksheet runs for its result never changes the
    catalog, whether the engine answers it or throws; and when it starts
    with SHOW, DESCRIBE, EXPLAIN or WITH rather than SELECT, the engine does
    not know it: [exec] throws the unsupported-query error. *)
Theorem result_statement_read_only s (tables : catalog) :
  Worksheet.isSelectStatement s = true ->
  fst (exec s tables) = tables /\
  (startsWith "select" (toLowerCase (trim s)) = false ->
   exec s tables = (tables, Throws UnsupportedQueryType)).
Proof.
  intros H. split.
  - now apply exec_result_statement_catalog.
  - now apply exec_other_keywords.
Qed.

(** ** INSERT, SELECT and DROP on a table *)

Lemma exec_insert_all q m (tables : catalog) t :
  startsWith "insert into" (toLowerCase (trim q)) = true ->
  search true insertIntoRe q = Some m ->
  tables !! toLowerCase (groupStr 1 m) = Some t ->
  Forall (fun v => length v = length (SimpleSQL.columns t))
         (parseValuesSets (groupStr 2 m)) ->
  exec q tables =
  (<[toLowerCase (groupStr 1 m) :=
       {| SimpleSQL.columns := SimpleSQL.columns t;
          rows := rows t ++ parseValuesSets (groupStr 2 m) |}]> tables,
   Returns []).
Proof.
  intros Hi Hm Ht Hall. rewrite (exec_insert _ _ Hi). unfold insertInto.
  rewrite Hm, Ht. now rewrite (pushRows_all _ _ (rows t) Hall).
Qed.

(** X2. An INSERT all of whose scanned tuples have the arity of the table
    returns, and the table then holds its former rows followed by all the
    tuples, in the order of the statement; the other tables are as before. *)
Theorem insert_appends_all q m (tables : catalog) t :
  startsWith "insert into" (toLowerCase (trim q)) = true ->
  search true insertIntoRe q = Some m ->
  tables !! toLowerCase (groupStr 1 m) = Some t ->
  Forall (fun v => length v = length (SimpleSQL.columns t))
         (parseValuesSets (groupStr 2 m)) ->
  snd (exec q tables) = Returns [] /\
  fst (exec q tables) !! toLowerCase (groupStr 1 m) =
    Some {| SimpleSQL.columns := SimpleSQL.columns t;
            rows := rows t ++ parseValuesSets (groupStr 2 m) |} /\
  (forall other, other <> toLowerCase (groupStr 1 m) ->
                 fst (exec q tables) !! other = tables !! other).
Proof.
  intros Hi Hm Ht Hall. rewrite (exec_insert_all _ _ _ _ Hi Hm Ht Hall).
  cbn [fst snd]. split; [reflexivity|]. split.
  - apply lookup_insert_eq.
  - intros other Hne. now apply lookup_insert_ne.
Qed.

(** X3. Insert, then read back: after such an INSERT, a SELECT of [*] from
    the same table, in any letter case and without a WHERE clause, returns
    the declared column names and the former rows followed by the inserted
    tuples. *)
Theorem insert_then_select_all qi mi qs ms (tables : catalog) t :
  startsWith "insert into" (toLowerCase (trim qi)) = true ->
  search true insertIntoRe qi = Some mi ->
  tables !! toLowerCase (groupStr 1 mi) = Some t ->
  Forall (fun v => length v = length (SimpleSQL.columns t))
         (parseValuesSets (groupStr 2 mi)) ->
  startsWith "select" (toLowerCase (trim qs)) = true ->
  search true selectRe qs = Some ms ->
  toLowerCase (groupStr 2 ms) = toLowerCase (groupStr 1 mi) ->
  trim (groupStr 1 ms) = "*"%string ->
  group 3 ms = None ->
  snd (exec qs (fst (exec qi tables))) =
  Returns [{| resultColumns := map name (SimpleSQL.columns t);
              SimpleSQL.values := rows t ++ parseValuesSets (groupStr 2 mi) |}].
Proof.
  intros Hi Hmi Ht Hall Hs Hms Hname Hstar Hw.
  rewrite (exec_insert_all _ _ _ _ Hi Hmi Ht Hall). cbn [fst].
  rewrite (exec_select _ _ Hs). unfold select.
  rewrite Hms, Hname, lookup_insert_eq, Hw, Hstar. reflexivity.
Qed.

Lemma exec_drop_present q m (tables : catalog) t :
  startsWith "drop table" (toLowerCase (trim q)) = true ->
  search true dropTableRe q = Some m ->
  tables !! toLowerCase (groupStr 1 m) = Some t ->
  exec q tables = (delete (toLowerCase (groupStr 1 m)) tables, Returns []).
Proof.
  intros Hd Hm Ht. rewrite (exec_drop _ _ Hd). unfold dropTable.
  now rewrite Hm, Ht.
Qed.

Lemma exec_select_missing q m (tables : catalog) :
  startsWith "select" (toLowerCase (trim q)) = true ->
  search true selectRe q = Some m ->
  tables !! toLowerCase (groupStr 2 m) = None ->
  exec q tables =
  (tables, Throws (TableDoesNotExist (toLowerCase (groupStr 2 m)))).
Proof.
  intros Hp Hm Hn. rewrite (exec_select _ _ Hp). unfold select.
  now rewrite Hm, Hn.
Qed.

(** X4. A DROP TABLE of a table the catalog holds returns, removes that
    table with its rows and touches no other table. *)
Theorem drop_removes_table q m (tables : catalog) t :
  startsWith "drop table" (toLowerCase (trim q)) = true ->
  search true dropTableRe q = Some m ->
  tables !! toLowerCase (groupStr 1 m) = Some t ->
  exec q tables = (delete (toLowerCase (groupStr 1 m)) tables, Returns []) /\
  fst (exec q tables) !! toLowerCase (groupStr 1 m) = None /\
  (forall other, other <> toLowerCase (groupStr 1 m) ->
                 fst (exec q tables) !! other = tables !! other).
Proof.
  intros Hd Hm Ht. rewrite (exec_drop_present _ _ _ _ Hd Hm Ht). cbn [fst]. split; [reflexivity|]. split.
  - apply lookup_delete_eq.
  - intros other Hne. now apply lookup_delete_ne.
Qed.

(** X5. INSERT, SELECT and DROP on a name the catalog does not hold throw the
    unknown-table error, which carries the name in lower case, and leave the
    catalog as it was. *)
Theorem missing_table_reported q n (tables : catalog) :
  tables !! n = None ->
  (startsWith "insert into" (toLowerCase (trim q)) = true /\
   exists m, search true insertIntoRe q = Some m /\
             toLowerCase (groupStr 1 m) = n) \/
  (startsWith "select" (toLowerCase (trim q)) = true /\
   exists m, search true selectRe q = Some m /\
             toLowerCase (groupStr 2 m) = n) \/
  (startsWith "drop table" (toLowerCase (trim q)) = true /\
   exists m, search true dropTableRe q = Some m /\
             toLowerCase (groupStr 1 m) = n) ->
  exec q tables = (tables, Throws (TableDoesNotExist n)).
Proof.
  intros Hn [(Hp & m & Hm & <-) | [(Hp & m & Hm & <-) | (Hp & m & Hm & <-)]].
  - rewrite (exec_insert _ _ Hp). unfold insertInto. now rewrite Hm, Hn.
  - now apply exec_select_missing.
  - rewrite (exec_drop _ _ Hp). unfold dropTable. now rewrite Hm, Hn.
Qed.

(** X6. Drop, then read: after a DROP TABLE that returned, a SELECT from the
    same name, in any letter case, throws the unknown-table error. *)
Theorem drop_then_select_unknown qd md qs ms (tables : catalog) t :
  startsWith "drop table" (toLowerCase (trim qd)) = true ->
  search true dropTableRe qd = Some md ->
  tables !! toLowerCase (groupStr 1 md) = Some t ->
  startsWith "select" (toLowerCase (trim qs)) = true ->
  search true selectRe qs = Some ms ->
  toLowerCase (groupStr 2 ms) = toLowerCase (groupStr 1 md) ->
  snd (exec qs (fst (exec qd tables))) =
  Throws (TableDoesNotExist (toLowerCase (groupStr 1 md))).
Proof.
  intros Hd Hmd Ht Hs Hms Hname.
  rewrite (exec_drop_present _ _ _ _ Hd Hmd Ht). cbn [fst].
  rewrite (exec_select_missing _ _ _ Hs Hms); rewrite Hname.
  - reflexivity.
  - apply lookup_delete_eq.
Qed.

(** ** What a SELECT returns *)

Lemma parseValue_defined s : parseValue s <> Undefined.
Proof.
  unfold parseValue.
  repeat match goal with |- context [if ?b then _ else _] => destruct b end;
    discriminate.
Qed.

Lemma parseValuesLoop_defined s prev vals cur q :
  definedRow vals -> definedRow (parseValuesLoop s prev vals cur q).
Proof.
  revert prev vals cur q; induction s as [|c r IH]; intros prev vals cur q Hv.
  - simpl. destruct (isEmpty (trim cur)); [exact Hv|].
    apply Forall_app. split; [exact Hv|].
    constructor; [apply parseValue_defined | constructor].
  - cbn [parseValuesLoop]. destruct (isQuote prev c); [now apply IH|].
    destruct (negb q && Ascii.eqb c ","); apply IH; [|exact Hv].
    apply Forall_app. split; [exact Hv|].
    constructor; [apply parseValue_defined | constructor].
Qed.

Lemma parseValues_defined s : definedRow (parseValues s).
Proof. apply parseValuesLoop_defined. constructor. Qed.

Lemma pushSet_defined sets cur :
  Forall definedRow sets -> Forall definedRow (pushSet sets cur).
Proof.
  intros H. unfold pushSet. destruct (isEmpty (trim cur)); [exact H|].
  apply Forall_app. split; [exact H|].
  constructor; [apply parseValues_defined | constructor].
Qed.

Lemma parseValuesSetsLoop_defined s prev sets cur q n :
  Forall definedRow sets ->
  Forall definedRow (parseValuesSetsLoop s prev sets cur q n).
Proof.
  revert prev sets cur q n; induction s as [|c r IH];
    intros prev sets cur q n Hs.
  - now apply pushSet_defined.
  - cbn [parseValuesSetsLoop].
    match goal with |- context [if ?b then parseValuesSetsLoop _ _ _ _ _ _
                                else _] => destruct b end;
      apply IH; [now apply pushSet_defined | exact Hs].
Qed.

Lemma parseValuesSets_defined s : Forall definedRow (parseValuesSets s).
Proof. apply parseValuesSetsLoop_defined. constructor. Qed.

Lemma pushRows_Forall (P : list value -> Prop) n sets rows :
  Forall P rows -> Forall P sets -> Forall P (fst (pushRows n sets rows)).
Proof.
  revert rows; induction sets as [|v rest IH]; intros rows Hr Hs; simpl.
  - exact Hr.
  - inversion Hs as [|? ? Hv Hrest]; subst.
    destruct (Nat.eqb (length v) n); simpl; [|exact Hr].
    apply IH; [|exact Hrest]. apply Forall_app. split; [exact Hr|].
    now constructor.
Qed.

Lemma exec_allDefined q (tables : catalog) :
  allDefined tables -> allDefined (fst (exec q tables)).
Proof.
  intros Hd. dispatch q.
  - unfold createTable.
    destruct (search true createTableRe q) as [m|]; simpl; [|exact Hd].
    apply map_Forall_insert_2; [constructor | exact Hd].
  - unfold insertInto.
    destruct (search true insertIntoRe q) as [m|]; simpl; [|exact Hd].
    destruct (tables !! toLowerCase (groupStr 1 m)) as [t|] eqn:Ht; simpl;
      [|exact Hd].
    pose proof (pushRows_Forall definedRow (length (SimpleSQL.columns t))
                  (parseValuesSets (groupStr 2 m)) (rows t) (Hd _ _ Ht)
                  (parseValuesSets_defined _)) as Hp.
    destruct (pushRows (length (SimpleSQL.columns t))
                (parseValuesSets (groupStr 2 m)) (rows t)) as [rows' thrown].
    apply map_Forall_insert_2; [exact Hp | exact Hd].
  - now rewrite select_catalog.
  - unfold dropTable.
    destruct (search true dropTableRe q) as [m|]; simpl; [|exact Hd].
    destruct (tables !! toLowerCase (groupStr 1 m)); simpl; [|exact Hd].
    now apply map_Forall_delete.
  - exact Hd.
  - exact Hd.
Qed.

Lemma reachable_allDefined (tables : catalog) :
  reachable tables -> allDefined tables.
Proof.
  induction 1 as [|q tables _ IH].
  - apply map_Forall_empty.
  - now apply exec_allDefined.
Qed.

Lemma findIndex_lt {A : Type} (p : A -> bool) l i :
  findIndex p l = Some i -> i < length l.
Proof.
  revert i; induction l as [|x l IH]; intros i; simpl; [discriminate|].
  destruct (p x); [intros [= <-]; lia|].
  destruct (findIndex p l) as [j|]; [|discriminate].
  intros [= <-]. specialize (IH j eq_refl). lia.
Qed.

Lemma colIndices_inr cols sel idx :
  colIndices cols sel = inr idx ->
  length idx = length sel /\ Forall (fun i => i < length cols) idx.
Proof.
  revert idx; induction sel as [|c sel IH]; intros idx; simpl.
  - intros [= <-]. split; [reflexivity | constructor].
  - destruct (columnIndex cols c) as [i|] eqn:Hi; [|discriminate].
    destruct (colIndices cols sel) as [e|idx']; [discriminate|].
    intros [= <-]. destruct (IH idx' eq_refl) as [Hl Hf]. split.
    + simpl. now rewrite Hl.
    + constructor; [|exact Hf]. unfold columnIndex in Hi.
      now apply findIndex_lt in Hi.
Qed.

Lemma cell_defined row i :
  definedRow row -> i < length row -> cell row i <> Undefined.
Proof.
  intros Hd Hi. unfold cell, definedRow in *. rewrite Forall_forall in Hd.
  apply Hd. apply list_elem_of_In. now apply nth_In.
Qed.

Lemma filter_sublist {A : Type} (f : A -> bool) (l : list A) :
  sublist (List.filter f l) l.
Proof.
  induction l as [|x l IH]; simpl; [constructor|].
  destruct (f x); [now apply sublist_skip | now apply sublist_cons].
Qed.

Lemma applyWhere_sublist t w : sublist (applyWhere t w) (rows t).
Proof.
  unfold applyWhere. destruct w as [w|]; [|reflexivity].
  destruct (isEmpty w); [reflexivity | apply filter_sublist].
Qed.

Lemma sublist_Forall {A : Type} (P : A -> Prop) (l1 l2 : list A) :
  sublist l1 l2 -> Forall P l2 -> Forall P l1.
Proof.
  induction 1 as [|x l1 l2 _ IH|x l1 l2 _ IH]; intros H.
  - constructor.
  - inversion H; subst. constructor; [assumption | now apply IH].
  - inversion H; subst. now apply IH.
Qed.

(** The result of the projection on rows that are aligned and defined. *)
Lemma selectColumns_shape t cs kept rs :
  Forall (fun row => length row = length (SimpleSQL.columns t)) kept ->
  Forall definedRow kept ->
  selectColumns t cs kept = Returns rs ->
  exists r, rs = [r] /\
            length (SimpleSQL.values r) = length kept /\
            (cs = "*"%string -> SimpleSQL.values r = kept) /\
            Forall (fun row => length row = length (resultColumns r) /\
                               definedRow row) (SimpleSQL.values r).
Proof.
  intros Hal Hdef. unfold selectColumns.
  destruct (String.eqb cs "*") eqn:Hstar.
  - intros [= <-]. eexists; split; [reflexivity|]. cbn.
    split; [reflexivity|]. split; [reflexivity|].
    rewrite length_map. rewrite Forall_forall in *. intros row Hrow.
    split; [now apply Hal | now apply Hdef].
  - destruct (colIndices (SimpleSQL.columns t) (map trim (split "," cs)))
      as [e|idx] eqn:Hidx; [discriminate|].
    intros [= <-]. eexists; split; [reflexivity|]. cbn.
    rewrite length_map. split; [reflexivity|]. split.
    { intros ->. discriminate. }
    destruct (colIndices_inr _ _ _ Hidx) as [Hlen Hlt].
    rewrite Forall_forall in *. intros row Hrow.
    apply list_elem_of_In, in_map_iff in Hrow as (src & <- & Hsrc).
    apply list_elem_of_In in Hsrc.
    rewrite length_map. split; [exact Hlen|].
    unfold definedRow at 1. apply Forall_forall. intros v Hv.
    apply list_elem_of_In, in_map_iff in Hv as (i & <- & Hi).
    apply cell_defined; [now apply Hdef|].
    rewrite (Hal _ Hsrc). rewrite Forall_forall in Hlt.
    now apply Hlt, list_elem_of_In.
Qed.

(** The projection gives one result set with one row for each row kept. *)
Lemma selectColumns_rows t cs kept rs :
  selectColumns t cs kept = Returns rs ->
  exists r, rs = [r] /\
            length (SimpleSQL.values r) = length kept /\
            (cs = "*"%string -> SimpleSQL.values r = kept).
Proof.
  unfold selectColumns. destruct (String.eqb cs "*") eqn:Hstar.
  - intros [= <-]. eexists; split; [reflexivity|]. now cbn.
  - destruct (colIndices _ _) as [e|idx]; [discriminate|].
    intros [= <-]. eexists; split; [reflexivity|]. cbn.
    rewrite length_map. split; [reflexivity|]. intros ->. discriminate.
Qed.

(** X7. On a catalog the engine can reach, a SELECT that returns gives one
    result set; each of its rows has as many cells as the result has column
    names, and no cell is undefined. *)
Theorem select_result_rectangular q (tables tables' : catalog) rs :
  reachable tables ->
  startsWith "select" (toLowerCase (trim q)) = true ->
  exec q tables = (tables', Returns rs) ->
  exists r, rs = [r] /\
            Forall (fun row => length row = length (resultColumns r) /\
                               definedRow row) (SimpleSQL.values r).
Proof.
  intros Hr Hsel. rewrite (exec_select _ _ Hsel). unfold select.
  destruct (search true selectRe q) as [m|]; [|discriminate].
  destruct (tables !! toLowerCase (groupStr 2 m)) as [t|] eqn:Ht;
    [|discriminate].
  intros [= _ H].
  pose proof (reachable_wellFormed _ Hr _ _ Ht) as Hal.
  pose proof (reachable_allDefined _ Hr _ _ Ht) as Hdef. cbv beta in *.
  pose proof (applyWhere_sublist t (group 3 m)) as Hsub.
  destruct (selectColumns_shape t _ _ rs
              (sublist_Forall _ _ _ Hsub Hal) (sublist_Forall _ _ _ Hsub Hdef) H)
    as (r & -> & _ & _ & Hshape).
  now exists r.
Qed.

(** X8. A SELECT neither invents nor reorders rows: it returns at most as
    many rows as the table holds, exactly as many when it has no WHERE
    clause, and when it selects [*] its rows are stored rows, in the order
    in which they are stored. *)
Theorem select_rows_in_order q m (tables tables' : catalog) t rs :
  startsWith "select" (toLowerCase (trim q)) = true ->
  search true selectRe q = Some m ->
  tables !! toLowerCase (groupStr 2 m) = Some t ->
  exec q tables = (tables', Returns rs) ->
  exists r, rs = [r] /\
            length (SimpleSQL.values r) <= length (rows t) /\
            (group 3 m = None ->
             length (SimpleSQL.values r) = length (rows t)) /\
            (trim (groupStr 1 m) = "*"%string ->
             sublist (SimpleSQL.values r) (rows t)).
Proof.
  intros Hsel Hm Ht. rewrite (exec_select _ _ Hsel). unfold select.
  rewrite Hm, Ht. intros [= _ H].
  pose proof (applyWhere_sublist t (group 3 m)) as Hsub.
  destruct (selectColumns_rows _ _ _ _ H) as (r & -> & Hlen & Hstar).
  exists r. split; [reflexivity|]. rewrite Hlen. split; [|split].
  - now apply sublist_length.
  - intros Hw. now rewrite Hw.
  - intros E. now rewrite (Hstar E).
Qed.

(** ** Splitting at a separator *)

Local Open Scope string_scope.

Lemma splitAux_not_nil sep cur s : splitAux sep cur s <> [].
Proof.
  revert cur; induction s as [|c r IH]; intros cur; simpl; [discriminate|].
  destruct (Ascii.eqb c sep); [discriminate | apply IH].
Qed.

Lemma splitAux_length sep cur s :
  length (splitAux sep cur s) = S (countChar sep s).
Proof.
  revert cur; induction s as [|c r IH]; intros cur; simpl; [reflexivity|].
  destruct (Ascii.eqb c sep); simpl; now rewrite IH.
Qed.

Lemma hasChar_snoc c cur d :
  hasChar c (snoc cur d) = hasChar c cur || Ascii.eqb c d.
Proof.
  induction cur as [|e cur IH]; simpl; [now rewrite orb_false_r|].
  now rewrite IH, orb_assoc.
Qed.

Lemma splitAux_no_sep sep cur s :
  hasChar sep cur = false ->
  Forall (fun p => hasChar sep p = false) (splitAux sep cur s).
Proof.
  revert cur; induction s as [|c r IH]; intros cur Hcur; simpl.
  - now constructor.
  - destruct (Ascii.eqb c sep) eqn:E.
    + constructor; [exact Hcur | now apply IH].
    + apply IH. rewrite hasChar_snoc, Hcur. simpl.
      now rewrite Ascii.eqb_sym.
Qed.

Lemma join_cons sep x rest :
  rest <> [] -> join sep (x :: rest) = x ++ sep ++ join sep rest.
Proof. destruct rest; [congruence | reflexivity]. Qed.

(** Joining the pieces with the separator gives the text back. *)
Lemma splitAux_join sep cur s :
  join (String sep EmptyString) (splitAux sep cur s) = cur ++ s.
Proof.
  revert cur; induction s as [|c r IH]; intros cur; simpl.
  - now rewrite app_empty_r.
  - destruct (Ascii.eqb c sep) eqn:E.
    + apply Ascii.eqb_eq in E. subst c.
      rewrite join_cons by apply splitAux_not_nil. now rewrite IH.
    + now rewrite IH, snoc_app.
Qed.

Lemma allIn_snoc p cur c : allIn p (snoc cur c) = allIn p cur && p c.
Proof.
  induction cur as [|d cur IH]; simpl; [now rewrite andb_true_r|].
  now rewrite IH, andb_assoc.
Qed.

Lemma splitWsAux_noSpace skipping cur s :
  noSpace cur -> Forall noSpace (splitWsAux skipping cur s).
Proof.
  revert skipping cur; induction s as [|c r IH]; intros skipping cur Hcur.
  - now constructor.
  - cbn [splitWsAux]. destruct (isWhiteSpace c) eqn:Hc.
    + destruct skipping; [now apply IH|].
      constructor; [exact Hcur | now apply IH].
    + apply IH. unfold noSpace in *. now rewrite allIn_snoc, Hcur, Hc.
Qed.

Lemma parseColumn_noSpace col :
  noSpace (name (parseColumn col)) /\ noSpace (type (parseColumn col)) /\
  type (parseColumn col) <> EmptyString.
Proof.
  unfold parseColumn. cbn [name type].
  pose proof (splitWsAux_noSpace false EmptyString (trim col) eq_refl) as H.
  fold (splitWs (trim col)) in H. rewrite Forall_forall in H.
  split; [|split].
  - destruct (splitWs (trim col)) as [|p ps]; [reflexivity|].
    apply H. now left.
  - destruct (nth_error (splitWs (trim col)) 1) as [t|] eqn:Ht;
      [|reflexivity].
    destruct (isEmpty t); [reflexivity|].
    apply H, list_elem_of_In. eapply nth_error_In; eassumption.
  - destruct (nth_error (splitWs (trim col)) 1) as [t|]; [|discriminate].
    destruct t; [discriminate | discriminate].
Qed.

(** X9. The table a CREATE TABLE makes has one column more than there are
    commas between its parentheses, so never zero, and no row; a column name
    or type never holds white space, and a type is never empty (it is TEXT
    when none is written). *)
Theorem createTable_columns q m (tables : catalog) :
  startsWith "create table" (toLowerCase (trim q)) = true ->
  search true createTableRe q = Some m ->
  exists t,
    fst (exec q tables) !! toLowerCase (groupStr 1 m) = Some t /\
    rows t = [] /\
    length (SimpleSQL.columns t) = S (countChar "," (groupStr 2 m)) /\
    Forall (fun c => noSpace (name c) /\ noSpace (type c) /\
                     type c <> EmptyString) (SimpleSQL.columns t).
Proof.
  intros Hp Hm. unfold exec. rewrite Hp. unfold createTable. rewrite Hm.
  cbn [fst]. eexists. split; [apply lookup_insert_eq|]. cbn.
  split; [reflexivity|]. split.
  - rewrite length_map. apply splitAux_length.
  - apply Forall_forall. intros c Hc.
    apply list_elem_of_In, in_map_iff in Hc as (col & <- & _).
    apply parseColumn_noSpace.
Qed.

(** ** The statements of a query *)

(** X10. The statements cut from the text of the editor: none holds a
    semicolon, even one written inside a quoted literal, none is blank, and
    they are pieces of the text in their order, the text being its pieces
    joined by semicolons. *)
Theorem parseStatements_pieces (query : string) :
  Forall (fun s => Worksheet.includes s ";" = false /\
                   isEmpty (trim s) = false)
         (Worksheet.parseStatements query) /\
  sublist (Worksheet.parseStatements query) (split ";" query) /\
  join ";" (split ";" query) = query.
Proof.
  unfold Worksheet.parseStatements. split; [|split].
  - apply Forall_forall. intros s Hs.
    apply list_elem_of_In, filter_In in Hs as [Hin Hnb].
    pose proof (splitAux_no_sep ";" EmptyString query eq_refl) as Hsep.
    rewrite Forall_forall in Hsep. split.
    + apply Hsep. now apply list_elem_of_In.
    + unfold Worksheet.notBlank in Hnb. now apply negb_true_iff in Hnb.
  - apply filter_sublist.
  - apply (splitAux_join ";" EmptyString query).
Qed.

(** ** Running a batch of statements *)

Local Open Scope list_scope.

(** Two batches in a row: the second runs on what the first left, unless the
    first threw. *)
Lemma runStatements_app a b (tables : catalog) last :
  Worksheet.runStatements (a ++ b) tables last =
  match Worksheet.runStatements a tables last with
  | (tables', inl e) => (tables', inl e)
  | (tables', inr last') => Worksheet.runStatements b tables' last'
  end.
Proof.
  revert tables last; induction a as [|s a IH]; intros tables last.
  - reflexivity.
  - cbn [app Worksheet.runStatements].
    destruct (isEmpty (trim s)); [apply IH|].
    destruct (Worksheet.isSelectStatement (trim s)).
    + destruct (exec (trim s) tables) as [t' [[|r rs]|e]];
        [apply IH | apply IH | reflexivity].
    + destruct (exec (trim s) tables) as [t' [rs|e]];
        [apply IH | reflexivity].
Qed.

(** A statement that throws ends the batch, whatever follows it. *)
Lemma runStatements_throw s post (tables tables' : catalog) last e :
  isEmpty (trim s) = false ->
  exec (trim s) tables = (tables', Throws e) ->
  Worksheet.runStatements (s :: post) tables last = (tables', inl e).
Proof.
  intros Hnb He. cbn [Worksheet.runStatements]. rewrite Hnb, He.
  now destruct (Worksheet.isSelectStatement (trim s)).
Qed.

(** X11. A batch stops at the first statement that throws: the error shown
    is that of this statement, the statements after it are not run, and the
    catalog keeps what the statements before it, and the failing statement
    itself, had done; nothing is rolled back. *)
Theorem batch_stops_at_first_error pre s post
  (tables t1 t2 : catalog) last l1 e :
  Worksheet.runStatements pre tables last = (t1, inr l1) ->
  isEmpty (trim s) = false ->
  exec (trim s) t1 = (t2, Throws e) ->
  Worksheet.runStatements (pre ++ s :: post) tables last = (t2, inl e).
Proof.
  intros Hpre Hnb He. rewrite runStatements_app, Hpre.
  now apply runStatements_throw.
Qed.

Lemma runStatements_reachable stmts (tables : catalog) last :
  reachable tables ->
  reachable (fst (Worksheet.runStatements stmts tables last)).
Proof.
  revert tables last; induction stmts as [|s rest IH]; intros tables last Hr.
  - exact Hr.
  - cbn [Worksheet.runStatements].
    destruct (isEmpty (trim s)); [now apply IH|].
    pose proof (reachable_exec (trim s) tables Hr) as Hr'.
    destruct (Worksheet.isSelectStatement (trim s)).
    + destruct (exec (trim s) tables) as [t' [[|r rs]|e]]; cbn [fst] in *;
        [now apply IH | now apply IH | exact Hr'].
    + destruct (exec (trim s) tables) as [t' [rs|e]]; cbn [fst] in *;
        [now apply IH | exact Hr'].
Qed.

(** X12. Whatever text is run from the editor, and whether the batch ends
    with results, with success or with an error, the catalog it leaves is
    one the engine can reach by calls of [exec]; so every stored row still
    has the length of its table's column list and no undefined cell. *)
Theorem executeQuery_keeps_invariants text (tables : catalog) :
  reachable tables ->
  reachable (fst (Worksheet.executeQuery text tables)) /\
  wellFormed (fst (Worksheet.executeQuery text tables)) /\
  allDefined (fst (Worksheet.executeQuery text tables)).
Proof.
  intros Hr.
  assert (H : reachable (fst (Worksheet.executeQuery text tables))).
  { unfold Worksheet.executeQuery.
    destruct (isEmpty (trim text)); [exact Hr|].
    pose proof (runStatements_reachable
                  (Worksheet.parseStatements (trim text)) tables None Hr) as H.
    now destruct (Worksheet.runStatements _ tables None) as [t' [e|[r|]]]. }
  split; [exact H|]. split.
  - now apply reachable_wellFormed.
  - now apply reachable_allDefined.
Qed.

Lemma isSelectStatement_trim s :
  Worksheet.isSelectStatement (trim s) = Worksheet.isSelectStatement s.
Proof. unfold Worksheet.isSelectStatement. now rewrite trim_idempotent. Qed.

(** X13. A batch made only of statements run for their result (SELECT, SHOW,
    DESCRIBE, EXPLAIN, WITH) leaves the catalog as it was, whether it ends
    with results or with an error. *)
Theorem read_only_batch stmts (tables : catalog) last :
  Forall (fun s => Worksheet.isSelectStatement s = true) stmts ->
  fst (Worksheet.runStatements stmts tables last) = tables.
Proof.
  intros Hall. revert last.
  induction Hall as [|s rest Hs _ IH]; intros last; [reflexivity|].
  cbn [Worksheet.runStatements].
  destruct (isEmpty (trim s)); [apply IH|].
  rewrite isSelectStatement_trim, Hs.
  rewrite <- isSelectStatement_trim in Hs.
  pose proof (exec_result_statement_catalog (trim s) tables Hs) as Hc.
  destruct (exec (trim s) tables) as [t' [[|r rs]|e]]; cbn [fst] in Hc;
    subst t'; [apply IH | apply IH | reflexivity].
Qed.

(** ** Quoting a field of the CSV download *)

Local Open Scope string_scope.

Lemma readQuoted_doubleQuotes v :
  readQuoted (Worksheet.doubleQuotes v ++ String Worksheet.dquote EmptyString)
  = Some v.
Proof.
  induction v as [|c v IH]; [reflexivity|]. cbn [Worksheet.doubleQuotes].
  destruct (Ascii.eqb c Worksheet.dquote) eqn:Ec.
  - apply Ascii.eqb_eq in Ec. subst c.
    change (String Worksheet.dquote
              (String Worksheet.dquote (Worksheet.doubleQuotes v)) ++
            String Worksheet.dquote EmptyString)
      with (String Worksheet.dquote
              (String Worksheet.dquote
                 (Worksheet.doubleQuotes v ++ String Worksheet.dquote EmptyString))).
    cbn [readQuoted]. rewrite !Ascii.eqb_refl. now rewrite IH.
  - change (String c (Worksheet.doubleQuotes v) ++
            String Worksheet.dquote EmptyString)
      with (String c (Worksheet.doubleQuotes v ++
                      String Worksheet.dquote EmptyString)).
    cbn [readQuoted]. rewrite Ec. now rewrite IH.
Qed.

Lemma readCsvField_escapeCsv v :
  readCsvField (Worksheet.escapeCsv v) = Some v.
Proof.
  unfold Worksheet.escapeCsv.
  destruct (Worksheet.includes v "," || Worksheet.includes v Worksheet.dquote
            || Worksheet.includes v "010" || Worksheet.includes v "013")
    eqn:H.
  - cbn [readCsvField]. rewrite Ascii.eqb_refl. apply readQuoted_doubleQuotes.
  - destruct v as [|c r]; [reflexivity|]. cbn [readCsvField]. rewrite H.
    destruct (Ascii.eqb c Worksheet.dquote) eqn:Ec; [|reflexivity].
    apply Ascii.eqb_eq in Ec. subst c. exfalso.
    apply orb_false_iff in H as [H _]. apply orb_false_iff in H as [H _].
    apply orb_false_iff in H as [_ H]. unfold Worksheet.includes in H.
    cbn [hasChar] in H. now rewrite Ascii.eqb_refl in H.
Qed.

(** X14. A reader of CSV gets every value back from its field: a value
    without comma, double quote, line feed or carriage return is written as
    it is, and any other value between double quotes with its double quotes
    written twice, which the reader undoes. *)
Theorem escapeCsv_round_trip v :
  readCsvField (Worksheet.escapeCsv v) = Some v.
Proof. apply readCsvField_escapeCsv. Qed.

(** X15. Quoting loses nothing: two values that are quoted to the same
    field are the same value. *)
Theorem escapeCsv_injective a b :
  Worksheet.escapeCsv a = Worksheet.escapeCsv b -> a = b.
Proof.
  intros H. pose proof (readCsvField_escapeCsv a) as Ha.
  rewrite H, readCsvField_escapeCsv in Ha. now injection Ha.
Qed.

(** ** Tuples without quoted literals *)

Local Open Scope list_scope.

Lemma parseValue_trim s : parseValue (trim s) = parseValue s.
Proof. unfold parseValue. now rewrite trim_idempotent. Qed.

Lemma dropBlankLast_cons x l :
  l <> [] -> dropBlankLast (x :: l) = x :: dropBlankLast l.
Proof. destruct l; [congruence | reflexivity]. Qed.

Lemma parseValuesLoop_plain s prev vals cur :
  hasChar "'" s = false ->
  parseValuesLoop s prev vals cur false =
  vals ++ map parseValue (dropBlankLast (splitAux "," cur s)).
Proof.
  revert prev vals cur; induction s as [|c r IH]; intros prev vals cur H.
  - cbn [parseValuesLoop splitAux dropBlankLast].
    destruct (isEmpty (trim cur)); [now rewrite app_nil_r|].
    cbn [map]. now rewrite parseValue_trim.
  - cbn [hasChar] in H. apply orb_false_iff in H as [Hc Hr].
    cbn [parseValuesLoop splitAux]. unfold isQuote.
    rewrite Ascii.eqb_sym, Hc. cbn [andb negb].
    destruct (Ascii.eqb c ",") eqn:Ecomma.
    + rewrite (IH _ _ _ Hr).
      rewrite dropBlankLast_cons by apply splitAux_not_nil.
      cbn [map]. rewrite parseValue_trim. now rewrite <- app_assoc.
    + now apply IH.
Qed.

Lemma dropLastParen_hasChar c s :
  hasChar c s = false -> hasChar c (dropLastParen s) = false.
Proof.
  induction s as [|d r IH]; [reflexivity|]. cbn [hasChar dropLastParen].
  intros H. apply orb_false_iff in H as [Hd Hr].
  destruct (Ascii.eqb d ")" && isEmpty r); [reflexivity|].
  cbn [hasChar]. now rewrite Hd, (IH Hr).
Qed.

Lemma stripParens_hasChar c s :
  hasChar c s = false -> hasChar c (stripParens s) = false.
Proof.
  destruct s as [|d r]; [reflexivity|]. intros H. cbn [stripParens].
  destruct (Ascii.eqb d "("); [|now apply dropLastParen_hasChar].
  cbn [hasChar] in H. apply orb_false_iff in H as [_ Hr].
  now apply dropLastParen_hasChar.
Qed.

Lemma parseValues_plain s :
  hasChar "'" s = false ->
  parseValues s = map parseValue (dropBlankLast (split "," (stripParens s))).
Proof.
  intros H. unfold parseValues, split.
  now rewrite parseValuesLoop_plain by now apply stripParens_hasChar.
Qed.

(** X16. The values of a tuple that holds no apostrophe are the readings of
    its pieces between commas, once an opening parenthesis at its start and
    a closing one at its end are removed; a blank piece is kept as a value
    (the empty Text) except in the last place, so that a comma at the end
    adds no value. *)
Theorem parseValues_without_quotes s :
  hasChar "'" s = false ->
  parseValues s = map parseValue (dropBlankLast (split "," (stripParens s))) /\
  length (parseValues s) <= S (countChar "," (stripParens s)).
Proof.
  intros H. rewrite (parseValues_plain _ H). split; [reflexivity|].
  rewrite length_map. unfold split.
  rewrite <- (splitAux_length "," EmptyString (stripParens s)).
  generalize (splitAux "," EmptyString (stripParens s)).
  induction l as [|x [|y l] IH]; cbn [dropBlankLast length] in *.
  - lia.
  - destruct (isEmpty (trim x)); cbn [length]; lia.
  - lia.
Qed.

Local Open Scope string_scope.

Lemma dropLastParen_close s : dropLastParen (s ++ ")") = s.
Proof.
  induction s as [|c r IH]; [reflexivity|].
  change (String c r ++ ")") with (String c (r ++ ")")).
  cbn [dropLastParen]. rewrite IH, isEmpty_app_cons.
  now rewrite andb_false_r.
Qed.

Lemma stripParens_wrap b : stripParens (wrap b) = b.
Proof. unfold wrap. cbn [stripParens Ascii.eqb Bool.eqb]. apply dropLastParen_close. Qed.

Lemma trim_wrap b : trim (wrap b) = wrap b.
Proof.
  unfold trim, wrap. rewrite trimStart_cons by reflexivity.
  change (String "(" (b ++ ")")) with (String "(" b ++ ")").
  now apply trimEnd_app_last.
Qed.

Lemma plain_hasChar b : plain b = true -> hasChar "'" (wrap b) = false.
Proof.
  intros H. unfold wrap. cbn [hasChar Ascii.eqb Bool.eqb orb].
  rewrite hasChar_app. cbn [hasChar Ascii.eqb Bool.eqb orb].
  rewrite orb_false_r. apply (allIn_hasChar isPlainChar); [exact H|reflexivity].
Qed.

Lemma isPlainChar_inv c :
  isPlainChar c = true ->
  Ascii.eqb c "'" = false /\ Ascii.eqb c "(" = false /\ Ascii.eqb c ")" = false.
Proof.
  unfold isPlainChar. intros H. apply andb_true_iff in H as [H H3].
  apply andb_true_iff in H as [H1 H2].
  now rewrite !negb_true_iff in *.
Qed.

Lemma isQuote_other prev c : Ascii.eqb c "'" = false -> isQuote prev c = false.
Proof. intros H. unfold isQuote. now rewrite H. Qed.

(** Inside one pair of parentheses and outside quotes, plain characters are
    appended to the current tuple, commas included. *)
Lemma parseValuesSetsLoop_plain body rest prev sets cur :
  plain body = true ->
  parseValuesSetsLoop (body ++ rest) prev sets cur false 1 =
  parseValuesSetsLoop rest (lastChar prev body) sets (cur ++ body) false 1.
Proof.
  revert prev cur; induction body as [|c r IH]; intros prev cur H.
  - simpl. now rewrite app_empty_r.
  - unfold plain in H. cbn [allIn] in H. apply andb_true_iff in H as [Hc Hr].
    destruct (isPlainChar_inv _ Hc) as (Hq & Ho & Hcl).
    change (String c r ++ rest) with (String c (r ++ rest)).
    cbn [parseValuesSetsLoop lastChar]. rewrite (isQuote_other _ _ Hq).
    rewrite Ho, Hcl. cbn [andb negb Z.eqb]. rewrite (IH _ _ Hr).
    now rewrite snoc_app.
Qed.

Lemma parseValuesSetsLoop_wrap body rest prev sets cur :
  plain body = true ->
  parseValuesSetsLoop (wrap body ++ rest) prev sets cur false 0 =
  parseValuesSetsLoop rest (Some ")"%char) sets (cur ++ wrap body) false 0.
Proof.
  intros H. unfold wrap.
  change (String "(" (body ++ ")") ++ rest)
    with (String "(" ((body ++ ")") ++ rest)).
  rewrite app_assoc_str. cbn [parseValuesSetsLoop].
  rewrite isQuote_other by reflexivity.
  change (Ascii.eqb "(" "(") with true. change (Ascii.eqb "(" ",") with false.
  change (0 + 1)%Z with 1%Z. cbn [negb andb Z.eqb].
  rewrite (parseValuesSetsLoop_plain body _ _ _ _ H).
  change (")" ++ rest) with (String ")" rest).
  cbn [parseValuesSetsLoop]. rewrite isQuote_other by reflexivity.
  change (Ascii.eqb ")" "(") with false. change (Ascii.eqb ")" ")") with true.
  change (Ascii.eqb ")" ",") with false.
  change (1 - 1)%Z with 0%Z. cbn [negb andb Z.eqb].
  rewrite snoc_last, snoc_last. rewrite !app_assoc_str. reflexivity.
Qed.

Lemma parseValuesSetsLoop_groups bodies prev sets :
  Forall (fun b => plain b = true) bodies -> bodies <> [] ->
  parseValuesSetsLoop (join "," (map wrap bodies)) prev sets EmptyString
    false 0 =
  (sets ++ map (fun b => parseValues (wrap b)) bodies)%list.
Proof.
  intros Hall. revert prev sets.
  induction Hall as [|b rest Hb Hrest IH]; intros prev sets Hne;
    [congruence|].
  destruct rest as [|b' rest'].
  - cbn [map join]. rewrite <- (app_empty_r (wrap b)) at 1.
    rewrite (parseValuesSetsLoop_wrap b _ _ _ _ Hb).
    cbn [parseValuesSetsLoop]. unfold pushSet.
    change (EmptyString ++ wrap b) with (wrap b). rewrite trim_wrap.
    reflexivity.
  - change (map wrap (b :: b' :: rest')) with (wrap b :: map wrap (b' :: rest')).
    rewrite join_cons by discriminate.
    rewrite (parseValuesSetsLoop_wrap b _ _ _ _ Hb).
    change ("," ++ join "," (map wrap (b' :: rest')))
      with (String "," (join "," (map wrap (b' :: rest')))).
    cbn [parseValuesSetsLoop]. rewrite isQuote_other by reflexivity.
    change (Ascii.eqb "," "(") with false. change (Ascii.eqb "," ")") with false.
    change (Ascii.eqb "," ",") with true. cbn [negb andb Z.eqb].
    rewrite IH by discriminate. unfold pushSet.
    change (EmptyString ++ wrap b) with (wrap b). rewrite trim_wrap.
    cbn [wrap isEmpty]. fold (wrap b). cbn [map].
    now rewrite <- List.app_assoc.
Qed.

Lemma parseValuesSets_join_wrap bodies :
  Forall (fun b => plain b = true) bodies ->
  parseValuesSets (join "," (map wrap bodies)) =
  map (fun b => map parseValue (dropBlankLast (split "," b))) bodies.
Proof.
  intros Hall. destruct bodies as [|b rest]; [reflexivity|].
  unfold parseValuesSets.
  rewrite parseValuesSetsLoop_groups by (assumption || discriminate).
  cbn [app]. apply map_ext_Forall.
  eapply Forall_impl; [exact Hall|]. intros x Hx. cbv beta.
  rewrite (parseValues_plain _ (plain_hasChar _ Hx)).
  now rewrite stripParens_wrap.
Qed.

(** X17. A list of parenthesised tuples separated by commas, the tuples
    holding no apostrophe and no inner parenthesis, is cut at the commas
    between the tuples and nowhere else: there is one value set for each
    tuple, in order, and its values are the readings of the pieces of the
    tuple between commas. *)
Theorem parseValuesSets_tuples bodies :
  Forall (fun b => plain b = true) bodies ->
  parseValuesSets (join "," (map wrap bodies)) =
  map (fun b => map parseValue (dropBlankLast (split "," b))) bodies.
Proof. apply parseValuesSets_join_wrap. Qed.

(** ** Resolving a column name *)

Lemma findIndex_first {A : Type} (p : A -> bool) l :
  match findIndex p l with
  | Some i =>
      (exists x, nth_error l i = Some x /\ p x = true) /\
      (forall j y, j < i -> nth_error l j = Some y -> p y = false)
  | None => Forall (fun x => p x = false) l
  end.
Proof.
  induction l as [|x l IH]; cbn [findIndex]; [constructor|].
  destruct (p x) eqn:Hx.
  - split; [now exists x | intros j y Hj; lia].
  - destruct (findIndex p l) as [i|].
    + destruct IH as [(y & Hy & Hpy) Hbefore]. split.
      * now exists y.
      * intros [|j] z Hj; cbn [nth_error].
        -- now intros [= <-].
        -- apply Hbefore. lia.
    + now constructor.
Qed.

(** X18. A column name is resolved without regard to letter case, and to the
    first column that fits: the index found is that of a column whose name
    equals the given one once both are in lower case, no column before it
    does, and no index is found only when no column does. *)
Theorem columnIndex_first_match cols n :
  match columnIndex cols n with
  | Some i =>
      (exists c, nth_error cols i = Some c /\
                 toLowerCase (name c) = toLowerCase n) /\
      (forall j c, j < i -> nth_error cols j = Some c ->
                   toLowerCase (name c) <> toLowerCase n)
  | None => Forall (fun c => toLowerCase (name c) <> toLowerCase n) cols
  end.
Proof.
  unfold columnIndex.
  pose proof (findIndex_first
                (fun col => String.eqb (toLowerCase (name col)) (toLowerCase n))
                cols) as H.
  destruct (findIndex _ cols) as [i|].
  - destruct H as [(c & Hc & Hp) Hbefore]. split.
    + exists c. split; [exact Hc | now apply String.eqb_eq].
    + intros j c' Hj Hc'. apply String.eqb_neq. now apply (Hbefore j).
  - eapply Forall_impl; [exact H|]. intros c Hc. now apply String.eqb_neq.
Qed.

Local Open Scope string_scope.

(** ** Matching a statement written in the expected form *)

Lemma substring_prefix a b : substring 0 (String.length a) (a ++ b) = a.
Proof.
  induction a as [|c a IH]; [now destruct b|].
  change (String c a ++ b) with (String c (a ++ b)). simpl. now rewrite IH.
Qed.

Lemma span_exact p a b :
  allIn p a = true -> headIn p b = false -> span p (a ++ b) = (a, b).
Proof.
  intros Ha Hb. induction a as [|c a IH].
  - destruct b as [|d b]; [reflexivity|]. simpl in *. now rewrite Hb.
  - simpl in Ha. apply andb_true_iff in Ha as [Hc Ha].
    change (String c a ++ b) with (String c (a ++ b)). cbn [span].
    now rewrite Hc, (IH Ha).
Qed.

(** A greedy run of a class stops where the class stops, when what follows
    the run in the pattern cannot start inside the class. *)
Lemma starGreedy_exact p k a b i cs :
  failsOn k p -> allIn p a = true -> headIn p b = false ->
  starGreedy p (a ++ b) i cs k = k b (i + String.length a) cs.
Proof.
  intros Hk Ha Hb. rewrite starGreedy_span by exact Hk.
  now rewrite (span_exact _ _ _ Ha Hb).
Qed.

(** A greedy run of a class takes the whole rest of the text when the rest
    of the pattern accepts at the end. *)
Lemma starGreedy_all p k a i cs :
  allIn p a = true ->
  (forall j, k EmptyString j cs <> None) ->
  starGreedy p a i cs k = k EmptyString (i + String.length a) cs.
Proof.
  intros Ha Hk. revert i; induction a as [|c a IH]; intros i.
  - simpl. now rewrite Nat.add_0_r.
  - simpl in Ha. apply andb_true_iff in Ha as [Hc Ha]. cbn [starGreedy].
    rewrite Hc, (IH Ha). cbn [String.length]. rewrite Nat.add_succ_r.
    change (S i + String.length a) with (S (i + String.length a)).
    destruct (k EmptyString (S (i + String.length a)) cs) eqn:E;
      [reflexivity | now destruct (Hk _ E)].
Qed.

(** A greedy run of a class before the last character of the text, which is
    what the pattern asks for next: the run gives that character back. *)
Lemma starGreedy_last p k a c i cs :
  allIn p a = true ->
  (forall j, k EmptyString j cs = None) ->
  (forall j, k (String c EmptyString) j cs <> None) ->
  starGreedy p (a ++ String c EmptyString) i cs k =
  k (String c EmptyString) (i + String.length a) cs.
Proof.
  intros Ha Hend Hlast. revert i; induction a as [|d a IH]; intros i.
  - change (EmptyString ++ String c EmptyString) with (String c EmptyString).
    cbn [starGreedy String.length]. rewrite Nat.add_0_r.
    destruct (p c); [|reflexivity]. now rewrite Hend.
  - simpl in Ha. apply andb_true_iff in Ha as [Hd Ha].
    change (String d a ++ String c EmptyString)
      with (String d (a ++ String c EmptyString)).
    cbn [starGreedy]. rewrite Hd, (IH Ha). cbn [String.length].
    rewrite Nat.add_succ_r.
    change (S i + String.length a) with (S (i + String.length a)).
    destruct (k (String c EmptyString) (S (i + String.length a)) cs) eqn:E;
      [reflexivity | now destruct (Hlast _ E)].
Qed.

Lemma run_Cat_cons ic r rs inp i cs k :
  run ic (Cat (r :: rs)) inp i cs k =
  run ic r inp i cs (fun inp' i' cs' => run ic (Cat rs) inp' i' cs' k).
Proof. reflexivity. Qed.

Lemma run_Word ic w u rest i cs k :
  wordMatches ic w u = true ->
  run ic (Word w) (u ++ rest) i cs k = k rest (i + String.length u) cs.
Proof.
  revert u i; induction w as [|x w IH]; intros [|d u] i H; try discriminate.
  - simpl. now rewrite Nat.add_0_r.
  - cbn [wordMatches] in H. apply andb_true_iff in H as [Hx Hw].
    change (String d u ++ rest) with (String d (u ++ rest)).
    cbn [Word run]. rewrite Hx, (IH _ _ Hw). cbn [String.length].
    now rewrite Nat.add_succ_r.
Qed.

Lemma run_Plus_exact ic p k c a b i cs :
  failsOn k p -> p c = true -> allIn p a = true -> headIn p b = false ->
  run ic (Plus true p) (String c a ++ b) i cs k =
  k b (i + String.length (String c a)) cs.
Proof.
  intros Hk Hc Ha Hb. change (String c a ++ b) with (String c (a ++ b)).
  unfold Plus. cbn [run]. rewrite Hc, (starGreedy_exact _ _ _ _ _ _ Hk Ha Hb).
  cbn [String.length]. now rewrite Nat.add_succ_r.
Qed.

Lemma run_Grp ic n r inp i cs k :
  run ic (Grp n r) inp i cs k =
  run ic r inp i cs
    (fun inp' i' cs' => k inp' i' ((n, substring 0 (i' - i) inp) :: cs')).
Proof. reflexivity. Qed.

Lemma run_Lit ic c d rest i cs k :
  litMatches ic c d = true ->
  run ic (Lit c) (String d rest) i cs k = k rest (S i) cs.
Proof. intros H. cbn [run]. now rewrite H. Qed.

(** Ways for the rest of a pattern to fail on a character. *)
Lemma failsOn_Lit ic x rs k p :
  (forall c, p c = true -> litMatches ic x c = false) ->
  failsOn (fun inp i cs => run ic (Cat (Lit x :: rs)) inp i cs k) p.
Proof. intros H c r j cs Hc. cbn [Cat run]. now rewrite (H c Hc). Qed.

Lemma failsOn_Word ic x w rs k p :
  (forall c, p c = true -> litMatches ic x c = false) ->
  failsOn (fun inp i cs => run ic (Cat (Word (String x w) :: rs)) inp i cs k) p.
Proof. intros H c r j cs Hc. cbn [Cat Word run]. now rewrite (H c Hc). Qed.

Lemma failsOn_Plus ic q rs k p :
  (forall c, p c = true -> q c = false) ->
  failsOn (fun inp i cs => run ic (Cat (Plus true q :: rs)) inp i cs k) p.
Proof.
  intros H c r j cs Hc. unfold Plus. cbn [Cat run]. now rewrite (H c Hc).
Qed.

Lemma failsOn_Star_Lit ic q x rs k p :
  (forall c, p c = true -> q c = false) ->
  (forall c, p c = true -> litMatches ic x c = false) ->
  failsOn (fun inp i cs =>
             run ic (Cat (Star true q :: Lit x :: rs)) inp i cs k) p.
Proof.
  intros Hq Hx c r j cs Hc. cbn [Cat run starGreedy].
  now rewrite (Hq c Hc), (Hx c Hc).
Qed.

Lemma failsOn_capture (k : cont) p (f : nat -> captures -> captures) :
  failsOn k p -> failsOn (fun inp i cs => k inp i (f i cs)) p.
Proof. intros H c r j cs Hc. now apply H. Qed.

Lemma word_not_space c : isWordChar c = true -> isWhiteSpace c = false.
Proof. by_char c. Qed.

Lemma word_not_paren c : isWordChar c = true -> litMatches true "(" c = false.
Proof. by_char c. Qed.

Lemma space_not_letter x c :
  isWordChar x = true -> isWhiteSpace c = true -> litMatches true x c = false.
Proof.
  intros Hx Hc. unfold litMatches.
  destruct (Ascii.eqb (canonicalize x) (canonicalize c)) eqn:E; [|reflexivity].
  apply Ascii.eqb_eq in E. exfalso. revert Hx Hc E.
  assert (Hcan : forall d, isWhiteSpace d = true -> canonicalize d = d
                           /\ isWordChar d = false) by (intros d; by_char d).
  assert (Hw : forall d, isWordChar d = true ->
                         isWordChar (canonicalize d) = true)
    by (intros d; by_char d).
  intros Hx Hc E. destruct (Hcan c Hc) as [E1 E2]. rewrite E1 in E.
  rewrite <- E in E2. rewrite (Hw x Hx) in E2. discriminate.
Qed.

Lemma space_not_paren c : isWhiteSpace c = true -> litMatches true "(" c = false.
Proof. by_char c. Qed.

Lemma nat_add_sub i n : i + n - i = n.
Proof. lia. Qed.

Lemma failsOn_Grp_Plus ic n q rs k p :
  (forall c, p c = true -> q c = false) ->
  failsOn (fun inp i cs =>
             run ic (Cat (Grp n (Plus true q) :: rs)) inp i cs k) p.
Proof.
  intros H c r j cs Hc. unfold Plus. cbn [Cat run]. now rewrite (H c Hc).
Qed.

Lemma space_not_word c : isWhiteSpace c = true -> isWordChar c = false.
Proof. by_char c. Qed.

Lemma search_at_start ic r s m :
  run ic r s 0 [] accept = Some m -> search ic r s = Some m.
Proof. intros H. unfold search. destruct s; simpl; now rewrite H. Qed.

Lemma createTable_match n cols :
  isIdentifier n = true -> oneLine cols = true ->
  search true createTableRe ("CREATE TABLE " ++ n ++ " (" ++ cols ++ ")") =
  Some [(2, cols); (1, n)].
Proof.
  intros Hn Hcols. unfold isIdentifier in Hn.
  apply andb_true_iff in Hn as [Hne Hn].
  destruct n as [|c n]; [discriminate|]. clear Hne.
  cbn [allIn] in Hn. apply andb_true_iff in Hn as [Hc Hn].
  apply search_at_start. unfold createTableRe.
  change ("CREATE TABLE " ++ String c n ++ " (" ++ cols ++ ")")
    with ("CREATE" ++
          (String " " "" ++
           ("TABLE" ++
            (String " " "" ++
             (String c n ++ (" " ++ String "(" (cols ++ ")"))))))).
  rewrite run_Cat_cons, (run_Word true "create" "CREATE") by reflexivity.
  rewrite run_Cat_cons, run_Plus_exact;
    [| apply failsOn_Word; intros d; now apply space_not_letter
     | reflexivity | reflexivity | reflexivity].
  rewrite run_Cat_cons, (run_Word true "table" "TABLE") by reflexivity.
  rewrite run_Cat_cons, run_Plus_exact;
    [| apply failsOn_Grp_Plus; intros d; now apply space_not_word
     | reflexivity | reflexivity | cbn [headIn append]; now apply word_not_space ].
  rewrite run_Cat_cons, run_Grp.
  rewrite run_Plus_exact;
    [| intros d r j cs' Hd;
       apply (failsOn_Star_Lit true ws "(" _ accept wd);
       [ exact word_not_space | exact word_not_paren | exact Hd ]
     | exact Hc | exact Hn | reflexivity ].
  rewrite nat_add_sub, substring_prefix.
  rewrite run_Cat_cons. cbn [run].
  change (" " ++ String "(" (cols ++ ")"))
    with (String " " "" ++ String "(" (cols ++ ")")).
  rewrite starGreedy_exact;
    [| apply failsOn_Lit; exact space_not_paren | reflexivity | reflexivity ].
  rewrite run_Cat_cons, run_Lit by reflexivity.
  rewrite run_Cat_cons, run_Grp. cbn [run].
  rewrite starGreedy_last; [| exact Hcols | reflexivity | discriminate ].
  cbn [Cat run litMatches]. change (Ascii.eqb _ _) with true. cbv iota.
  unfold accept. now rewrite nat_add_sub, substring_prefix.
Qed.

Lemma substring_all a : substring 0 (String.length a) a = a.
Proof. induction a as [|c a IH]; [reflexivity|]. simpl. now rewrite IH. Qed.

Lemma run_Plus_one ic p k c b i cs :
  p c = true -> headIn p b = false ->
  run ic (Plus true p) (String c b) i cs k = k b (S i) cs.
Proof.
  intros Hc Hb. unfold Plus. cbn [run]. rewrite Hc.
  destruct b as [|d b]; [reflexivity|]. cbn [headIn] in Hb.
  cbn [starGreedy]. now rewrite Hb.
Qed.

Lemma run_Plus_all ic p k c a i cs :
  p c = true -> allIn p a = true ->
  (forall j, k EmptyString j cs <> None) ->
  run ic (Plus true p) (String c a) i cs k =
  k EmptyString (i + String.length (String c a)) cs.
Proof.
  intros Hc Ha Hk. unfold Plus. cbn [run]. rewrite Hc.
  rewrite (starGreedy_all _ _ _ _ _ Ha Hk). cbn [String.length].
  now rewrite Nat.add_succ_r.
Qed.

Lemma starLazy_hit p k inp i cs m :
  k inp i cs = Some m -> starLazy p inp i cs k = Some m.
Proof. intros H. destruct inp; cbn [starLazy]; now rewrite H. Qed.

Lemma starLazy_skip p k c r i cs :
  k (String c r) i cs = None -> p c = true ->
  starLazy p (String c r) i cs k = starLazy p r (S i) cs k.
Proof. intros H Hc. cbn [starLazy]. now rewrite H, Hc. Qed.

Lemma insertInto_match n tuples :
  isIdentifier n = true -> oneLine tuples = true ->
  search true insertIntoRe
    ("INSERT INTO " ++ n ++ " VALUES (" ++ tuples ++ ")") =
  Some [(2, tuples); (1, n)].
Proof.
  intros Hn Ht. unfold isIdentifier in Hn.
  apply andb_true_iff in Hn as [Hne Hn].
  destruct n as [|c n]; [discriminate|]. clear Hne.
  cbn [allIn] in Hn. apply andb_true_iff in Hn as [Hc Hn].
  apply search_at_start. unfold insertIntoRe.
  change ("INSERT INTO " ++ String c n ++ " VALUES (" ++ tuples ++ ")")
    with ("INSERT" ++
          String " "
            ("INTO" ++
             String " "
               (String c n ++
                String " " ("VALUES" ++ (String " " "" ++
                                         String "(" (tuples ++ ")")))))).
  rewrite run_Cat_cons, (run_Word true "insert" "INSERT") by reflexivity.
  rewrite run_Cat_cons, run_Plus_one by reflexivity.
  rewrite run_Cat_cons, (run_Word true "into" "INTO") by reflexivity.
  rewrite run_Cat_cons, run_Plus_one;
    [| reflexivity | cbn [headIn append]; now apply word_not_space ].
  rewrite run_Cat_cons, run_Grp.
  rewrite run_Plus_exact;
    [| intros d r j cs' Hd;
       apply (failsOn_Plus true ws _ accept wd);
       [ exact word_not_space | exact Hd ]
     | exact Hc | exact Hn | reflexivity ].
  rewrite nat_add_sub, substring_prefix.
  rewrite run_Cat_cons, run_Plus_one by reflexivity.
  rewrite run_Cat_cons, (run_Word true "values" "VALUES") by reflexivity.
  rewrite run_Cat_cons. cbn [run].
  rewrite starGreedy_exact;
    [| apply failsOn_Lit; exact space_not_paren | reflexivity | reflexivity ].
  rewrite run_Cat_cons, run_Lit by reflexivity.
  rewrite run_Cat_cons, run_Grp. cbn [run].
  rewrite starGreedy_last; [| exact Ht | reflexivity | discriminate ].
  cbn [Cat run litMatches]. change (Ascii.eqb _ _) with true. cbv iota.
  unfold accept. now rewrite nat_add_sub, substring_prefix.
Qed.

Lemma dropTable_match n :
  isIdentifier n = true ->
  search true dropTableRe ("DROP TABLE " ++ n) = Some [(1, n)].
Proof.
  intros Hn. unfold isIdentifier in Hn.
  apply andb_true_iff in Hn as [Hne Hn].
  destruct n as [|c n]; [discriminate|]. clear Hne.
  cbn [allIn] in Hn. apply andb_true_iff in Hn as [Hc Hn].
  apply search_at_start. unfold dropTableRe.
  change ("DROP TABLE " ++ String c n)
    with ("DROP" ++ String " " ("TABLE" ++ String " " (String c n))).
  rewrite run_Cat_cons, (run_Word true "drop" "DROP") by reflexivity.
  rewrite run_Cat_cons, run_Plus_one by reflexivity.
  rewrite run_Cat_cons, (run_Word true "table" "TABLE") by reflexivity.
  rewrite run_Cat_cons, run_Plus_one;
    [| reflexivity | cbn [headIn]; now apply word_not_space ].
  rewrite run_Cat_cons, run_Grp.
  rewrite run_Plus_all; [| exact Hc | exact Hn | discriminate ].
  cbn [Cat run]. unfold accept. now rewrite nat_add_sub, substring_all.
Qed.

Lemma select_star_match n :
  isIdentifier n = true ->
  search true selectRe ("SELECT * FROM " ++ n) = Some [(2, n); (1, "*")].
Proof.
  intros Hn. unfold isIdentifier in Hn.
  apply andb_true_iff in Hn as [Hne Hn].
  destruct n as [|c n]; [discriminate|]. clear Hne.
  cbn [allIn] in Hn. apply andb_true_iff in Hn as [Hc Hn].
  apply search_at_start. unfold selectRe.
  change ("SELECT * FROM " ++ String c n)
    with ("SELECT" ++
          String " " (String "*" (String " " ("FROM" ++ String " " (String c n))))).
  rewrite run_Cat_cons, (run_Word true "select" "SELECT") by reflexivity.
  rewrite run_Cat_cons, run_Plus_one by reflexivity.
  rewrite run_Cat_cons, run_Grp. cbn [run].
  rewrite starLazy_skip; [| reflexivity | reflexivity ].
  apply starLazy_hit.
  rewrite run_Cat_cons, run_Plus_one by reflexivity.
  rewrite run_Cat_cons, (run_Word true "from" "FROM") by reflexivity.
  rewrite run_Cat_cons, run_Plus_one;
    [| reflexivity | cbn [headIn]; now apply word_not_space ].
  rewrite run_Cat_cons, run_Grp.
  rewrite run_Plus_all; [| exact Hc | exact Hn | discriminate ].
  cbn [Cat run Plus]. unfold accept. now rewrite nat_add_sub, substring_all.
Qed.

(** ** Statements written in the expected form *)

Lemma string_last_inv p s :
  isEmpty s = false -> allIn p s = true ->
  exists a z, s = a ++ String z EmptyString /\ p z = true.
Proof.
  induction s as [|c s IH]; [discriminate|]. intros _ H. cbn [allIn] in H.
  apply andb_true_iff in H as [Hc Hs]. destruct s as [|d s'].
  - now exists EmptyString, c.
  - destruct (IH eq_refl Hs) as (a & z & E & Hz). exists (String c a), z.
    split; [|exact Hz]. rewrite E. reflexivity.
Qed.

(** A text that starts and ends with characters that are not white space is
    left as it is by [trim]. *)
Lemma trim_fixed c body z :
  isWhiteSpace c = false -> isWhiteSpace z = false ->
  trim (String c (body ++ String z EmptyString)) =
  String c (body ++ String z EmptyString).
Proof.
  intros Hc Hz. unfold trim. rewrite trimStart_cons by exact Hc.
  change (String c (body ++ String z EmptyString))
    with (String c body ++ String z EmptyString).
  now apply trimEnd_app_last.
Qed.

Lemma trim_ends_ident prefix n :
  isWhiteSpace prefix = false ->
  forall mid, isIdentifier n = true ->
  trim (String prefix (mid ++ n)) = String prefix (mid ++ n).
Proof.
  intros Hp mid Hn. unfold isIdentifier in Hn.
  apply andb_true_iff in Hn as [Hne Hn]. apply negb_true_iff in Hne.
  destruct (string_last_inv _ _ Hne Hn) as (a & z & -> & Hz).
  rewrite <- app_assoc_str. apply trim_fixed; [exact Hp|].
  now apply word_not_space.
Qed.

Lemma oneLine_app a b : oneLine (a ++ b) = oneLine a && oneLine b.
Proof.
  unfold oneLine. induction a as [|c a IH]; [reflexivity|].
  change (String c a ++ b) with (String c (a ++ b)). cbn [allIn].
  now rewrite IH, andb_assoc.
Qed.

Lemma exec_create_form n cols (tables : catalog) :
  isIdentifier n = true -> oneLine cols = true ->
  exec ("CREATE TABLE " ++ n ++ " (" ++ cols ++ ")") tables =
  (<[toLowerCase n :=
       {| SimpleSQL.columns := map parseColumn (split "," cols);
          rows := [] |}]> tables,
   Returns []).
Proof.
  intros Hn Hcols.
  assert (Htrim : trim ("CREATE TABLE " ++ n ++ " (" ++ cols ++ ")") =
                  "CREATE TABLE " ++ n ++ " (" ++ cols ++ ")").
  { change ("CREATE TABLE " ++ n ++ " (" ++ cols ++ ")")
      with (String "C" ("REATE TABLE " ++ (n ++ (" (" ++ (cols ++ ")"))))).
    rewrite <- !app_assoc_str. now apply trim_fixed. }
  unfold exec. rewrite Htrim.
  change (startsWith "create table"
            (toLowerCase ("CREATE TABLE " ++ n ++ " (" ++ cols ++ ")")))
    with true. cbv iota.
  unfold createTable. now rewrite (createTable_match _ _ Hn Hcols).
Qed.

Lemma oneLine_tuples bodies :
  Forall (fun b => plain b = true /\ oneLine b = true) bodies ->
  oneLine (join "," (map wrap bodies)) = true.
Proof.
  induction 1 as [|b rest [_ Hb] _ IH]; [reflexivity|].
  assert (Hw : oneLine (wrap b) = true).
  { unfold wrap. change (String "(" (b ++ ")")) with ("(" ++ (b ++ ")")).
    now rewrite !oneLine_app, Hb. }
  destruct rest as [|b' rest']; [exact Hw|].
  change (map wrap (b :: b' :: rest')) with (wrap b :: map wrap (b' :: rest')).
  rewrite join_cons by discriminate. now rewrite !oneLine_app, Hw, IH.
Qed.

Lemma exec_insert_form n bodies (tables : catalog) t :
  isIdentifier n = true ->
  Forall (fun b => plain b = true /\ oneLine b = true) bodies ->
  tables !! toLowerCase n = Some t ->
  Forall (fun b => length (dropBlankLast (split "," b)) =
                   length (SimpleSQL.columns t)) bodies ->
  exec ("INSERT INTO " ++ n ++ " VALUES (" ++ join "," (map wrap bodies) ++ ")")
       tables =
  (<[toLowerCase n :=
       {| SimpleSQL.columns := SimpleSQL.columns t;
          rows := (rows t ++
                   map (fun b => map parseValue (dropBlankLast (split "," b)))
                       bodies)%list |}]> tables,
   Returns []).
Proof.
  intros Hn Hb Ht Harity.
  set (tuples := join "," (map wrap bodies)).
  assert (Htrim : trim ("INSERT INTO " ++ n ++ " VALUES (" ++ tuples ++ ")") =
                  "INSERT INTO " ++ n ++ " VALUES (" ++ tuples ++ ")").
  { change ("INSERT INTO " ++ n ++ " VALUES (" ++ tuples ++ ")")
      with (String "I" ("NSERT INTO " ++ (n ++ (" VALUES (" ++ (tuples ++ ")"))))).
    rewrite <- !app_assoc_str. now apply trim_fixed. }
  unfold exec. rewrite Htrim.
  change (startsWith "create table"
            (toLowerCase ("INSERT INTO " ++ n ++ " VALUES (" ++ tuples ++ ")")))
    with false.
  change (startsWith "insert into"
            (toLowerCase ("INSERT INTO " ++ n ++ " VALUES (" ++ tuples ++ ")")))
    with true. cbv iota.
  unfold insertInto.
  rewrite (insertInto_match n tuples Hn (oneLine_tuples _ Hb)).
  change (groupStr 1 [(2, tuples); (1, n)]) with n.
  change (groupStr 2 [(2, tuples); (1, n)]) with tuples.
  rewrite Ht. unfold tuples.
  rewrite parseValuesSets_join_wrap
    by (eapply Forall_impl; [exact Hb|]; now intros b [H _]).
  rewrite pushRows_all; [reflexivity|].
  apply Forall_forall. intros v Hv.
  apply list_elem_of_In, in_map_iff in Hv as (b & <- & Hin).
  rewrite length_map. rewrite Forall_forall in Harity.
  now apply Harity, list_elem_of_In.
Qed.

Lemma exec_select_star_form n (tables : catalog) t :
  isIdentifier n = true ->
  tables !! toLowerCase n = Some t ->
  exec ("SELECT * FROM " ++ n) tables =
  (tables, Returns [{| resultColumns := map name (SimpleSQL.columns t);
                       SimpleSQL.values := rows t |}]).
Proof.
  intros Hn Ht.
  assert (Htrim : trim ("SELECT * FROM " ++ n) = "SELECT * FROM " ++ n).
  { change ("SELECT * FROM " ++ n) with (String "S" ("ELECT * FROM " ++ n)).
    now apply trim_ends_ident. }
  unfold exec. rewrite Htrim.
  change (startsWith "create table" (toLowerCase ("SELECT * FROM " ++ n)))
    with false.
  change (startsWith "insert into" (toLowerCase ("SELECT * FROM " ++ n)))
    with false.
  change (startsWith "select" (toLowerCase ("SELECT * FROM " ++ n)))
    with true. cbv iota.
  unfold select. rewrite (select_star_match _ Hn).
  change (groupStr 2 [(2, n); (1, "*")]) with n. now rewrite Ht.
Qed.

Lemma exec_drop_form n (tables : catalog) t :
  isIdentifier n = true ->
  tables !! toLowerCase n = Some t ->
  exec ("DROP TABLE " ++ n) tables =
  (delete (toLowerCase n) tables, Returns []).
Proof.
  intros Hn Ht.
  assert (Htrim : trim ("DROP TABLE " ++ n) = "DROP TABLE " ++ n).
  { change ("DROP TABLE " ++ n) with (String "D" ("ROP TABLE " ++ n)).
    now apply trim_ends_ident. }
  unfold exec. rewrite Htrim.
  change (startsWith "create table" (toLowerCase ("DROP TABLE " ++ n)))
    with false.
  change (startsWith "insert into" (toLowerCase ("DROP TABLE " ++ n)))
    with false.
  change (startsWith "select" (toLowerCase ("DROP TABLE " ++ n)))
    with false.
  change (startsWith "drop table" (toLowerCase ("DROP TABLE " ++ n)))
    with true. cbv iota.
  unfold dropTable. rewrite (dropTable_match _ Hn).
  change (groupStr 1 [(1, n)]) with n. now rewrite Ht.
Qed.

(** X19. A CREATE TABLE statement written as the keywords, a name and a
    parenthesised one-line list of column definitions always returns: the
    catalog then maps the lower-cased name to a table with the columns of
    the list and no rows. *)
Theorem create_statement_runs n cols (tables : catalog) :
  isIdentifier n = true -> oneLine cols = true ->
  exec ("CREATE TABLE " ++ n ++ " (" ++ cols ++ ")") tables =
  (<[toLowerCase n :=
       {| SimpleSQL.columns := map parseColumn (split "," cols);
          rows := [] |}]> tables,
   Returns []).
Proof. apply exec_create_form. Qed.

(** X20. The form of INSERT that stores rows: when the tuples, free of
    apostrophes and inner parentheses, are written between one more pair of
    parentheses and each has as many pieces as the table has columns, the
    statement returns and the table holds its former rows followed by one
    row for each tuple, in order, made of the readings of its pieces. *)
Theorem insert_statement_runs n bodies (tables : catalog) t :
  isIdentifier n = true ->
  Forall (fun b => plain b = true /\ oneLine b = true) bodies ->
  tables !! toLowerCase n = Some t ->
  Forall (fun b => length (dropBlankLast (split "," b)) =
                   length (SimpleSQL.columns t)) bodies ->
  exec ("INSERT INTO " ++ n ++ " VALUES (" ++ join "," (map wrap bodies) ++ ")")
       tables =
  (<[toLowerCase n :=
       {| SimpleSQL.columns := SimpleSQL.columns t;
          rows := (rows t ++
                   map (fun b => map parseValue (dropBlankLast (split "," b)))
                       bodies)%list |}]> tables,
   Returns []).
Proof. apply exec_insert_form. Qed.

(** X22. DROP TABLE of a name the catalog holds, in any letter case,
    returns and removes the table. *)
Theorem drop_statement_runs n (tables : catalog) t :
  isIdentifier n = true ->
  tables !! toLowerCase n = Some t ->
  exec ("DROP TABLE " ++ n) tables =
  (delete (toLowerCase n) tables, Returns []).
Proof. apply exec_drop_form. Qed.

(** X23. Create, insert, read back: on any catalog, a CREATE TABLE, an
    INSERT of parenthesised plain tuples each with one piece per column and
    a SELECT *, the three naming the table in any letter case, all return,
    and the SELECT gives the declared column names and exactly one row for
    each tuple, in order. *)
Theorem create_insert_select_round_trip n1 n2 n3 cols bodies
  (tables : catalog) :
  isIdentifier n1 = true -> isIdentifier n2 = true ->
  isIdentifier n3 = true ->
  toLowerCase n2 = toLowerCase n1 -> toLowerCase n3 = toLowerCase n1 ->
  oneLine cols = true ->
  Forall (fun b => plain b = true /\ oneLine b = true) bodies ->
  Forall (fun b => length (dropBlankLast (split "," b)) =
                   S (countChar "," cols)) bodies ->
  snd (execAll
         ["CREATE TABLE " ++ n1 ++ " (" ++ cols ++ ")";
          "INSERT INTO " ++ n2 ++ " VALUES (" ++
            join "," (map wrap bodies) ++ ")";
          "SELECT * FROM " ++ n3] tables) =
  [Returns [];
   Returns [];
   Returns [{| resultColumns := map name (map parseColumn (split "," cols));
               SimpleSQL.values :=
                 map (fun b => map parseValue (dropBlankLast (split "," b)))
                     bodies |}]].
Proof.
  intros H1 H2 H3 E2 E3 Hcols Hb Harity. cbn [execAll].
  rewrite (exec_create_form _ _ tables H1 Hcols).
  rewrite (exec_insert_form n2 bodies _
             {| SimpleSQL.columns := map parseColumn (split "," cols);
                rows := [] |} H2 Hb).
  - rewrite (exec_select_star_form n3 _
               {| SimpleSQL.columns := map parseColumn (split "," cols);
                  rows := map (fun b => map parseValue
                                           (dropBlankLast (split "," b)))
                              bodies |} H3).
    + reflexivity.
    + rewrite E3, E2. apply lookup_insert_eq.
  - rewrite E2. apply lookup_insert_eq.
  - cbn [SimpleSQL.columns]. rewrite length_map. unfold split at 2.
    now rewrite splitAux_length.
Qed.


(** ** Conditions written in the expected form *)

(** A greedy run of a class stops where the class stops when the rest of
    the pattern accepts there. *)
Lemma starGreedy_first p k a b i cs :
  allIn p a = true -> headIn p b = false ->
  k b (i + String.length a) cs <> None ->
  starGreedy p (a ++ b) i cs k = k b (i + String.length a) cs.
Proof.
  intros Ha Hb. revert i; induction a as [|c a IH]; intros i Hk.
  - change (EmptyString ++ b) with b. cbn [String.length] in *.
    rewrite Nat.add_0_r in *. destruct b as [|d b]; [reflexivity|].
    cbn [headIn] in Hb. cbn [starGreedy]. now rewrite Hb.
  - simpl in Ha. apply andb_true_iff in Ha as [Hc Ha].
    change (String c a ++ b) with (String c (a ++ b)).
    cbn [starGreedy String.length] in *. rewrite Nat.add_succ_r in *.
    rewrite Hc. rewrite (IH Ha (S i)) by exact Hk.
    change (S i + String.length a) with (S (i + String.length a)).
    destruct (k b (S (i + String.length a)) cs) eqn:E;
      [reflexivity | contradiction].
Qed.

Lemma run_Plus_first ic p k c a b i cs :
  p c = true -> allIn p a = true -> headIn p b = false ->
  k b (i + String.length (String c a)) cs <> None ->
  run ic (Plus true p) (String c a ++ b) i cs k =
  k b (i + String.length (String c a)) cs.
Proof.
  intros Hc Ha Hb Hk. change (String c a ++ b) with (String c (a ++ b)).
  unfold Plus. cbn [run]. rewrite Hc. cbn [String.length] in *.
  rewrite Nat.add_succ_r in Hk.
  rewrite (starGreedy_first _ _ _ _ _ _ Ha Hb) by exact Hk.
  now rewrite Nat.add_succ_r.
Qed.

Lemma operator_not_space c : isOperatorChar c = true -> isWhiteSpace c = false.
Proof.
  unfold isOperatorChar. intros H.
  repeat (apply orb_true_iff in H as [H|H]);
    apply Ascii.eqb_eq in H; now subst c.
Qed.

Lemma word_not_operator c : isWordChar c = true -> isOperatorChar c = false.
Proof. by_char c. Qed.

Lemma failsOn_Star_Grp_Plus ic q n q' rs k p :
  (forall c, p c = true -> q c = false) ->
  (forall c, p c = true -> q' c = false) ->
  failsOn (fun inp i cs =>
             run ic (Cat (Star true q :: Grp n (Plus true q') :: rs))
               inp i cs k) p.
Proof.
  intros Hq Hq' c r j cs Hc. unfold Plus. cbn [Cat run starGreedy].
  now rewrite (Hq c Hc), (Hq' c Hc).
Qed.

Lemma whereRe_match col op lit :
  isIdentifier col = true -> isOperatorText op = true ->
  isLiteralText lit = true ->
  search true whereRe (condition col op lit) =
  Some [(3, lit); (2, op); (1, col)].
Proof.
  intros Hcol Hop Hlit. unfold isIdentifier in Hcol.
  apply andb_true_iff in Hcol as [Hne Hcol].
  destruct col as [|c col]; [discriminate|]. clear Hne.
  cbn [allIn] in Hcol. apply andb_true_iff in Hcol as [Hc Hcol].
  unfold isOperatorText in Hop. apply andb_true_iff in Hop as [Hne Hop].
  destruct op as [|o op]; [discriminate|]. clear Hne.
  cbn [allIn] in Hop. apply andb_true_iff in Hop as [Ho Hop].
  unfold isLiteralText in Hlit. apply andb_true_iff in Hlit as [Hline Hl].
  destruct lit as [|l lit]; [discriminate|].
  apply andb_true_iff in Hl as [Hlws Hlop].
  apply negb_true_iff in Hlws, Hlop.
  unfold oneLine in Hline. cbn [allIn] in Hline.
  apply andb_true_iff in Hline as [Hl Hline].
  apply search_at_start. unfold whereRe, condition.
  (* the tail of the pattern, from the literal on *)
  assert (H3 : forall i cs,
             run true (Cat [Grp 3 (Plus true dot)]) (String l lit) i cs accept
             = Some ((3, String l lit) :: cs)).
  { intros i cs. rewrite run_Cat_cons, run_Grp.
    rewrite run_Plus_all; [| exact Hl | exact Hline | discriminate ].
    cbn [Cat run]. unfold accept. now rewrite nat_add_sub, substring_all. }
  assert (H2 : forall i cs,
             run true (Cat [Star true ws; Grp 3 (Plus true dot)])
               (String " " (String l lit)) i cs accept
             = Some ((3, String l lit) :: cs)).
  { intros i cs. rewrite run_Cat_cons. cbn [run].
    change (String " " (String l lit)) with (String " " "" ++ String l lit).
    rewrite starGreedy_first; [apply H3 | reflexivity | exact Hlws |].
    now rewrite H3. }
  rewrite run_Cat_cons, run_Grp.
  rewrite run_Plus_exact;
    [| intros d r j cs' Hd;
       apply (failsOn_Star_Grp_Plus true ws 2 isOperatorChar _ accept wd);
       [ exact word_not_space | exact word_not_operator | exact Hd ]
     | exact Hc | exact Hcol | reflexivity ].
  rewrite nat_add_sub, substring_prefix.
  rewrite run_Cat_cons. cbn [run].
  change (String " " (String o op ++ String " " (String l lit)))
    with (String " " "" ++ (String o op ++ String " " (String l lit))).
  assert (H1 : forall i cs,
             run true (Cat [Grp 2 (Plus true isOperatorChar); Star true ws;
                            Grp 3 (Plus true dot)])
               (String o op ++ String " " (String l lit)) i cs accept
             = Some ((3, String l lit) :: (2, String o op) :: cs)).
  { intros i cs. rewrite run_Cat_cons, run_Grp.
    rewrite run_Plus_first; [| exact Ho | exact Hop | reflexivity |];
      rewrite nat_add_sub, substring_prefix, H2; [reflexivity | discriminate]. }
  rewrite starGreedy_first;
    [apply H1 | reflexivity | cbn [headIn append]; now apply operator_not_space |].
  now rewrite H1.
Qed.

Lemma evaluateWhere_condition row cols col op lit :
  isIdentifier col = true -> isOperatorText op = true ->
  isLiteralText lit = true ->
  evaluateWhere row cols (condition col op lit) =
  match columnIndex cols col with
  | None => true
  | Some index => switchOperator op (cell row index) (parseValue lit)
  end.
Proof.
  intros Hcol Hop Hlit. unfold evaluateWhere.
  rewrite (whereRe_match _ _ _ Hcol Hop Hlit).
  change (groupStr 1 [(3, lit); (2, op); (1, col)]) with col.
  change (groupStr 2 [(3, lit); (2, op); (1, col)]) with op.
  change (groupStr 3 [(3, lit); (2, op); (1, col)]) with lit.
  reflexivity.
Qed.

(** ** Integer cells and integer literals *)

Lemma numCompare_integers a b : numCompare a 0 b 0 = (a ?= b)%Z.
Proof. unfold numCompare. cbn. now rewrite !Z.mul_1_r. Qed.

Lemma trimEnd_noSpace s : noSpace s -> trimEnd s = s.
Proof.
  unfold noSpace. induction s as [|c s IH]; [reflexivity|]. cbn [allIn trimEnd].
  intros H. apply andb_true_iff in H as [Hc Hs]. apply negb_true_iff in Hc.
  now rewrite Hc, (IH Hs).
Qed.

Lemma trim_noSpace s : noSpace s -> trim s = s.
Proof.
  intros H. unfold trim. destruct s as [|c r]; [reflexivity|].
  assert (Hc : isWhiteSpace c = false).
  { unfold noSpace in H. cbn [allIn] in H.
    apply andb_true_iff in H as [Hc _]. now apply negb_true_iff in Hc. }
  rewrite trimStart_cons by exact Hc. now apply trimEnd_noSpace.
Qed.

Lemma allIn_impl (p q : ascii -> bool) s :
  (forall c, p c = true -> q c = true) -> allIn p s = true -> allIn q s = true.
Proof.
  intros H. induction s as [|c s IH]; [reflexivity|]. cbn [allIn].
  intros Hs. apply andb_true_iff in Hs as [Hc Hs].
  now rewrite (H c Hc), (IH Hs).
Qed.

Lemma integerToken_head t :
  isIntegerToken t = true ->
  exists c r, t = String c r /\
              (c = "-"%char \/ isDigit c = true) /\ allIn isDigit r = true.
Proof.
  unfold isIntegerToken. destruct t as [|c r]; [discriminate|].
  cbn [unsigned]. destruct (Ascii.eqb c "-") eqn:Ec.
  - apply Ascii.eqb_eq in Ec. intros H. exists c, r. split; [reflexivity|].
    split; [now left|]. unfold digits1 in H.
    now apply andb_true_iff in H as [_ H].
  - intros H. destruct (digits1_head _ H) as (d & r' & E & Hd & Hall).
    injection E as <- <-. exists c, r. split; [reflexivity|].
    split; [now right|]. cbn [allIn] in Hall.
    now apply andb_true_iff in Hall as [_ Hall].
Qed.

Lemma integerToken_noSpace t : isIntegerToken t = true -> noSpace t.
Proof.
  intros H. destruct (integerToken_head _ H) as (c & r & -> & Hc & Hr).
  unfold noSpace. cbn [allIn]. apply andb_true_iff. split.
  - destruct Hc as [-> | Hc]; [reflexivity|].
    now rewrite (digit_not_space _ Hc).
  - apply (allIn_impl isDigit); [|exact Hr].
    intros d Hd. now rewrite (digit_not_space _ Hd).
Qed.

Lemma integer_head_not_letter c :
  c = "-"%char \/ isDigit c = true ->
  Ascii.eqb (toLowerChar c) "n" = false /\
  Ascii.eqb c "t" = false /\ Ascii.eqb c "f" = false.
Proof.
  intros [-> | H]; [now repeat split|]. revert H. by_char c.
Qed.

(** An integer token is read as the number nearest to the integer it
    spells. *)
Lemma parseValue_integer t :
  isIntegerToken t = true -> parseValue t = Num (nearest (integerOf t) 1).
Proof.
  intros H. unfold parseValue.
  rewrite (trim_noSpace _ (integerToken_noSpace _ H)).
  destruct (integerToken_head _ H) as (c & r & E & Hc & _).
  destruct (integer_head_not_letter _ Hc) as (Hn & Ht & Hf).
  assert (E1 : String.eqb (toLowerCase t) "null" = false).
  { rewrite E. cbn [toLowerCase String.eqb]. now rewrite Hn. }
  assert (E2 : String.eqb t "true" = false).
  { rewrite E. cbn [String.eqb]. now rewrite Ht. }
  assert (E3 : String.eqb t "false" = false).
  { rewrite E. cbn [String.eqb]. now rewrite Hf. }
  rewrite E1, E2, E3, integerRe_spec, H. now rewrite parseInt10_integer.
Qed.

Lemma switchOperator_integers a b :
  switchOperator "=" (Num (Fin a 0)) (Num (Fin b 0)) = (a =? b)%Z /\
  switchOperator ">" (Num (Fin a 0)) (Num (Fin b 0)) = (b <? a)%Z /\
  switchOperator "<" (Num (Fin a 0)) (Num (Fin b 0)) = (a <? b)%Z /\
  switchOperator ">=" (Num (Fin a 0)) (Num (Fin b 0)) = (b <=? a)%Z /\
  switchOperator "<=" (Num (Fin a 0)) (Num (Fin b 0)) = (a <=? b)%Z /\
  switchOperator "<>" (Num (Fin a 0)) (Num (Fin b 0)) = negb (a =? b)%Z.
Proof.
  unfold switchOperator. cbn [String.eqb Ascii.eqb Bool.eqb andb].
  unfold looseNe, jsGt, jsLt, jsGe, jsLe, looseEq, lessThan, toNumber,
    numEq, numLt, isTrue, isFalse.
  rewrite !numCompare_integers. rewrite (Z.compare_antisym a b).
  destruct (a ?= b)%Z eqn:E; cbn [CompOpp negb];
    [ apply Z.compare_eq in E
    | rewrite Z.compare_lt_iff in E
    | rewrite Z.compare_gt_iff in E ];
    repeat split;
    repeat match goal with
           | |- context [(?x <? ?y)%Z] => destruct (Z.ltb_spec x y)
           | |- context [(?x <=? ?y)%Z] => destruct (Z.leb_spec x y)
           | |- context [(?x =? ?y)%Z] => destruct (Z.eqb_spec x y)
           end;
    try reflexivity; lia.
Qed.

(** ** SELECT statements written in the expected form *)

(** A lazy run goes through characters on which the rest of the pattern
    cannot start. *)
Lemma starLazy_run p q k a b i cs :
  allIn p a = true -> allIn q a = true -> failsOn k q ->
  starLazy p (a ++ b) i cs k = starLazy p b (i + String.length a) cs k.
Proof.
  intros Hp Hq Hk. revert i; induction a as [|c a IH]; intros i.
  - change (EmptyString ++ b) with b. cbn [String.length].
    now rewrite Nat.add_0_r.
  - cbn [allIn] in Hp, Hq. apply andb_true_iff in Hp as [Hpc Hp].
    apply andb_true_iff in Hq as [Hqc Hq].
    change (String c a ++ b) with (String c (a ++ b)).
    rewrite starLazy_skip; [| now apply Hk | exact Hpc ].
    rewrite (IH Hp Hq). cbn [String.length]. now rewrite Nat.add_succ_r.
Qed.

Lemma columnText_inv cs :
  isColumnText cs = true ->
  exists c r, cs = String c r /\ isWhiteSpace c = false /\
              allIn dot cs = true /\
              allIn (fun c => negb (isWhiteSpace c)) cs = true.
Proof.
  unfold isColumnText. intros H. apply andb_true_iff in H as [Hne H].
  destruct cs as [|c r]; [discriminate|]. exists c, r.
  split; [reflexivity|].
  assert (Hd : allIn dot (String c r) = true).
  { apply (allIn_impl (fun c => isDot c && negb (isWhiteSpace c))); [|exact H].
    intros d Hd'. now apply andb_true_iff in Hd' as [Hd' _]. }
  assert (Hs : allIn (fun c => negb (isWhiteSpace c)) (String c r) = true).
  { apply (allIn_impl (fun c => isDot c && negb (isWhiteSpace c))); [|exact H].
    intros d Hd'. now apply andb_true_iff in Hd' as [_ Hd']. }
  split; [|split; assumption]. cbn [allIn] in Hs.
  apply andb_true_iff in Hs as [Hs _]. now apply negb_true_iff in Hs.
Qed.

Lemma failsOn_Plus_captured ic q rs k p (f : nat -> captures -> captures) :
  (forall c, p c = true -> q c = false) ->
  failsOn (fun inp i cs =>
             run ic (Cat (Plus true q :: rs)) inp i (f i cs) k) p.
Proof.
  intros H c r j cs Hc. unfold Plus. cbn [Cat run]. now rewrite (H c Hc).
Qed.

Lemma select_match cs n :
  isColumnText cs = true -> isIdentifier n = true ->
  search true selectRe ("SELECT " ++ cs ++ " FROM " ++ n) =
  Some [(2, n); (1, cs)].
Proof.
  intros Hcs Hn. unfold isIdentifier in Hn.
  apply andb_true_iff in Hn as [Hne Hn].
  destruct n as [|c n]; [discriminate|]. clear Hne.
  cbn [allIn] in Hn. apply andb_true_iff in Hn as [Hc Hn].
  destruct (columnText_inv _ Hcs) as (x & cs' & E & Hx & Hdot & Hns).
  apply search_at_start. unfold selectRe.
  change ("SELECT " ++ cs ++ " FROM " ++ String c n)
    with ("SELECT" ++
          String " " (cs ++ String " " ("FROM" ++ String " " (String c n)))).
  rewrite run_Cat_cons, (run_Word true "select" "SELECT") by reflexivity.
  rewrite run_Cat_cons, run_Plus_one;
    [| reflexivity | rewrite E; exact Hx ].
  rewrite run_Cat_cons, run_Grp. cbn [run].
  rewrite (starLazy_run dot (fun c => negb (isWhiteSpace c)));
    [| exact Hdot | exact Hns
     | apply (failsOn_Plus_captured true ws _ accept
                (fun c => negb (isWhiteSpace c)));
       intros d Hd; now apply negb_true_iff in Hd ].
  apply starLazy_hit.
  rewrite nat_add_sub, substring_prefix.
  rewrite run_Cat_cons, run_Plus_one by reflexivity.
  rewrite run_Cat_cons, (run_Word true "from" "FROM") by reflexivity.
  rewrite run_Cat_cons, run_Plus_one;
    [| reflexivity | cbn [headIn]; now apply word_not_space ].
  rewrite run_Cat_cons, run_Grp.
  rewrite run_Plus_all; [| exact Hc | exact Hn | discriminate ].
  cbn [Cat run Plus]. unfold accept. now rewrite nat_add_sub, substring_all.
Qed.

Lemma select_where_match cs n cond :
  isColumnText cs = true -> isIdentifier n = true ->
  oneLine cond = true -> headIn isWhiteSpace cond = false ->
  search true selectRe ("SELECT " ++ cs ++ " FROM " ++ n ++ " WHERE " ++ cond) =
  Some [(3, cond); (2, n); (1, cs)].
Proof.
  intros Hcs Hn Hline Hhead. unfold isIdentifier in Hn.
  apply andb_true_iff in Hn as [Hne Hn].
  destruct n as [|c n]; [discriminate|]. clear Hne.
  cbn [allIn] in Hn. apply andb_true_iff in Hn as [Hc Hn].
  destruct (columnText_inv _ Hcs) as (x & cs' & E & Hx & Hdot & Hns).
  apply search_at_start. unfold selectRe.
  change ("SELECT " ++ cs ++ " FROM " ++ String c n ++ " WHERE " ++ cond)
    with ("SELECT" ++
          String " "
            (cs ++
             String " "
               ("FROM" ++
                String " "
                  (String c n ++ String " " ("WHERE" ++ String " " cond))))).
  assert (Hopt : forall i cs0,
             run true
               (Cat [Opt (Cat [Plus true ws; Word "where"; Plus true ws;
                               Grp 3 (Star true dot)])])
               (String " " ("WHERE" ++ String " " cond)) i cs0 accept =
             Some ((3, cond) :: cs0)).
  { intros i cs0. rewrite run_Cat_cons. cbn [run].
    rewrite run_Cat_cons, run_Plus_one by reflexivity.
    rewrite run_Cat_cons, (run_Word true "where" "WHERE") by reflexivity.
    rewrite run_Cat_cons, run_Plus_one; [| reflexivity | exact Hhead ].
    rewrite run_Cat_cons, run_Grp. cbn [run].
    rewrite starGreedy_all; [| exact Hline | discriminate ].
    cbn [Cat run]. unfold accept. now rewrite nat_add_sub, substring_all. }
  rewrite run_Cat_cons, (run_Word true "select" "SELECT") by reflexivity.
  rewrite run_Cat_cons, run_Plus_one;
    [| reflexivity | rewrite E; exact Hx ].
  rewrite run_Cat_cons, run_Grp. cbn [run].
  rewrite (starLazy_run dot (fun c => negb (isWhiteSpace c)));
    [| exact Hdot | exact Hns
     | apply (failsOn_Plus_captured true ws _ accept
                (fun c => negb (isWhiteSpace c)));
       intros d Hd; now apply negb_true_iff in Hd ].
  apply starLazy_hit.
  rewrite nat_add_sub, substring_prefix.
  rewrite run_Cat_cons, run_Plus_one by reflexivity.
  rewrite run_Cat_cons, (run_Word true "from" "FROM") by reflexivity.
  rewrite run_Cat_cons, run_Plus_one;
    [| reflexivity | cbn [headIn append]; now apply word_not_space ].
  rewrite run_Cat_cons, run_Grp.
  rewrite run_Plus_first; [| exact Hc | exact Hn | reflexivity |];
    rewrite nat_add_sub, substring_prefix, Hopt; [reflexivity | discriminate].
Qed.

Lemma toLowerChar_space c : isWhiteSpace (toLowerChar c) = isWhiteSpace c.
Proof. by_char c. Qed.

Lemma isEmpty_toLowerCase s : isEmpty (toLowerCase s) = isEmpty s.
Proof. now destruct s. Qed.

Lemma toLowerCase_trimEnd s : toLowerCase (trimEnd s) = trimEnd (toLowerCase s).
Proof.
  induction s as [|c s IH]; [reflexivity|]. cbn [trimEnd toLowerCase].
  rewrite <- IH, isEmpty_toLowerCase, toLowerChar_space.
  now destruct (isWhiteSpace c && isEmpty (trimEnd s)).
Qed.

(** A statement that starts with SELECT and a blank goes to the SELECT
    handler, whatever follows. *)
Lemma exec_select_text rest (tables : catalog) :
  exec ("SELECT " ++ rest) tables = select ("SELECT " ++ rest) tables.
Proof.
  apply exec_select. unfold trim.
  change ("SELECT " ++ rest) with (String "S" ("ELECT " ++ rest)).
  rewrite trimStart_cons by reflexivity.
  rewrite toLowerCase_trimEnd, startsWith_trimEnd by reflexivity.
  reflexivity.
Qed.

Lemma exec_select_form cs n (tables : catalog) t :
  isColumnText cs = true -> isIdentifier n = true ->
  tables !! toLowerCase n = Some t ->
  exec ("SELECT " ++ cs ++ " FROM " ++ n) tables =
  (tables, selectColumns t cs (rows t)).
Proof.
  intros Hcs Hn Ht. rewrite exec_select_text. unfold select.
  rewrite (select_match _ _ Hcs Hn).
  change (groupStr 1 [(2, n); (1, cs)]) with cs.
  change (groupStr 2 [(2, n); (1, cs)]) with n.
  destruct (columnText_inv _ Hcs) as (_ & _ & _ & _ & _ & Hns).
  now rewrite Ht, (trim_noSpace _ Hns).
Qed.

Lemma word_is_dot c : isWordChar c = true -> isDot c = true.
Proof. by_char c. Qed.

Lemma operator_is_dot c : isOperatorChar c = true -> isDot c = true.
Proof.
  unfold isOperatorChar. intros H.
  repeat (apply orb_true_iff in H as [H|H]);
    apply Ascii.eqb_eq in H; now subst c.
Qed.

Lemma condition_oneLine col op lit :
  isIdentifier col = true -> isOperatorText op = true ->
  isLiteralText lit = true ->
  oneLine (condition col op lit) = true /\
  headIn isWhiteSpace (condition col op lit) = false /\
  isEmpty (condition col op lit) = false.
Proof.
  intros Hcol Hop Hlit. unfold isIdentifier in Hcol.
  apply andb_true_iff in Hcol as [Hne Hcol].
  unfold isOperatorText in Hop. apply andb_true_iff in Hop as [_ Hop].
  unfold isLiteralText in Hlit. apply andb_true_iff in Hlit as [Hlit _].
  destruct col as [|c col]; [discriminate|]. split; [|split].
  - unfold condition.
    change (String " " (op ++ String " " lit)) with (" " ++ (op ++ (" " ++ lit))).
    rewrite !oneLine_app, Hlit.
    assert (oneLine (String c col) = true) as ->
        by exact (allIn_impl _ _ _ word_is_dot Hcol).
    assert (oneLine op = true) as ->
        by exact (allIn_impl _ _ _ operator_is_dot Hop).
    reflexivity.
  - cbn [condition append headIn]. cbn [allIn] in Hcol.
    apply andb_true_iff in Hcol as [Hc _]. now apply word_not_space.
  - reflexivity.
Qed.

Lemma exec_select_where_form cs n col op lit (tables : catalog) t :
  isColumnText cs = true -> isIdentifier n = true ->
  isIdentifier col = true -> isOperatorText op = true ->
  isLiteralText lit = true ->
  tables !! toLowerCase n = Some t ->
  exec ("SELECT " ++ cs ++ " FROM " ++ n ++ " WHERE " ++ condition col op lit)
       tables =
  (tables,
   selectColumns t cs
     (List.filter
        (fun row =>
           match columnIndex (SimpleSQL.columns t) col with
           | None => true
           | Some index =>
               switchOperator op (cell row index) (parseValue lit)
           end)
        (rows t))).
Proof.
  intros Hcs Hn Hcol Hop Hlit Ht.
  destruct (condition_oneLine _ _ _ Hcol Hop Hlit) as (Hline & Hhead & Hne).
  rewrite exec_select_text. unfold select.
  rewrite (select_where_match _ _ _ Hcs Hn Hline Hhead).
  change (groupStr 1 [(3, condition col op lit); (2, n); (1, cs)]) with cs.
  change (groupStr 2 [(3, condition col op lit); (2, n); (1, cs)]) with n.
  change (group 3 [(3, condition col op lit); (2, n); (1, cs)])
    with (Some (condition col op lit)).
  destruct (columnText_inv _ Hcs) as (_ & _ & _ & _ & _ & Hns).
  rewrite Ht, (trim_noSpace _ Hns). unfold applyWhere. rewrite Hne.
  f_equal. f_equal. apply List.filter_ext. intros row.
  now apply evaluateWhere_condition.
Qed.

Lemma integerToken_literal lit :
  isIntegerToken lit = true -> isLiteralText lit = true.
Proof.
  intros H. destruct (integerToken_head _ H) as (c & r & -> & Hc & Hr).
  unfold isLiteralText, oneLine. cbn [allIn].
  assert (Hd : forall d, isDigit d = true ->
                         isDot d = true /\ isWhiteSpace d = false /\
                         isOperatorChar d = false) by (intros d; by_char d).
  rewrite (allIn_impl isDigit isDot r (fun d Hdd => proj1 (Hd d Hdd)) Hr).
  destruct Hc as [-> | Hc]; [reflexivity|].
  destruct (Hd c Hc) as (-> & -> & ->). reflexivity.
Qed.

(** X21. A SELECT written as the keyword, a column list without white
    space, FROM and a name the catalog holds (in any letter case) leaves
    the catalog as it was and returns the projection of all the stored
    rows on the listed columns; for the list [*] these are the declared
    column names and the stored rows themselves, in order. *)
Theorem select_statement_runs cs n (tables : catalog) t :
  isColumnText cs = true -> isIdentifier n = true ->
  tables !! toLowerCase n = Some t ->
  exec ("SELECT " ++ cs ++ " FROM " ++ n) tables =
    (tables, selectColumns t cs (rows t)) /\
  (cs = "*" ->
   exec ("SELECT " ++ cs ++ " FROM " ++ n) tables =
   (tables, Returns [{| resultColumns := map name (SimpleSQL.columns t);
                        SimpleSQL.values := rows t |}])).
Proof.
  intros Hcs Hn Ht. rewrite (exec_select_form _ _ _ _ Hcs Hn Ht).
  split; [reflexivity|]. now intros ->.
Qed.

(** X24. A condition written as a column name, an operator made of the
    characters [>], [<], [=] and a literal, with one blank on each side of
    the operator, is read as these three parts: the row passes when the
    name is not a column, and otherwise when the operator holds between the
    cell of that column and the Scalar Parser's reading of the literal. *)
Theorem where_condition_reading row cols col op lit :
  isIdentifier col = true -> isOperatorText op = true ->
  isLiteralText lit = true ->
  evaluateWhere row cols (condition col op lit) =
  match columnIndex cols col with
  | None => true
  | Some index => switchOperator op (cell row index) (parseValue lit)
  end.
Proof. apply evaluateWhere_condition. Qed.

(** X25. On a cell that holds an integer and a literal that is an integer
    token, both of magnitude [2^53] at most, so that neither is rounded, the
    six operators the pattern can read compare the two integers: [=] is
    equality, [>], [<], [>=], [<=] the orders of the integers, and [<>]
    inequality. *)
Theorem integer_condition row cols col index a lit :
  isIdentifier col = true ->
  columnIndex cols col = Some index ->
  cell row index = Num (Fin a 0) ->
  (Z.abs a <= 2 ^ 53)%Z ->
  isIntegerToken lit = true ->
  (Z.abs (integerOf lit) <= 2 ^ 53)%Z ->
  evaluateWhere row cols (condition col "=" lit) = (a =? integerOf lit)%Z /\
  evaluateWhere row cols (condition col ">" lit) = (integerOf lit <? a)%Z /\
  evaluateWhere row cols (condition col "<" lit) = (a <? integerOf lit)%Z /\
  evaluateWhere row cols (condition col ">=" lit) = (integerOf lit <=? a)%Z /\
  evaluateWhere row cols (condition col "<=" lit) = (a <=? integerOf lit)%Z /\
  evaluateWhere row cols (condition col "<>" lit) =
    negb (a =? integerOf lit)%Z.
Proof.
  intros Hcol Hidx Hcell _ Hlit Hbound.
  pose proof (integerToken_literal _ Hlit) as Hl.
  rewrite !(evaluateWhere_condition row cols col _ lit Hcol) by easy.
  rewrite Hidx, Hcell, (parseValue_integer _ Hlit).
  rewrite (nearest_exact _ Hbound).
  apply switchOperator_integers.
Qed.

(** X26. A SELECT with a WHERE clause of that form leaves the catalog as it
    was and returns the projection, on the listed columns, of the stored
    rows that pass the condition, in their stored order. *)
Theorem select_where_statement_runs cs n col op lit (tables : catalog) t :
  isColumnText cs = true -> isIdentifier n = true ->
  isIdentifier col = true -> isOperatorText op = true ->
  isLiteralText lit = true ->
  tables !! toLowerCase n = Some t ->
  exec ("SELECT " ++ cs ++ " FROM " ++ n ++ " WHERE " ++ condition col op lit)
       tables =
  (tables,
   selectColumns t cs
     (List.filter
        (fun row =>
           match columnIndex (SimpleSQL.columns t) col with
           | None => true
           | Some index =>
               switchOperator op (cell row index) (parseValue lit)
           end)
        (rows t))).
Proof. apply exec_select_where_form. Qed.

(** X27. A quoted literal in a condition keeps its apostrophes: [col = 'x']
    compares the cell with the text between apostrophes included, so it is
    false on every cell that holds a text without apostrophe, such as the
    text [x] that the scanner of INSERT stores for the literal ['x']. *)
Theorem quoted_literal_never_matches row cols col index s body :
  isIdentifier col = true -> oneLine body = true ->
  columnIndex cols col = Some index ->
  cell row index = Str s ->
  hasChar "'" s = false ->
  parseValue (quoted body) = Str (quoted body) /\
  evaluateWhere row cols (condition col "=" (quoted body)) = false.
Proof.
  intros Hcol Hbody Hidx Hcell Hs.
  assert (Hq : hasChar "'" (quoted body) = true) by reflexivity.
  assert (Hp : parseValue (quoted body) = Str (quoted body)).
  { rewrite parseValue_text; rewrite trim_quoted; [reflexivity | exact Hq]. }
  split; [exact Hp|].
  assert (Hl : isLiteralText (quoted body) = true).
  { unfold isLiteralText, quoted.
    change (String "'" (body ++ "'")) with ("'" ++ (body ++ "'")) at 1.
    now rewrite !oneLine_app, Hbody. }
  rewrite (evaluateWhere_condition row cols col "=" _ Hcol eq_refl Hl).
  rewrite Hidx, Hcell, Hp. unfold switchOperator.
  cbn [String.eqb Ascii.eqb Bool.eqb andb]. cbn [looseEq].
  destruct (String.eqb s (quoted body)) eqn:E; [|reflexivity].
  apply String.eqb_eq in E. rewrite E in Hs. now rewrite Hq in Hs.
Qed.

(** X29. A condition compares numbers as binary64 values: the literal
    0.30000000000000001 is read as the number 0.3 is read as, so it is equal
    to a cell read from 0.3; on the cell [2^53] the literal 9007199254740993
    is equal, neither greater nor different; and a cell holding the text
    1e-400 is equal to the literal 0. *)
Theorem where_compares_binary64 :
  parseValue "0.30000000000000001" = parseValue "0.3" /\
  evaluateWhere [parseValue "0.3"] [{| name := "a"; type := "REAL" |}]
    "a = 0.30000000000000001" = true /\
  evaluateWhere [Num (Fin 9007199254740992 0)]
    [{| name := "a"; type := "INT" |}] "a = 9007199254740993" = true /\
  evaluateWhere [Num (Fin 9007199254740992 0)]
    [{| name := "a"; type := "INT" |}] "a < 9007199254740993" = false /\
  evaluateWhere [Num (Fin 9007199254740992 0)]
    [{| name := "a"; type := "INT" |}] "a <> 9007199254740993" = false /\
  evaluateWhere [Str "1e-400"] [{| name := "a"; type := "TEXT" |}]
    "a = 0" = true.
Proof. repeat split; vm_compute; reflexivity. Qed.

(** ** Instances of the further properties *)

Local Open Scope list_scope.

Lemma result_statement_read_only_witness :
  exec "SHOW TABLES" Sample.oneTable =
  (Sample.oneTable, Throws UnsupportedQueryType).
Proof.
  apply (result_statement_read_only "SHOW TABLES" Sample.oneTable);
    vm_compute; reflexivity.
Defined.

Lemma insert_appends_all_witness :
  snd (exec "INSERT INTO t VALUES ((1,'x'),(2,'y'))" Sample.oneTable) =
  Returns [].
Proof.
  apply (insert_appends_all "INSERT INTO t VALUES ((1,'x'),(2,'y'))"
           [(2, "(1,'x'),(2,'y')"); (1, "t")] Sample.oneTable
           {| SimpleSQL.columns := Sample.columnsAB;
              rows := [[Num (Fin 0 0); Str "w"]] |}).
  - vm_compute; reflexivity.
  - vm_compute; reflexivity.
  - vm_compute; reflexivity.
  - vm_compute. repeat constructor.
Defined.

Lemma insert_then_select_all_witness :
  snd (exec "select * from T"
         (fst (exec "INSERT INTO t VALUES ((1,'x'),(2,'y'))" Sample.oneTable)))
  = Returns [{| resultColumns := ["a"; "b"];
                SimpleSQL.values := [[Num (Fin 0 0); Str "w"];
                                     [Num (Fin 1 0); Str "x"];
                                     [Num (Fin 2 0); Str "y"]] |}].
Proof.
  apply (insert_then_select_all "INSERT INTO t VALUES ((1,'x'),(2,'y'))"
           [(2, "(1,'x'),(2,'y')"); (1, "t")]
           "select * from T" [(2, "T"); (1, "*")] Sample.oneTable
           {| SimpleSQL.columns := Sample.columnsAB;
              rows := [[Num (Fin 0 0); Str "w"]] |}).
  - vm_compute; reflexivity.
  - vm_compute; reflexivity.
  - vm_compute; reflexivity.
  - vm_compute. repeat constructor.
  - vm_compute; reflexivity.
  - vm_compute; reflexivity.
  - vm_compute; reflexivity.
  - vm_compute; reflexivity.
  - vm_compute; reflexivity.
Defined.

Lemma drop_removes_table_witness :
  fst (exec "DROP TABLE T" Sample.oneTable) !! "t" = None.
Proof.
  apply (drop_removes_table "DROP TABLE T" [(1, "T")] Sample.oneTable
           {| SimpleSQL.columns := Sample.columnsAB;
              rows := [[Num (Fin 0 0); Str "w"]] |}).
  - vm_compute; reflexivity.
  - vm_compute; reflexivity.
  - vm_compute; reflexivity.
Defined.

Lemma missing_table_reported_witness :
  exec "INSERT INTO Missing VALUES (1)" Sample.oneTable =
  (Sample.oneTable, Throws (TableDoesNotExist "missing")).
Proof.
  apply (missing_table_reported "INSERT INTO Missing VALUES (1)" "missing"
           Sample.oneTable).
  - vm_compute; reflexivity.
  - left. split; [vm_compute; reflexivity|].
    exists [(2, "1"); (1, "Missing")]. split; vm_compute; reflexivity.
Defined.

Lemma drop_then_select_unknown_witness :
  snd (exec "SELECT * FROM t" (fst (exec "DROP TABLE T" Sample.oneTable))) =
  Throws (TableDoesNotExist "t").
Proof.
  apply (drop_then_select_unknown "DROP TABLE T" [(1, "T")]
           "SELECT * FROM t" [(2, "t"); (1, "*")] Sample.oneTable
           {| SimpleSQL.columns := Sample.columnsAB;
              rows := [[Num (Fin 0 0); Str "w"]] |});
    vm_compute; reflexivity.
Defined.

Lemma select_result_rectangular_witness :
  exists r,
    [{| resultColumns := ["b"; "a"];
        SimpleSQL.values := [[Str "x"; Num (Fin 1 0)]] |}] = [r] /\
    Forall (fun row => length row = length (resultColumns r) /\
                       definedRow row) (SimpleSQL.values r).
Proof.
  apply (select_result_rectangular "SELECT b, a FROM t"
           Sample.reached Sample.reached).
  - unfold Sample.reached. apply reachable_exec, reachable_exec, reachable_new.
  - vm_compute; reflexivity.
  - vm_compute; reflexivity.
Defined.

Lemma select_rows_in_order_witness :
  exists r,
    [{| resultColumns := ["a"; "b"];
        SimpleSQL.values := [[Num (Fin 0 0); Str "w"]] |}] = [r] /\
    length (SimpleSQL.values r) <= 1 /\
    (group 3 [(3, "a < 1"); (2, "t"); (1, "*")] = None ->
     length (SimpleSQL.values r) = 1) /\
    (trim (groupStr 1 [(3, "a < 1"); (2, "t"); (1, "*")]) = "*"%string ->
     sublist (SimpleSQL.values r) [[Num (Fin 0 0); Str "w"]]).
Proof.
  apply (select_rows_in_order "SELECT * FROM t WHERE a < 1"
           [(3, "a < 1"); (2, "t"); (1, "*")] Sample.oneTable Sample.oneTable
           {| SimpleSQL.columns := Sample.columnsAB;
              rows := [[Num (Fin 0 0); Str "w"]] |});
    vm_compute; reflexivity.
Defined.

Lemma createTable_columns_witness :
  exists t,
    fst (exec "CREATE TABLE t (a DECIMAL(10,2), b)" ∅) !! "t" = Some t /\
    rows t = [] /\
    length (SimpleSQL.columns t) = 3 /\
    Forall (fun c => noSpace (name c) /\ noSpace (type c) /\
                     type c <> EmptyString) (SimpleSQL.columns t).
Proof.
  apply (createTable_columns "CREATE TABLE t (a DECIMAL(10,2), b)"
           [(2, "a DECIMAL(10,2), b"); (1, "t")] ∅);
    vm_compute; reflexivity.
Defined.

Lemma batch_stops_at_first_error_witness :
  Worksheet.runStatements
    (["CREATE TABLE t (a INT)"] ++
     "INSERT INTO u VALUES (1)" :: ["INSERT INTO t VALUES (1)"]) ∅ None =
  (fst (exec "CREATE TABLE t (a INT)" ∅), inl (TableDoesNotExist "u")).
Proof.
  apply (batch_stops_at_first_error ["CREATE TABLE t (a INT)"]
           "INSERT INTO u VALUES (1)" ["INSERT INTO t VALUES (1)"]
           ∅ (fst (exec "CREATE TABLE t (a INT)" ∅))
           (fst (exec "CREATE TABLE t (a INT)" ∅)) None None
           (TableDoesNotExist "u"));
    vm_compute; reflexivity.
Defined.

Lemma executeQuery_keeps_invariants_witness :
  wellFormed
    (fst (Worksheet.executeQuery
            "CREATE TABLE t (a); INSERT INTO t VALUES (1); SELECT * FROM t" ∅)).
Proof.
  apply (executeQuery_keeps_invariants
           "CREATE TABLE t (a); INSERT INTO t VALUES (1); SELECT * FROM t" ∅).
  apply reachable_new.
Defined.

Lemma read_only_batch_witness :
  fst (Worksheet.runStatements ["SELECT * FROM t"; "SHOW TABLES"]
         Sample.oneTable None) = Sample.oneTable.
Proof.
  apply (read_only_batch ["SELECT * FROM t"; "SHOW TABLES"]
           Sample.oneTable None).
  repeat constructor.
Defined.

Lemma escapeCsv_injective_witness : "a,b"%string = "a,b"%string.
Proof.
  apply (escapeCsv_injective "a,b" "a,b"). vm_compute; reflexivity.
Defined.

Lemma parseValues_without_quotes_witness :
  parseValues "(1,, x ,)" =
  [Num (Fin 1 0); Str ""; Str "x"].
Proof.
  apply (parseValues_without_quotes "(1,, x ,)"). vm_compute; reflexivity.
Defined.

Lemma parseValuesSets_tuples_witness :
  parseValuesSets "(1,2),(3,4)" =
  [[Num (Fin 1 0); Num (Fin 2 0)]; [Num (Fin 3 0); Num (Fin 4 0)]].
Proof.
  apply (parseValuesSets_tuples ["1,2"; "3,4"]). repeat constructor.
Defined.

Local Open Scope string_scope.

Lemma create_statement_runs_witness :
  exec "CREATE TABLE People (id INT, name)" Sample.oneTable =
  (<["people" := {| SimpleSQL.columns := [{| name := "id"; type := "INT" |};
                                          {| name := "name"; type := "TEXT" |}];
                    rows := [] |}]> Sample.oneTable,
   Returns []).
Proof.
  apply (create_statement_runs "People" "id INT, name" Sample.oneTable);
    vm_compute; reflexivity.
Defined.

Lemma insert_statement_runs_witness :
  exec "INSERT INTO T VALUES ((1,x),(2,null))" Sample.oneTable =
  (<["t" := {| SimpleSQL.columns := Sample.columnsAB;
               rows := [[Num (Fin 0 0); Str "w"];
                        [Num (Fin 1 0); Str "x"];
                        [Num (Fin 2 0); Null]] |}]> Sample.oneTable,
   Returns []).
Proof.
  apply (insert_statement_runs "T" ["1,x"; "2,null"] Sample.oneTable
           {| SimpleSQL.columns := Sample.columnsAB;
              rows := [[Num (Fin 0 0); Str "w"]] |}).
  - vm_compute; reflexivity.
  - repeat constructor.
  - vm_compute; reflexivity.
  - vm_compute. repeat constructor.
Defined.

Lemma drop_statement_runs_witness :
  exec "DROP TABLE T" Sample.oneTable = (delete "t" Sample.oneTable, Returns []).
Proof.
  apply (drop_statement_runs "T" Sample.oneTable
           {| SimpleSQL.columns := Sample.columnsAB;
              rows := [[Num (Fin 0 0); Str "w"]] |});
    vm_compute; reflexivity.
Defined.

Lemma create_insert_select_round_trip_witness :
  snd (execAll ["CREATE TABLE Pets (name, age INT)";
                "INSERT INTO pets VALUES ((rex, 3),(tom, 5))";
                "SELECT * FROM PETS"] Sample.oneTable) =
  [Returns [];
   Returns [];
   Returns [{| resultColumns := ["name"; "age"];
               SimpleSQL.values := [[Str "rex"; Num (Fin 3 0)];
                                    [Str "tom"; Num (Fin 5 0)]] |}]].
Proof.
  apply (create_insert_select_round_trip "Pets" "pets" "PETS" "name, age INT"
           ["rex, 3"; "tom, 5"] Sample.oneTable);
    try (vm_compute; reflexivity).
  - repeat constructor.
  - vm_compute. repeat constructor.
Defined.

Lemma select_statement_runs_witness :
  exec "SELECT b,a FROM T" Sample.oneTable =
  (Sample.oneTable,
   Returns [{| resultColumns := ["b"; "a"];
               SimpleSQL.values := [[Str "w"; Num (Fin 0 0)]] |}]).
Proof.
  apply (select_statement_runs "b,a" "T" Sample.oneTable
           {| SimpleSQL.columns := Sample.columnsAB;
              rows := [[Num (Fin 0 0); Str "w"]] |});
    vm_compute; reflexivity.
Defined.

Lemma where_condition_reading_witness :
  evaluateWhere [Num (Fin 3 0); Str "w"] Sample.columnsAB "a >= 2" = true.
Proof.
  apply (where_condition_reading [Num (Fin 3 0); Str "w"] Sample.columnsAB
           "a" ">=" "2");
    vm_compute; reflexivity.
Defined.

Lemma integer_condition_witness :
  evaluateWhere [Num (Fin 3 0); Str "w"] Sample.columnsAB "a > 1" = true.
Proof.
  apply (integer_condition [Num (Fin 3 0); Str "w"] Sample.columnsAB
           "a" 0 3 "1");
    vm_compute; first [reflexivity | discriminate].
Defined.

Lemma select_where_statement_runs_witness :
  exec "SELECT b FROM T WHERE a < 1" Sample.oneTable =
  (Sample.oneTable,
   Returns [{| resultColumns := ["b"]; SimpleSQL.values := [[Str "w"]] |}]).
Proof.
  apply (select_where_statement_runs "b" "T" "a" "<" "1" Sample.oneTable
           {| SimpleSQL.columns := Sample.columnsAB;
              rows := [[Num (Fin 0 0); Str "w"]] |});
    vm_compute; reflexivity.
Defined.

Lemma quoted_literal_never_matches_witness :
  evaluateWhere [Num (Fin 0 0); Str "w"] Sample.columnsAB "b = 'w'" = false.
Proof.
  apply (quoted_literal_never_matches [Num (Fin 0 0); Str "w"]
           Sample.columnsAB "b" 1 "w" "w");
    vm_compute; reflexivity.
Defined.
